(** * The IIO dispatch core of no-OS ([libraries/iio/iio.c]), embedded in Rocq

    The C functions of [iio.c] are translated one by one into Rocq
    definitions that keep their names.  Integers are [Z] with the C
    conversions written out, byte buffers are [list Z], C strings are
    [string], NULL-terminated pointer arrays are lists, nullable pointers
    are [option]s, and an access the C standard leaves undefined is an
    explicit [Undef] outcome.  The target is the 32-bit little-endian ARM
    the library is built for: [int], [long], [size_t], [ssize_t] and
    pointers are 32 bits wide. *)

From Stdlib Require Import ZArith List String Ascii Bool Lia Arith.
From Equations Require Import Equations.
Import ListNotations.

Local Open Scope Z_scope.

(* ------------------------------------------------------------------ *)
(** ** Result codes ([error.h], [errno.h]) *)

(** Modelled from the spec: [error.h] is not among the sources.  Results
    are negative codes on failure; [SUCCESS] is zero and [FAILURE] the
    generic code -1. *)
Definition SUCCESS : Z := 0.
Definition FAILURE : Z := -1.

(** Modelled from the spec: [errno.h] belongs to the C library of the
    target and is not among the sources.  The error numbers have their
    usual values; the proofs use only that they are positive and
    distinct. *)
Definition ENOENT : Z := 2.
Definition EAGAIN : Z := 11.
Definition ENOMEM : Z := 12.
Definition ENODEV : Z := 19.
Definition EINVAL : Z := 22.
Definition ENOTCONN : Z := 128.

(** Modelled from the spec: the macro [IS_ERR_VALUE(x)] of [error.h],
    which is not among the sources; a result is an error when it is
    negative. *)
Definition IS_ERR_VALUE (x : Z) : bool := x <? 0.

(* ------------------------------------------------------------------ *)
(** ** Fixed-width integers *)

Definition wrap_unsigned (w x : Z) : Z := x mod 2 ^ w.

Definition wrap_signed (w x : Z) : Z :=
  let u := x mod 2 ^ w in
  if u <? 2 ^ (w - 1) then u else u - 2 ^ w.

Definition to_uint8 := wrap_unsigned 8.
Definition to_uint32 := wrap_unsigned 32.
Definition to_int16 := wrap_signed 16.
Definition to_int32 := wrap_signed 32.

Definition LONG_MAX : Z := 2 ^ 31 - 1.

(* ------------------------------------------------------------------ *)
(** ** Channel numbers *)

Module ChannelNumber.

(** [isdigit] of [ctype.h] in the C locale. *)
Definition isdigit (c : ascii) : bool :=
  (48 <=? nat_of_ascii c)%nat && (nat_of_ascii c <=? 57)%nat.

Definition digit_value (c : ascii) : Z := Z.of_nat (nat_of_ascii c) - 48.

(** The digit-consuming loop of [strtol(p, &p, 10)]: accumulates the
    decimal value of the digits in front of [p] and returns the first
    position that is not a digit. *)
Fixpoint strtol_digits (p : string) (acc : Z) : Z * string :=
  match p with
  | String c r =>
      if isdigit c then strtol_digits r (acc * 10 + digit_value c)
      else (acc, p)
  | EmptyString => (acc, p)
  end.

(** [strtol(p, &p, 10)] called on a position that holds a digit, the only
    way [iio_get_channel_number] calls it: no white space or sign is
    skipped, and a value beyond the range of [long] is returned as
    [LONG_MAX]. *)
Definition strtol (p : string) : Z * string :=
  let '(v, rest) := strtol_digits p 0 in (Z.min v LONG_MAX, rest).

Definition inspect {A} (a : A) : {b : A | a = b} := exist _ a eq_refl.

(** The loop of [iio_get_channel_number], run while the character under
    [p] is not the terminator: [p] is the rest of the name, [ch_num] the
    number found so far. *)
Equations? scan (p : string) (ch_num : Z) : Z by wf (String.length p) lt :=
  scan EmptyString ch_num := ch_num;
  scan (String c r) ch_num with inspect (isdigit c) := {
    | exist _ true Hd => scan (snd (strtol (String c r))) (to_int32 (fst (strtol (String c r))));
    | exist _ false _ => scan r ch_num }.
Proof.
  assert (shorter : forall p acc,
            (String.length (snd (strtol_digits p acc)) <= String.length p)%nat).
  { induction p as [|a p IH]; intros acc; simpl; [lia|].
    destruct (isdigit a); simpl; [specialize (IH (acc * 10 + digit_value a)); lia | lia]. }
  unfold strtol. cbn [strtol_digits]. rewrite Hd.
  specialize (shorter r (0 * 10 + digit_value c)).
  destruct (strtol_digits r (0 * 10 + digit_value c)) as [v rest].
  cbn [snd String.length] in *. lia.
Qed.

Definition iio_get_channel_number (ch : string) : Z := scan ch FAILURE.

(** The characters left once the leading ones that satisfy [f] are
    dropped, and the leading characters that satisfy [f]. *)
Fixpoint drop_while {A} (f : A -> bool) (l : list A) : list A :=
  match l with
  | [] => []
  | x :: r => if f x then drop_while f r else l
  end.

Fixpoint take_while {A} (f : A -> bool) (l : list A) : list A :=
  match l with
  | [] => []
  | x :: r => if f x then x :: take_while f r else []
  end.

Definition nondigit (c : ascii) : bool := negb (isdigit c).

(** The last contiguous run of decimal digits of a name, found from its
    end: skip what follows the last digit, then take digits while they
    last. *)
Definition run_of (l : list ascii) : list ascii :=
  rev (take_while isdigit (drop_while nondigit (rev l))).

Definition last_digit_run (ch : string) : list ascii :=
  run_of (list_ascii_of_string ch).

(** The value of a run of digits, read as a decimal number, one digit
    after the other. *)
Definition step (acc : Z) (c : ascii) : Z := acc * 10 + digit_value c.

Definition decimal_value (ds : list ascii) : Z := fold_left step ds 0.

(** The channel number a name with last run [ds] has, [ch] being the
    number when there is no digit at all. *)
Definition run_value (ch : Z) (ds : list ascii) : Z :=
  match ds with
  | [] => ch
  | _ :: _ => Z.min (decimal_value ds) LONG_MAX
  end.

End ChannelNumber.

(* ------------------------------------------------------------------ *)
(** ** Undefined behaviour and buffers *)

(** What the C standard leaves undefined and [iio.c] can run into. *)
Inductive undefined_behaviour : Type :=
| NullDereference      (* access through a NULL pointer *)
| OutOfBounds          (* access outside of an array or buffer *)
| UseAfterFree         (* access to storage that was freed *)
| ShiftOutOfRange      (* shift by a negative amount or by the width or more *)
| Unterminated.        (* string without terminator handed to sprintf *)

(** The outcome of running a C function: it returns, or its behaviour is
    undefined. *)
Inductive outcome (A : Type) : Type :=
| Ret (a : A)
| Undef (u : undefined_behaviour).
Arguments Ret {A} a.
Arguments Undef {A} u.

Definition bind {A B} (m : outcome A) (k : A -> outcome B) : outcome B :=
  match m with
  | Ret a => k a
  | Undef u => Undef u
  end.

Notation "x <- m ;; k" := (bind m (fun x => k))
  (at level 61, m at next level, right associativity).
Notation "' p <- m ;; k" := (bind m (fun x => let p := x in k))
  (at level 61, p pattern, m at next level, right associativity).

Definition zlength {A} (l : list A) : Z := Z.of_nat (List.length l).

(** [memcpy]-like store of [bs] at byte offset [off] of [buf]. *)
Definition store_bytes (buf : list Z) (off : Z) (bs : list Z) : outcome (list Z) :=
  if (0 <=? off) && (off + zlength bs <=? zlength buf) then
    Ret (firstn (Z.to_nat off) buf ++ bs ++ skipn (Z.to_nat off + List.length bs) buf)
  else Undef OutOfBounds.

(** The bytes a [uint32_t] occupies in memory, lowest address first
    (little-endian target). *)
Definition uint32_bytes (v : Z) : list Z :=
  [Z.land v 255; Z.land (Z.shiftr v 8) 255;
   Z.land (Z.shiftr v 16) 255; Z.land (Z.shiftr v 24) 255].

(** Modelled from the spec: the macro [bswap_constant_32] of [util.h],
    which is not among the sources.  The length field of a record is the
    big-endian image of a 32-bit value; on the little-endian target that
    is the value with its four bytes swapped, written here with the masks
    and shifts of such a macro, on a value converted to [uint32_t]. *)
Definition bswap_constant_32 (x : Z) : Z :=
  Z.lor (Z.lor (Z.lor (Z.shiftr (Z.land x 4278190080) 24)
                      (Z.shiftr (Z.land x 16711680) 8))
               (Z.shiftl (Z.land x 65280) 8))
        (Z.shiftl (Z.land x 255) 24).

(** The characters of the C string that starts a byte array, without the
    terminator; [None] when the array holds no terminator. *)
Fixpoint c_string (l : list Z) : option (list Z) :=
  match l with
  | [] => None
  | b :: r => if b =? 0 then Some []
              else match c_string r with
                   | Some s => Some (b :: s)
                   | None => None
                   end
  end.

(** A caller's buffer: the address the pointer holds and the bytes found
    there. *)
Record buffer : Type := { buf_addr : Z; buf_bytes : list Z }.

Definition with_bytes (b : buffer) (bytes : list Z) : buffer :=
  {| buf_addr := buf_addr b; buf_bytes := bytes |}.

(** The bytes visible through the pointer [buf + off]. *)
Definition bytes_from (b : buffer) (off : Z) : list Z :=
  if (0 <=? off) && (off <=? zlength (buf_bytes b))
  then skipn (Z.to_nat off) (buf_bytes b) else [].

(* ------------------------------------------------------------------ *)
(** ** Devices, channels, attributes ([iio_types.h]) *)

(** Modelled from the spec: [struct iio_ch_info] of [iio_types.h], which
    is not among the sources: the channel context, made of the numeric
    channel id and the direction, in the order [iio.c] initialises it. *)
Record iio_ch_info : Type := { ch_num : Z; ci_ch_out : bool }.

(** The four bulk-transfer callbacks of an interface. *)
Inductive bulk_op : Type :=
| TransferDevToMem | ReadData | TransferMemToDev | WriteData.

(** A handler invocation, as the dispatcher makes it: the attribute whose
    handler is called, the length argument and the channel argument; stores
    also record the offset in the caller's buffer their data pointer has;
    bulk callbacks record the device, the offset, the byte count and the
    mask they are given. *)
Inductive handler_call : Type :=
| ShowCall (attr : string) (len : Z) (channel : option iio_ch_info)
| StoreCall (attr : string) (off : Z) (len : Z) (channel : option iio_ch_info)
| BulkCall (op : bulk_op) (device : string) (offset bytes_count mask : Z).

Section Devices.

(** The state behind a [void *dev_instance]. *)
Variable Dev : Type.

(** Modelled from the spec: [struct iio_attribute] of [iio_types.h],
    which is not among the sources, with the fields [iio.c] uses: a name, a
    show handler and a store handler.  [show] gets the device, the output
    array as it is, the length and the channel, and returns its [ssize_t]
    result, the array as it leaves it and the device; [store] gets the
    bytes at its data pointer. *)
Record iio_attribute : Type := {
  attr_name : string;
  show : Dev -> list Z -> Z -> option iio_ch_info -> Z * list Z * Dev;
  store : Dev -> list Z -> Z -> option iio_ch_info -> Z * Dev
}.

(** Modelled from the spec: [struct iio_channel] of [iio_types.h], with
    the fields [iio.c] uses: name, direction flag, attribute list. *)
Record iio_channel : Type := {
  ch_name : string;
  ch_out : bool;
  ch_attributes : option (list iio_attribute)
}.

(** Modelled from the spec: [struct iio_device] of [iio_types.h], with
    the fields [iio.c] uses: channel count, channels, device attributes. *)
Record iio_device : Type := {
  num_ch : Z;
  channels : option (list iio_channel);
  attributes : option (list iio_attribute)
}.

(** Modelled from the spec: [struct iio_interface] of [iio.h], which is
    not among the sources, with the fields [iio.c] uses: the device name,
    the instance handle (an address), the descriptor, the current channel
    mask and the optional callbacks: the four of the bulk transfers and
    [get_xml], which is given the descriptor and hands out a text through
    its first argument.  A callback that is [None] is a NULL pointer. *)
Record iio_interface : Type := {
  name : string;
  dev_instance : nat;
  iio : option iio_device;
  ch_mask : Z;
  transfer_dev_to_mem : option (Dev -> Z -> Z -> Z * Dev);
  read_data : option (Dev -> list Z -> Z -> Z -> Z -> Z * list Z * Dev);
  transfer_mem_to_dev : option (Dev -> Z -> Z -> Z * Dev);
  write_data : option (Dev -> list Z -> Z -> Z -> Z -> Z * Dev);
  get_xml : option (option iio_device -> Z * string)
}.

Definition set_ch_mask (m : Z) (i : iio_interface) : iio_interface :=
  {| name := name i; dev_instance := dev_instance i; iio := iio i;
     ch_mask := m;
     transfer_dev_to_mem := transfer_dev_to_mem i; read_data := read_data i;
     transfer_mem_to_dev := transfer_mem_to_dev i; write_data := write_data i;
     get_xml := get_xml i |}.

(** The global [iio_interfaces]: NULL, a live registry with its array of
    interfaces, a pointer to storage that is no longer valid, or a
    registry whose count is zero and whose array was freed. *)
Inductive registry : Type :=
| RegNull
| RegLive (interfaces : list iio_interface)
| RegInvalid
| RegEmptied.

(** What the functions of [iio.c] work on: the global registry, the
    device instances by address, the stack area [local_buf] occupies, and
    the handler calls made so far. *)
Record world : Type := {
  iio_interfaces : registry;
  devices : nat -> Dev;
  stack : list Z;
  calls : list handler_call
}.

Definition set_registry (r : registry) (w : world) : world :=
  {| iio_interfaces := r; devices := devices w; stack := stack w; calls := calls w |}.

Definition set_device (p : nat) (d : Dev) (w : world) : world :=
  {| iio_interfaces := iio_interfaces w;
     devices := fun q => if Nat.eqb q p then d else devices w q;
     stack := stack w; calls := calls w |}.

Definition set_stack (s : list Z) (w : world) : world :=
  {| iio_interfaces := iio_interfaces w; devices := devices w; stack := s; calls := calls w |}.

Definition log_calls (cs : list handler_call) (w : world) : world :=
  {| iio_interfaces := iio_interfaces w; devices := devices w; stack := stack w;
     calls := calls w ++ cs |}.

(* ---------------------------------------------------------------- *)
(** *** Lookups *)

(** The largest value of the [int16_t] that indexes the arrays of
    channels and of attributes. *)
Definition INT16_MAX : Z := 32767.

(** The search loops of [iio_get_channel_id] and [iio_get_attribute_id]:
    element [i] is read, then tested.  The index is an [int16_t]: past
    [INT16_MAX] its increment wraps and the array is read in front of its
    first element. *)
Fixpoint find_index {A} (f : A -> bool) (l : list A) (i : Z) : outcome (option Z) :=
  if INT16_MAX <? i then Undef OutOfBounds
  else match l with
       | [] => Ret None
       | x :: r => if f x then Ret (Some i) else find_index f r (i + 1)
       end.

Definition iio_get_channel_id (channel : string)
    (chans : option (list iio_channel)) (out : bool) : outcome Z :=
  match chans with
  | None => Undef NullDereference
  | Some [] => Ret (- EINVAL)
  | Some l =>
      found <- find_index (fun c => String.eqb channel (ch_name c)
                                    && Bool.eqb (ch_out c) out) l 0;;
      match found with
      | Some i => Ret i
      | None => Ret (- ENOENT)
      end
  end.

Definition iio_get_attribute_id (attr : string)
    (attrs : option (list iio_attribute)) : outcome Z :=
  match attrs with
  | None => Undef NullDereference
  | Some [] => Ret (- EINVAL)
  | Some l =>
      found <- find_index (fun a => String.eqb attr (attr_name a)) l 0;;
      match found with
      | Some i => Ret i
      | None => Ret (- ENOENT)
      end
  end.

Definition iio_get_interface (device_name : string) (r : registry)
  : outcome (option iio_interface) :=
  match r with
  | RegNull => Ret None
  | RegLive l => Ret (find (fun i => String.eqb device_name (name i)) l)
  | RegInvalid => Undef UseAfterFree
  | RegEmptied => Ret None
  end.

(** Element [i] of an array, as [a[i]] reads it. *)
Definition array_index {A} (l : list A) (i : Z) : outcome A :=
  if i <? 0 then Undef OutOfBounds
  else match nth_error l (Z.to_nat i) with
       | Some x => Ret x
       | None => Undef OutOfBounds
       end.

(** Dereference of a pointer that may be NULL. *)
Definition deref {A} (p : option A) : outcome A :=
  match p with
  | Some x => Ret x
  | None => Undef NullDereference
  end.

(* ---------------------------------------------------------------- *)
(** *** Aggregate read and write *)

(** [attr_length] rounded as [iio_read_all_attr] does it. *)
Definition round_up_4 (n : Z) : Z :=
  if Z.land n 3 =? 0 then n else to_int32 (Z.shiftl (Z.shiftr n 2 + 1) 2).

(** The size of the array [local_buf] of [iio_read_all_attr]. *)
Definition LOCAL_BUF_SIZE : Z := 256.

(** The [while (attributes[i])] loop of [iio_read_all_attr]; [j] is the
    [int16_t] cursor and [i] the [int16_t] index, past [INT16_MAX] of
    which the array of attributes is read in front of its first element.
    [local_buf] is what the array of [LOCAL_BUF_SIZE] bytes holds; a show
    handler that leaves more than that has written behind its end. *)
Fixpoint read_all_loop (attrs : list iio_attribute) (device : Dev)
    (buf local_buf : list Z) (len : Z) (channel : option iio_ch_info) (j i : Z)
  : outcome (Z * list Z * list Z * Dev * list handler_call) :=
  if INT16_MAX <? i then Undef OutOfBounds
  else
    match attrs with
    | [] => Ret (j, buf, local_buf, device, [])
    | a :: rest =>
        let '(attr_length, local_buf1, device1) := show a device local_buf len channel in
        if LOCAL_BUF_SIZE <? zlength local_buf1 then Undef OutOfBounds
        else
          buf1 <- store_bytes buf j
                    (uint32_bytes (bswap_constant_32 (to_uint32 attr_length)));;
          let j1 := to_int16 (j + 4) in
          ' (j2, buf2) <-
            (if 0 <=? attr_length then
               s <- match c_string local_buf1 with
                    | Some s => Ret s
                    | None => Undef Unterminated
                    end;;
               b <- store_bytes buf1 j1 (s ++ [0]);;
               Ret (to_int16 (j1 + round_up_4 attr_length), b)
             else Ret (j1, buf1));;
          ' (r, bufn, lbn, devn, cs) <-
            read_all_loop rest device1 buf2 local_buf1 len channel j2 (i + 1);;
          Ret (r, bufn, lbn, devn, ShowCall (attr_name a) len channel :: cs)
    end.

Definition iio_read_all_attr (device : Dev) (buf : option buffer) (local_buf : list Z)
    (len : Z) (channel : option iio_ch_info) (attrs : option (list iio_attribute))
  : outcome (Z * option buffer * list Z * Dev * list handler_call) :=
  match attrs, buf with
  | None, _ => Ret (FAILURE, buf, local_buf, device, [])
  | Some _, None => Ret (FAILURE, buf, local_buf, device, [])
  | Some l, Some b =>
      ' (j, bytes, lb, dev, cs) <-
        read_all_loop l device (buf_bytes b) local_buf len channel 0 0;;
      Ret (j, Some (with_bytes b bytes), lb, dev, cs)
  end.

(** The loop of [iio_write_all_attr].  The length of a record is computed
    from the value of the pointer [buf + j]; [i] is the [int16_t] index,
    past [INT16_MAX] of which the array of attributes is read in front of
    its first element. *)
Fixpoint write_all_loop (attrs : list iio_attribute) (device : Dev)
    (buf : buffer) (channel : option iio_ch_info) (j i : Z)
  : outcome (Dev * list handler_call) :=
  if INT16_MAX <? i then Undef OutOfBounds
  else
    match attrs with
    | [] => Ret (device, [])
    | a :: rest =>
        let attr_length := to_int16 (bswap_constant_32 (to_uint32 (buf_addr buf + j))) in
        let j1 := to_int16 (j + 4) in
        let '(_, device1) := store a device (bytes_from buf j1) attr_length channel in
        let j2 := to_int16 (j1 + attr_length) in
        let j3 := if Z.land j2 3 =? 0 then j2
                  else to_int16 (Z.shiftl (Z.shiftr j2 2 + 1) 2) in
        ' (devn, cs) <- write_all_loop rest device1 buf channel j3 (i + 1);;
        Ret (devn, StoreCall (attr_name a) j1 attr_length channel :: cs)
    end.

Definition iio_write_all_attr (device : Dev) (buf : option buffer) (len : Z)
    (channel : option iio_ch_info) (attrs : option (list iio_attribute))
  : outcome (Z * Dev * list handler_call) :=
  match attrs, buf with
  | None, _ => Ret (FAILURE, device, [])
  | Some _, None => Ret (FAILURE, device, [])
  | Some l, Some b =>
      ' (dev, cs) <- write_all_loop l device b channel 0 0;;
      Ret (len, dev, cs)
  end.

(* ---------------------------------------------------------------- *)
(** *** The attribute dispatcher *)

(** [struct element_info]. *)
Record element_info : Type := {
  device_name : string;
  channel_name : string;
  attribute_name : string;
  ei_ch_out : bool
}.

(** A handler called through an interface: the device instance is read
    and written back at its address, the call is recorded. *)
Definition call_show (w : world) (ifc : iio_interface) (a : iio_attribute)
    (buf : buffer) (len : Z) (channel : option iio_ch_info) : Z * buffer * world :=
  let '(r, bytes, d) := show a (devices w (dev_instance ifc)) (buf_bytes buf) len channel in
  (r, with_bytes buf bytes,
   log_calls [ShowCall (attr_name a) len channel] (set_device (dev_instance ifc) d w)).

Definition call_store (w : world) (ifc : iio_interface) (a : iio_attribute)
    (buf : buffer) (len : Z) (channel : option iio_ch_info) : Z * buffer * world :=
  let '(r, d) := store a (devices w (dev_instance ifc)) (buf_bytes buf) len channel in
  (r, buf,
   log_calls [StoreCall (attr_name a) 0 len channel] (set_device (dev_instance ifc) d w)).

Definition call_read_all (w : world) (ifc : iio_interface) (buf : buffer) (len : Z)
    (channel : option iio_ch_info) (attrs : option (list iio_attribute))
  : outcome (Z * buffer * world) :=
  ' (r, b, lb, d, cs) <-
    iio_read_all_attr (devices w (dev_instance ifc)) (Some buf) (stack w) len channel attrs;;
  Ret (r, match b with Some b' => b' | None => buf end,
       log_calls cs (set_stack lb (set_device (dev_instance ifc) d w))).

Definition call_write_all (w : world) (ifc : iio_interface) (buf : buffer) (len : Z)
    (channel : option iio_ch_info) (attrs : option (list iio_attribute))
  : outcome (Z * buffer * world) :=
  ' (r, d, cs) <-
    iio_write_all_attr (devices w (dev_instance ifc)) (Some buf) len channel attrs;;
  Ret (r, buf, log_calls cs (set_device (dev_instance ifc) d w)).

Definition iio_rd_wr_channel_attribute (el_info : element_info) (buf : buffer)
    (len : Z) (channel : iio_channel) (is_write : bool) (w : world)
  : outcome (Z * buffer * world) :=
  iface <- iio_get_interface (device_name el_info) (iio_interfaces w);;
  let channel_info :=
    {| ch_num := ChannelNumber.iio_get_channel_number (channel_name el_info);
       ci_ch_out := ei_ch_out el_info |} in
  if String.eqb (attribute_name el_info) "" then
    ifc <- deref iface;;
    if is_write
    then call_write_all w ifc buf len (Some channel_info) (ch_attributes channel)
    else call_read_all w ifc buf len (Some channel_info) (ch_attributes channel)
  else
    attribute_id <- iio_get_attribute_id (attribute_name el_info) (ch_attributes channel);;
    if 0 <=? attribute_id then
      attrs <- deref (ch_attributes channel);;
      a <- array_index attrs attribute_id;;
      ifc <- deref iface;;
      if is_write
      then Ret (call_store w ifc a buf len (Some channel_info))
      else Ret (call_show w ifc a buf len (Some channel_info))
    else Ret (- ENOENT, buf, w).

Definition iio_rd_wr_attribute (el_info : element_info) (buf : buffer) (len : Z)
    (iio_device : option iio_device) (is_write : bool) (w : world)
  : outcome (Z * buffer * world) :=
  match iio_device with
  | None => Ret (- ENOENT, buf, w)
  | Some dev =>
      if String.eqb (channel_name el_info) "" then
        iface <- iio_get_interface (device_name el_info) (iio_interfaces w);;
        if String.eqb (attribute_name el_info) "" then
          ifc <- deref iface;;
          if is_write
          then call_write_all w ifc buf len None (attributes dev)
          else call_read_all w ifc buf len None (attributes dev)
        else
          attribute_id <- iio_get_attribute_id (attribute_name el_info) (attributes dev);;
          if attribute_id <? 0 then Ret (- ENOENT, buf, w)
          else
            attrs <- deref (attributes dev);;
            a <- array_index attrs attribute_id;;
            ifc <- deref iface;;
            if is_write
            then Ret (call_store w ifc a buf len None)
            else Ret (call_show w ifc a buf len None)
      else
        channel_id <- iio_get_channel_id (channel_name el_info) (channels dev)
                                         (ei_ch_out el_info);;
        chans <- deref (channels dev);;
        channel <- array_index chans channel_id;;
        iio_rd_wr_channel_attribute el_info buf len channel is_write w
  end.

Definition iio_supported_dev (device : string) (w : world) : outcome bool :=
  iface <- iio_get_interface device (iio_interfaces w);;
  Ret (match iface with Some _ => true | None => false end).

(** The four attribute entry points handed to the command interpreter.
    [garbage] is the value the uninitialised [el_info.ch_out] happens to
    have in the two device-level ones. *)
Definition iio_read_attr (device attr : string) (buf : buffer) (len : Z)
    (garbage : bool) (w : world) : outcome (Z * buffer * world) :=
  sup <- iio_supported_dev device w;;
  if negb sup then Ret (FAILURE, buf, w)
  else
    let el_info := {| device_name := device; channel_name := "";
                      attribute_name := attr; ei_ch_out := garbage |} in
    iio_device <- iio_get_interface device (iio_interfaces w);;
    match iio_device with
    | None => Ret (FAILURE, buf, w)
    | Some ifc => iio_rd_wr_attribute el_info buf len (iio ifc) false w
    end.

Definition iio_write_attr (device attr : string) (buf : buffer) (len : Z)
    (garbage : bool) (w : world) : outcome (Z * buffer * world) :=
  sup <- iio_supported_dev device w;;
  if negb sup then Ret (- ENODEV, buf, w)
  else
    let el_info := {| device_name := device; channel_name := "";
                      attribute_name := attr; ei_ch_out := garbage |} in
    iio_interface <- iio_get_interface device (iio_interfaces w);;
    match iio_interface with
    | None => Ret (FAILURE, buf, w)
    | Some ifc => iio_rd_wr_attribute el_info buf len (iio ifc) true w
    end.

Definition iio_ch_read_attr (device channel : string) (out : bool) (attr : string)
    (buf : buffer) (len : Z) (w : world) : outcome (Z * buffer * world) :=
  sup <- iio_supported_dev device w;;
  if negb sup then Ret (FAILURE, buf, w)
  else
    let el_info := {| device_name := device; channel_name := channel;
                      attribute_name := attr; ei_ch_out := out |} in
    iio_interface <- iio_get_interface device (iio_interfaces w);;
    ifc <- deref iio_interface;;
    iio_rd_wr_attribute el_info buf len (iio ifc) false w.

Definition iio_ch_write_attr (device channel : string) (out : bool) (attr : string)
    (buf : buffer) (len : Z) (w : world) : outcome (Z * buffer * world) :=
  sup <- iio_supported_dev device w;;
  if negb sup then Ret (- ENODEV, buf, w)
  else
    let el_info := {| device_name := device; channel_name := channel;
                      attribute_name := attr; ei_ch_out := out |} in
    iio_interface <- iio_get_interface device (iio_interfaces w);;
    match iio_interface with
    | None => Ret (- ENOENT, buf, w)
    | Some ifc => iio_rd_wr_attribute el_info buf len (iio ifc) true w
    end.

(* ---------------------------------------------------------------- *)
(** *** Opening, closing and bulk transfers *)

(** [x >> n] on a 32-bit unsigned [x]. *)
Definition shr32 (x n : Z) : outcome Z :=
  if (0 <=? n) && (n <? 32) then Ret (Z.shiftr x n) else Undef ShiftOutOfRange.

(** [~x] on a 32-bit unsigned [x]. *)
Definition not32 (x : Z) : Z := Z.lxor x 4294967295.

(** A write through the pointer [iio_get_interface] returned: it lands in
    the first interface of that name. *)
Fixpoint update_interface (device : string) (f : iio_interface -> iio_interface)
    (l : list iio_interface) : list iio_interface :=
  match l with
  | [] => []
  | i :: r => if String.eqb device (name i) then f i :: r
              else i :: update_interface device f r
  end.

Definition update_registry (device : string) (f : iio_interface -> iio_interface)
    (w : world) : world :=
  match iio_interfaces w with
  | RegLive l => set_registry (RegLive (update_interface device f l)) w
  | _ => w
  end.

Definition iio_open_dev (device : string) (sample_size mask : Z) (w : world)
  : outcome (Z * world) :=
  sup <- iio_supported_dev device w;;
  if negb sup then Ret (- ENODEV, w)
  else
    iface <- iio_get_interface device (iio_interfaces w);;
    ifc <- deref iface;;
    dev <- deref (iio ifc);;
    valid <- shr32 4294967295 (32 - num_ch dev);;
    if negb (Z.land mask (not32 valid) =? 0) then Ret (- ENOENT, w)
    else Ret (SUCCESS, update_registry device (set_ch_mask mask) w).

Definition iio_close_dev (device : string) (w : world) : outcome (Z * world) :=
  sup <- iio_supported_dev device w;;
  if negb sup then Ret (FAILURE, w)
  else
    iface <- iio_get_interface device (iio_interfaces w);;
    _ <- deref iface;;
    Ret (SUCCESS, update_registry device (set_ch_mask 0) w).

(** [mask] is what the caller's variable holds before the call; the
    second component of the result is what it holds afterwards. *)
Definition iio_get_mask (device : string) (mask : Z) (w : world) : outcome (Z * Z) :=
  sup <- iio_supported_dev device w;;
  if negb sup then Ret (- ENODEV, mask)
  else
    iface <- iio_get_interface device (iio_interfaces w);;
    ifc <- deref iface;;
    Ret (SUCCESS, ch_mask ifc).

Definition iio_transfer_dev_to_mem (device : string) (bytes_count : Z) (w : world)
  : outcome (Z * world) :=
  iface <- iio_get_interface device (iio_interfaces w);;
  ifc <- deref iface;;
  match transfer_dev_to_mem ifc with
  | Some f =>
      let '(r, d) := f (devices w (dev_instance ifc)) bytes_count (ch_mask ifc) in
      Ret (r, log_calls [BulkCall TransferDevToMem device 0 bytes_count (ch_mask ifc)]
                (set_device (dev_instance ifc) d w))
  | None => Ret (- ENOENT, w)
  end.

Definition iio_read_dev (device : string) (pbuf : list Z) (offset bytes_count : Z)
    (w : world) : outcome (Z * list Z * world) :=
  iface <- iio_get_interface device (iio_interfaces w);;
  ifc <- deref iface;;
  match read_data ifc with
  | Some f =>
      let '(r, pbuf1, d) :=
        f (devices w (dev_instance ifc)) pbuf offset bytes_count (ch_mask ifc) in
      Ret (r, pbuf1,
           log_calls [BulkCall ReadData device offset bytes_count (ch_mask ifc)]
             (set_device (dev_instance ifc) d w))
  | None => Ret (- ENOENT, pbuf, w)
  end.

Definition iio_transfer_mem_to_dev (device : string) (bytes_count : Z) (w : world)
  : outcome (Z * world) :=
  iface <- iio_get_interface device (iio_interfaces w);;
  ifc <- deref iface;;
  match transfer_mem_to_dev ifc with
  | Some f =>
      let '(r, d) := f (devices w (dev_instance ifc)) bytes_count (ch_mask ifc) in
      Ret (r, log_calls [BulkCall TransferMemToDev device 0 bytes_count (ch_mask ifc)]
                (set_device (dev_instance ifc) d w))
  | None => Ret (- ENOENT, w)
  end.

Definition iio_write_dev (device : string) (buf : list Z) (offset bytes_count : Z)
    (w : world) : outcome (Z * world) :=
  iface <- iio_get_interface device (iio_interfaces w);;
  ifc <- deref iface;;
  match write_data ifc with
  | Some f =>
      let '(r, d) :=
        f (devices w (dev_instance ifc)) buf offset bytes_count (ch_mask ifc) in
      Ret (r, log_calls [BulkCall WriteData device offset bytes_count (ch_mask ifc)]
                (set_device (dev_instance ifc) d w))
  | None => Ret (- ENOENT, w)
  end.

(* ---------------------------------------------------------------- *)
(** *** Registration *)

(** [iio_register].  [struct_ok] and [array_ok] tell whether the
    allocation of the registry structure and of its array succeed.  The
    error paths leave the global pointing at a structure whose array is
    gone; every later use of it is treated as undefined.  A 256th
    registration wraps the [uint8_t] count to zero before the array is
    reallocated: when that succeeds the interface is stored in front of
    the array, when it fails the array is freed and the count stays
    zero. *)
Definition iio_register (struct_ok array_ok : bool) (interface : iio_interface)
    (w : world) : outcome (Z * world) :=
  match iio_interfaces w with
  | RegNull =>
      if negb struct_ok then Ret (- ENOMEM, w)
      else if negb array_ok then Ret (- ENOMEM, set_registry RegInvalid w)
      else Ret (SUCCESS, set_registry (RegLive [interface]) w)
  | RegLive l =>
      if negb array_ok then
        Ret (- ENOMEM,
             set_registry (if (List.length l =? 255)%nat then RegEmptied else RegInvalid) w)
      else if (List.length l =? 255)%nat then Undef OutOfBounds
      else Ret (SUCCESS, set_registry (RegLive (l ++ [interface])) w)
  | RegInvalid => Undef UseAfterFree
  | RegEmptied => Undef UseAfterFree
  end.

(** [a[i] = x] on an array of pointers. *)
Definition store_at {A} (arr : list A) (i : Z) (x : A) : outcome (list A) :=
  if (0 <=? i) && (i <? zlength arr) then
    Ret (firstn (Z.to_nat i) arr ++ x :: skipn (S (Z.to_nat i)) arr)
  else Undef OutOfBounds.

(** The [for] loop of [iio_unregister]: [arr] is the array of the new
    local registry, zeroed by [calloc]. *)
Fixpoint unregister_loop (nm : string) (l : list iio_interface) (i deleted : Z)
    (arr : list (option iio_interface)) : outcome (Z * list (option iio_interface)) :=
  match l with
  | [] => Ret (deleted, arr)
  | x :: r =>
      if String.eqb nm (name x) then unregister_loop nm r (i + 1) 1 arr
      else
        arr1 <- store_at arr (i - deleted) (Some x);;
        unregister_loop nm r (i + 1) deleted arr1
  end.

(** [iio_unregister].  The third component of the result is the array of
    the new registry the function builds in its local [interfaces]; the
    function returns without storing [interfaces] in the global
    [iio_interfaces], which it has passed to [free].  On a registry whose
    count is zero the array asked for has [0 - 1] elements, converted to
    [size_t]: no allocation of that size succeeds. *)
Definition iio_unregister (struct_ok array_ok : bool) (interface : iio_interface)
    (w : world) : outcome (Z * world * list (option iio_interface)) :=
  if negb struct_ok then Ret (FAILURE, w, [])
  else
    match iio_interfaces w with
    | RegNull => Undef NullDereference
    | RegInvalid => Undef UseAfterFree
    | RegEmptied => Ret (FAILURE, w, [])
    | RegLive l =>
        if negb array_ok then Ret (FAILURE, w, [])
        else
          ' (deleted, arr) <-
            unregister_loop (name interface) l 0 0
              (repeat None (List.length l - 1));;
          Ret (if deleted =? 0 then FAILURE else SUCCESS,
               set_registry RegInvalid w, arr)
    end.

End Devices.

Arguments attr_name {Dev}.
Arguments show {Dev}.
Arguments store {Dev}.
Arguments Build_iio_attribute {Dev}.
Arguments ch_name {Dev}.
Arguments ch_out {Dev}.
Arguments ch_attributes {Dev}.
Arguments Build_iio_channel {Dev}.
Arguments num_ch {Dev}.
Arguments channels {Dev}.
Arguments attributes {Dev}.
Arguments Build_iio_device {Dev}.
Arguments name {Dev}.
Arguments dev_instance {Dev}.
Arguments iio {Dev}.
Arguments ch_mask {Dev}.
Arguments transfer_dev_to_mem {Dev}.
Arguments read_data {Dev}.
Arguments transfer_mem_to_dev {Dev}.
Arguments write_data {Dev}.
Arguments get_xml {Dev}.
Arguments Build_iio_interface {Dev}.
Arguments set_ch_mask {Dev}.
Arguments RegNull {Dev}.
Arguments RegLive {Dev}.
Arguments RegInvalid {Dev}.
Arguments RegEmptied {Dev}.
Arguments iio_interfaces {Dev}.
Arguments devices {Dev}.
Arguments stack {Dev}.
Arguments calls {Dev}.
Arguments Build_world {Dev}.
Arguments set_registry {Dev}.
Arguments set_device {Dev}.
Arguments set_stack {Dev}.
Arguments log_calls {Dev}.
Arguments iio_get_channel_id {Dev}.
Arguments iio_get_attribute_id {Dev}.
Arguments iio_get_interface {Dev}.
Arguments read_all_loop {Dev}.
Arguments iio_read_all_attr {Dev}.
Arguments write_all_loop {Dev}.
Arguments iio_write_all_attr {Dev}.
Arguments call_show {Dev}.
Arguments call_store {Dev}.
Arguments call_read_all {Dev}.
Arguments call_write_all {Dev}.
Arguments iio_rd_wr_channel_attribute {Dev}.
Arguments iio_rd_wr_attribute {Dev}.
Arguments iio_supported_dev {Dev}.
Arguments iio_read_attr {Dev}.
Arguments iio_write_attr {Dev}.
Arguments iio_ch_read_attr {Dev}.
Arguments iio_ch_write_attr {Dev}.
Arguments update_interface {Dev}.
Arguments update_registry {Dev}.
Arguments iio_open_dev {Dev}.
Arguments iio_close_dev {Dev}.
Arguments iio_get_mask {Dev}.
Arguments iio_transfer_dev_to_mem {Dev}.
Arguments iio_read_dev {Dev}.
Arguments iio_transfer_mem_to_dev {Dev}.
Arguments iio_write_dev {Dev}.
Arguments iio_register {Dev}.
Arguments unregister_loop {Dev}.
Arguments iio_unregister {Dev}.

(** An attribute name that none of the attributes of a scope has. *)
Definition attribute_absent {Dev : Type} (attr : string)
    (attrs : list (iio_attribute Dev)) : Prop :=
  forall a, In a attrs -> String.eqb attr (attr_name a) = false.

(* ------------------------------------------------------------------ *)
(** ** The framing of aggregate reads, as the wire has it *)

Module Framing.

(** The four bytes of a signed 32-bit value, most significant first. *)
Definition be32 (v : Z) : list Z :=
  [Z.land (Z.shiftr v 24) 255; Z.land (Z.shiftr v 16) 255;
   Z.land (Z.shiftr v 8) 255; Z.land v 255].

(** A length rounded up to the next multiple of 4. *)
Definition padded (r : Z) : Z := 4 * ((r + 3) / 4).

Section Results.
Context {Dev : Type}.
Variables (len : Z) (channel : option iio_ch_info).

(** What the show handlers of the attributes return when called one
    after the other: the result and the output array of each. *)
Fixpoint show_results (attrs : list (iio_attribute Dev)) (device : Dev)
    (local_buf : list Z) : list (Z * list Z) :=
  match attrs with
  | [] => []
  | a :: rest =>
      let '(r, lb, d) := show a device local_buf len channel in
      (r, lb) :: show_results rest d lb
  end.

End Results.

(** The text a handler left in its output array. *)
Definition text_of (lb : list Z) : list Z :=
  match c_string lb with
  | Some s => s
  | None => []
  end.

(** The size of the record of a result, and of the records of a list of
    results. *)
Definition record_size (r : Z) : Z := 4 + (if 0 <=? r then padded r else 0).

Fixpoint total_size (results : list (Z * list Z)) : Z :=
  match results with
  | [] => 0
  | (r, _) :: more => record_size r + total_size more
  end.

(** A handler that fails, or returns the length of the text it left. *)
Definition returns_text_length (res : Z * list Z) : Prop :=
  fst res < 0 \/ exists s, c_string (snd res) = Some s /\ zlength s = fst res.

(** A handler that has stayed within the scratch array it was given. *)
Definition within_local_buf (res : Z * list Z) : Prop :=
  zlength (snd res) <= LOCAL_BUF_SIZE.

(** The records of the results, written over a destination that holds
    [dest] from the cursor on: length, then for a non-negative length the
    text and the padding, which is the terminator of the text followed by
    what the destination held there. *)
Fixpoint frame (results : list (Z * list Z)) (dest : list Z) : list Z :=
  match results with
  | [] => []
  | (r, lb) :: more =>
      if 0 <=? r then
        be32 r ++ text_of lb
          ++ firstn (Z.to_nat (padded r - r)) (0 :: skipn (Z.to_nat (4 + r + 1)) dest)
          ++ frame more (skipn (Z.to_nat (4 + padded r)) dest)
      else be32 r ++ frame more (skipn 4 dest)
  end.

(** The layout the wire format asks for: length, value, zero padding. *)
Definition zero_padded_record (res : Z * list Z) : list Z :=
  be32 (fst res) ++
  (if 0 <=? fst res
   then text_of (snd res) ++ repeat 0 (Z.to_nat (padded (fst res) - fst res))
   else []).

End Framing.

(* ------------------------------------------------------------------ *)
(** ** The connection multiplexer *)

Module Multiplexer.

Definition MAX_SOCKET_TO_HANDLE : nat := 4.

(** A [struct tcp_socket_desc *] that designates a connection. *)
Definition sock : Type := nat.
Bind Scope nat_scope with sock.

(** The values [desc->current_sock] takes: NULL ([Empty]), the connection
    being served ([Active]), and the pointer [-1] that [network_read]
    stores once the peer is gone ([Dead]). *)
Inductive current : Type :=
| Empty
| Active (h : sock)
| Dead.

(** Modelled from the spec: [enum pysical_link_type] of [iio.h], which is
    not among the sources: the serial and the network configuration. *)
Inductive pysical_link_type : Type := USE_UART | USE_NETWORK.

(** [struct iio_desc], as far as the transport goes.  [sockets] is the
    content of the circular buffer, oldest first.  [removed] lists the
    connections handed to [socket_remove], [commands] counts the calls of
    [tinyiiod_read_command]. *)
Record iio_desc : Type := {
  phy_type : pysical_link_type;
  sockets : list sock;
  current_sock : current;
  removed : list sock;
  commands : nat
}.

Definition set_sockets (q : list sock) (d : iio_desc) : iio_desc :=
  {| phy_type := phy_type d; sockets := q; current_sock := current_sock d;
     removed := removed d; commands := commands d |}.

Definition set_current (c : current) (d : iio_desc) : iio_desc :=
  {| phy_type := phy_type d; sockets := sockets d; current_sock := c;
     removed := removed d; commands := commands d |}.

(** [socket_remove(desc->current_sock)]. *)
Definition socket_remove_current (d : iio_desc) : iio_desc :=
  {| phy_type := phy_type d; sockets := sockets d; current_sock := current_sock d;
     removed := match current_sock d with
                | Active h => h :: removed d
                | _ => removed d
                end;
     commands := commands d |}.

Definition count_command (d : iio_desc) : iio_desc :=
  {| phy_type := phy_type d; sockets := sockets d; current_sock := current_sock d;
     removed := removed d; commands := S (commands d) |}.

(** The descriptor [iio_init] returns: zeroed by [calloc], with an empty
    circular buffer. *)
Definition iio_init_desc (phy : pysical_link_type) : iio_desc :=
  {| phy_type := phy; sockets := []; current_sock := Empty;
     removed := []; commands := 0 |}.

(** Modelled from the spec: the byte-level transport ([tcp_socket.h],
    [uart.h]) is external to [iio.c].  A call of [socket_accept] yields a
    new connection or fails with an [errno] ([EAGAIN] when nobody is
    waiting); a call of [socket_recv] yields at most the bytes asked for
    or fails with an [errno]; a call of [uart_read] yields its result and
    bytes.  Each call consumes the next answer; without an answer left the
    call does not return. *)
Inductive accept_result : Type :=
| Accepted (s : sock)
| AcceptFailed (errno : positive).

Inductive recv_result : Type :=
| Received (bytes : list Z)
| RecvFailed (errno : positive).

(** The two failures [iio.c] tells from the others: [EAGAIN] of
    [socket_accept] and [ENOTCONN] of [socket_recv]. *)
Abbreviation would_block := (AcceptFailed 11).
Abbreviation disconnected := (RecvFailed 128).

Record env : Type := {
  accepts : list accept_result;
  recvs : list recv_result;
  uart_reads : list (Z * list Z)
}.

Definition set_accepts (a : list accept_result) (e : env) : env :=
  {| accepts := a; recvs := recvs e; uart_reads := uart_reads e |}.

Definition set_recvs (r : list recv_result) (e : env) : env :=
  {| accepts := accepts e; recvs := r; uart_reads := uart_reads e |}.

Definition set_uart_reads (u : list (Z * list Z)) (e : env) : env :=
  {| accepts := accepts e; recvs := recvs e; uart_reads := u |}.

(** Modelled from the spec: [cb_write] of [circular_buffer.h], whose code
    is not part of [iio.c].  The connection queue is a bounded FIFO of
    capacity [MAX_SOCKET_TO_HANDLE]; a push onto a full queue fails and
    leaves it as it is. *)
Definition cb_write (q : list sock) (s : sock) : Z * list sock :=
  if (List.length q <? MAX_SOCKET_TO_HANDLE)%nat then (SUCCESS, q ++ [s])
  else (- ENOMEM, q).

(** Modelled from the spec: [cb_read] of [circular_buffer.h], whose code
    is not part of [iio.c].  A pop takes the head of the queue; on an
    empty queue it fails. *)
Definition cb_read (q : list sock) : Z * option sock * list sock :=
  match q with
  | [] => (- EAGAIN, None, q)
  | h :: t => (SUCCESS, Some h, t)
  end.

Definition _push_sock (d : iio_desc) (s : sock) : Z * iio_desc :=
  let '(ret, q) := cb_write (sockets d) s in (ret, set_sockets q d).

(** [_pop_sock(desc, &desc->current_sock)]. *)
Definition _pop_sock (d : iio_desc) : Z * iio_desc :=
  match cb_read (sockets d) with
  | (ret, Some h, q) => (ret, set_current (Active h) (set_sockets q d))
  | (ret, None, q) => (ret, set_sockets q d)
  end.

Definition _nb_active_sockets (d : iio_desc) : Z := zlength (sockets d).

(** The [do ... while (true)] loop of [_get_next_socket].  [Some err] in
    the first component is a [return err] from inside the loop, [None]
    is the [break]. *)
Fixpoint accept_loop (acs : list accept_result) (d : iio_desc)
  : option (option Z * iio_desc * list accept_result) :=
  match acs with
  | [] => None
  | AcceptFailed e :: rest =>
      if Z.pos e =? EAGAIN then
        if _nb_active_sockets d =? 0 then accept_loop rest d
        else Some (None, d, rest)
      else Some (Some (- Z.pos e), d, rest)
  | Accepted s :: rest =>
      let '(ret, d1) := _push_sock d s in
      if IS_ERR_VALUE ret then Some (Some ret, d1, rest)
      else accept_loop rest d1
  end.

Definition _get_next_socket (d : iio_desc) (e : env) : option (Z * iio_desc * env) :=
  match accept_loop (accepts e) d with
  | None => None
  | Some (Some err, d1, rest) => Some (err, d1, set_accepts rest e)
  | Some (None, d1, rest) =>
      let '(ret, d2) := _pop_sock d1 in
      if IS_ERR_VALUE ret then Some (ret, set_current Empty d2, set_accepts rest e)
      else Some (SUCCESS, d2, set_accepts rest e)
  end.

(** Bytes [bs] written at offset [off] of a buffer that is large enough. *)
Definition poke (data : list Z) (off : Z) (bs : list Z) : list Z :=
  firstn (Z.to_nat off) data ++ bs ++ skipn (Z.to_nat off + List.length bs) data.

(** The [do ... while (i < len)] loop of [network_read]; the result is
    the last [ret], [i], the buffer and the answers left. *)
Fixpoint recv_loop (rs : list recv_result) (data : list Z) (len i : Z)
  : option (Z * Z * list Z * list recv_result) :=
  match rs with
  | [] => None
  | RecvFailed e :: rest => Some (- Z.pos e, i, poke data 0 [42], rest)
  | Received bs :: rest =>
      let got := firstn (Z.to_nat (len - i)) bs in
      let data1 := poke data i got in
      let i1 := to_uint32 (i + zlength got) in
      if i1 <? len then recv_loop rest data1 len i1
      else Some (zlength got, i1, data1, rest)
  end.

(** [network_read(data, len)]; [data] is a buffer of at least [len]
    bytes, and of at least one. *)
Definition network_read (d : iio_desc) (e : env) (data : list Z) (len : Z)
  : option (Z * list Z * iio_desc * env) :=
  match current_sock d with
  | Dead => Some (-1, data, d, e)
  | cur =>
      match (match cur with
             | Empty => _get_next_socket d e
             | _ => Some (SUCCESS, d, e)
             end) with
      | None => None
      | Some (ret0, d1, e1) =>
          if IS_ERR_VALUE ret0 then Some (ret0, data, d1, e1)
          else
            match recv_loop (recvs e1) data len 0 with
            | None => None
            | Some (ret, i, data1, rest) =>
                let d2 := if ret =? - ENOTCONN
                          then set_current Dead (socket_remove_current d1)
                          else d1 in
                Some (to_int32 i, data1, d2, set_recvs rest e1)
            end
      end
  end.

Definition iio_phy_read (d : iio_desc) (e : env) (buf : list Z) (len : Z)
  : option (Z * list Z * iio_desc * env) :=
  match phy_type d with
  | USE_UART =>
      match uart_reads e with
      | [] => None
      | (ret, bytes) :: rest => Some (ret, poke buf 0 bytes, d, set_uart_reads rest e)
      end
  | USE_NETWORK => network_read d e buf len
  end.

(** Modelled from the spec: [tinyiiod_read_command] belongs to the
    external command interpreter, which serves exactly one command per
    dispatch step and reaches the transport only through the phy-level
    read.  A command is given by the lengths of the reads it issues, one
    after the other, each into a buffer of that length; a read that
    returns a negative value ends the command with that value. *)
Fixpoint read_requests (reads : list Z) (d : iio_desc) (e : env)
  : option (Z * iio_desc * env) :=
  match reads with
  | [] => Some (SUCCESS, d, e)
  | n :: rest =>
      match iio_phy_read d e (repeat 0 (Z.to_nat (Z.max n 1))) n with
      | None => None
      | Some (r, _, d1, e1) =>
          if r <? 0 then Some (r, d1, e1) else read_requests rest d1 e1
      end
  end.

Definition tinyiiod_read_command (reads : list Z) (d : iio_desc) (e : env)
  : option (Z * iio_desc * env) :=
  read_requests reads (count_command d) e.

Definition iio_step (d : iio_desc) (e : env) (reads : list Z)
  : option (Z * iio_desc * env) :=
  match current_sock d with
  | Active h =>
      let '(ret, d1) := _push_sock d h in
      if IS_ERR_VALUE ret then Some (ret, d1, e)
      else tinyiiod_read_command reads (set_current Empty d1) e
  | _ => tinyiiod_read_command reads (set_current Empty d) e
  end.

(** Dispatch steps one after the other; each step comes with the command
    it serves and with what the transport answers during it. *)
Fixpoint iio_steps (d : iio_desc) (steps : list (list Z * env)) : option iio_desc :=
  match steps with
  | [] => Some d
  | (reads, e) :: rest =>
      match iio_step d e reads with
      | None => None
      | Some (_, d1, _) => iio_steps d1 rest
      end
  end.

(** The descriptors a server gets to: the initial one, and what a
    dispatch step makes of one of them. *)
Inductive reachable (phy : pysical_link_type) : iio_desc -> Prop :=
| reachable_init : reachable phy (iio_init_desc phy)
| reachable_step d e reads ret d1 e1 :
    reachable phy d ->
    iio_step d e reads = Some (ret, d1, e1) ->
    reachable phy d1.

(** The queue has room for the connection in the slot. *)
Definition queue_room (d : iio_desc) : Prop :=
  match current_sock d with
  | Active _ => (List.length (sockets d) < MAX_SOCKET_TO_HANDLE)%nat
  | _ => (List.length (sockets d) <= MAX_SOCKET_TO_HANDLE)%nat
  end.

(** A connection that is neither queued nor current, and a transport
    that does not hand it out. *)
Definition absent (h : sock) (d : iio_desc) : Prop :=
  ~ In h (sockets d) /\ current_sock d <> Active h.

Definition never_accepts (h : sock) (e : env) : Prop :=
  ~ In (Accepted h) (accepts e).

(** The bytes of successive receptions, their number, and the buffer
    once they are stored one after the other from offset [i] on. *)
Definition total_length (oks : list (list Z)) : Z :=
  fold_right (fun bs acc => zlength bs + acc) 0 oks.

Fixpoint received (data : list Z) (i : Z) (oks : list (list Z)) : list Z :=
  match oks with
  | [] => data
  | bs :: more => received (poke data i bs) (i + zlength bs) more
  end.

(** A transport on which no reception fails with [ENOTCONN]. *)
Definition no_disconnect (e : env) : Prop := ~ In disconnected (recvs e).

(** A step during which nobody connects and nobody disconnects, and whose
    command reads something. *)
Definition quiet (st : list Z * env) : Prop :=
  fst st <> [] /\
  (exists rest, accepts (snd st) = would_block :: rest) /\
  no_disconnect (snd st).

(** A step in which each read of the command is answered at once by as
    many bytes as it asks for. *)
Definition answered (st : list Z * env) : Prop :=
  Forall2 (fun n r => 0 <= n < 2 ^ 31 /\ exists bs, r = Received bs /\ n <= zlength bs)
          (fst st) (recvs (snd st)).

End Multiplexer.

(* ------------------------------------------------------------------ *)
(** ** A small device, used in the examples *)

Module Sample.

(** A device instance that is a single number. *)
Definition dev : Type := Z.

(** The text of a decimal digit followed by its terminator, as a show
    handler leaves it in its output array. *)
Definition put_text (text : list Z) (out : list Z) : list Z :=
  text ++ [0] ++ skipn (List.length text + 1) out.

(** An attribute whose show handler prints [text] and returns its length
    and whose store handler adds the length it is given to the device. *)
Definition text_attribute (nm : string) (text : list Z) : iio_attribute dev :=
  {| attr_name := nm;
     show := fun d out _ _ => (zlength text, put_text text out, d);
     store := fun d _ len _ => (len, d + len) |}.

(** An attribute whose show handler fails with [-EINVAL]. *)
Definition failing_attribute (nm : string) : iio_attribute dev :=
  {| attr_name := nm;
     show := fun d out _ _ => (- EINVAL, out, d);
     store := fun d _ _ _ => (- EINVAL, d) |}.

Definition raw : iio_attribute dev := text_attribute "raw" [52; 50].
Definition scale : iio_attribute dev := text_attribute "scale" [49].

Definition voltage (n : string) (out : bool) : iio_channel dev :=
  {| ch_name := String.append "voltage" n; ch_out := out;
     ch_attributes := Some [raw; scale] |}.

Definition adc : iio_device dev :=
  {| num_ch := 4;
     channels := Some [voltage "0" false; voltage "1" false;
                       voltage "2" false; voltage "3" false];
     attributes := Some [text_attribute "sampling_frequency" [56; 48; 48; 48]] |}.

Definition no_channels : iio_device dev :=
  {| num_ch := 0; channels := Some []; attributes := Some [] |}.

Definition transfer (d : dev) (bytes_count mask : Z) : Z * dev :=
  (bytes_count, d + mask).

Definition interface (nm : string) (device : iio_device dev) (with_transfer : bool)
  : iio_interface dev :=
  {| name := nm; dev_instance := 0; iio := Some device; ch_mask := 0;
     transfer_dev_to_mem := if with_transfer then Some transfer else None;
     read_data := None;
     transfer_mem_to_dev := if with_transfer then Some transfer else None;
     write_data := None;
     get_xml := Some (fun _ => (0, nm)) |}.

Definition world_of (r : registry dev) : world dev :=
  {| iio_interfaces := r; devices := fun _ => 0; stack := repeat 255 256; calls := [] |}.

Definition A : iio_interface dev := interface "A" adc true.
Definition B : iio_interface dev := interface "B" adc false.
Definition C : iio_interface dev := interface "C" no_channels false.

(** A caller's buffer of [n] bytes [fill] at address [addr]. *)
Definition buffer_at (addr : Z) (fill : Z) (n : nat) : buffer :=
  {| buf_addr := addr; buf_bytes := repeat fill n |}.

(** The registrations of A and of B, one after the other. *)
Definition after_two_registrations : outcome (Z * world dev) :=
  ' (_, w1) <- iio_register true true A (world_of RegNull);;
  iio_register true true B w1.

(** A request for the aggregate write of one attribute, declaring a
    value of two bytes, and the line buffer of the command interpreter. *)
Definition request : buffer :=
  {| buf_addr := 536870912; buf_bytes := [0; 0; 0; 2; 52; 50; 0; 0] |}.

Definition line : buffer := buffer_at 536870912 0 16.

(** Three attributes, the second of which fails. *)
Definition three : list (iio_attribute dev) := [raw; failing_attribute "gain"; scale].

End Sample.

(** ** A small server, used in the examples *)

Module SampleServer.
Import Multiplexer.

(** A full queue with a fifth connection in the slot. *)
Definition full : iio_desc :=
  {| phy_type := USE_NETWORK; sockets := [1; 2; 3; 4]%nat; current_sock := Active 5%nat;
     removed := []; commands := 7 |}.

Definition silent : env := {| accepts := []; recvs := []; uart_reads := [] |}.

(** The first client of a server: it connects and sends one byte. *)
Definition first_client : env :=
  {| accepts := [Accepted 1; would_block]; recvs := [Received [80]]; uart_reads := [] |}.

Definition serving_first : iio_desc :=
  {| phy_type := USE_NETWORK; sockets := []; current_sock := Active 1%nat;
     removed := []; commands := 1 |}.

(** Two clients, a step of one byte without anybody coming or going,
    and a transport on which the peer resets after two bytes. *)
Definition two_clients : iio_desc :=
  {| phy_type := USE_NETWORK; sockets := [2%nat]; current_sock := Active 1%nat;
     removed := []; commands := 0 |}.

Definition one_byte : list Z * env :=
  ([1], {| accepts := [would_block]; recvs := [Received [80]]; uart_reads := [] |}).

Definition reset_by_peer : env :=
  {| accepts := []; recvs := [Received [80; 82]; disconnected; Received [73]];
     uart_reads := [] |}.

(** The two clients at the start of a step, both queued and the slot
    empty, and the same reset on a transport where nobody else is
    waiting. *)
Definition two_waiting : iio_desc :=
  {| phy_type := USE_NETWORK; sockets := [1; 2]%nat; current_sock := Empty;
     removed := []; commands := 0 |}.

Definition reset_on_first_read : env :=
  {| accepts := [would_block]; recvs := [Received [80; 82]; disconnected; Received [73]];
     uart_reads := [] |}.

End SampleServer.


(** ** Predicates used to state the behaviour of the dispatcher *)

(** The channels of a list that a name and a direction do not select. *)
Definition channel_absent {Dev : Type} (channel : string) (out : bool)
    (chans : list (iio_channel Dev)) : Prop :=
  forall c, In c chans ->
    String.eqb channel (ch_name c) && Bool.eqb (ch_out c) out = false.

(** A world that differs from another at most in the device instance
    [p], in the stack and in calls recorded since. *)
Definition touches_only {Dev : Type} (p : nat) (w w' : world Dev) : Prop :=
  iio_interfaces w' = iio_interfaces w /\
  (forall q, q <> p -> devices w' q = devices w q) /\
  exists cs, calls w' = calls w ++ cs.

(** ** A device with bulk callbacks, used in the examples *)

Module SampleBulk.
Import Sample.

(** A [read_data] callback that hands out [count] copies of the device
    state and advances it by one. *)
Definition reader (d : dev) (pbuf : list Z) (offset count mask : Z) : Z * list Z * dev :=
  (count, firstn (Z.to_nat count) (repeat d 8), d + 1).

(** The converter of the examples as device instance 3, with the two
    callbacks of the capture path. *)
Definition R : iio_interface dev :=
  {| name := "R"; dev_instance := 3; iio := Some adc; ch_mask := 0;
     transfer_dev_to_mem := Some transfer;
     read_data := Some reader;
     transfer_mem_to_dev := None; write_data := None;
     get_xml := Some (fun _ => (0, "R"%string)) |}.

(** A [write_data] callback that adds the bytes it is given to the
    device state. *)
Definition writer (d : dev) (buf : list Z) (offset count mask : Z) : Z * dev :=
  (count, d + fold_right Z.add 0 buf).

(** The converter as device instance 4, with the two callbacks of the
    playback path. *)
Definition W : iio_interface dev :=
  {| name := "W"; dev_instance := 4; iio := Some adc; ch_mask := 0;
     transfer_dev_to_mem := None; read_data := None;
     transfer_mem_to_dev := Some transfer; write_data := Some writer;
     get_xml := None |}.

(** A second interface that announces itself under the name of [A]. *)
Definition A' : iio_interface dev := interface "A" no_channels false.

End SampleBulk.

(** ** Turns of the connections a server holds *)

Module Turns.
Import Multiplexer.

(** The connections a descriptor holds: the one in the slot, if any,
    then the queue, oldest first. *)
Definition held (d : iio_desc) : list sock :=
  match current_sock d with
  | Active h => h :: sockets d
  | _ => sockets d
  end.

(** A list whose head has moved to the end, once and [k] times. *)
Definition rotate1 {A} (l : list A) : list A :=
  match l with
  | [] => []
  | x :: r => r ++ [x]
  end.

Fixpoint rotate {A} (k : nat) (l : list A) : list A :=
  match k with
  | O => l
  | S k' => rotate k' (rotate1 l)
  end.

End Turns.

(** ** More servers, used in the examples *)

Module SampleLinks.
Import Multiplexer.

(** A serial line that delivers one byte. *)
Definition serial_line : env :=
  {| accepts := []; recvs := []; uart_reads := [(1, [80])] |}.

Definition serial_after_one_command : iio_desc :=
  {| phy_type := USE_UART; sockets := []; current_sock := Empty;
     removed := []; commands := 1 |}.

(** Three clients, the first being served. *)
Definition three_clients : iio_desc :=
  {| phy_type := USE_NETWORK; sockets := [2; 3]%nat; current_sock := Active 1%nat;
     removed := []; commands := 0 |}.

(** The same server three commands later. *)
Definition three_clients_later : iio_desc :=
  {| phy_type := USE_NETWORK; sockets := [2; 3]%nat; current_sock := Active 1%nat;
     removed := []; commands := 3 |}.

(** Four clients, and a transport on which a fifth one is waiting. *)
Definition four_clients : iio_desc :=
  {| phy_type := USE_NETWORK; sockets := [2; 3; 4]%nat; current_sock := Active 1%nat;
     removed := []; commands := 0 |}.

Definition fifth_waiting : env :=
  {| accepts := [Accepted 5; would_block]; recvs := [Received [80]]; uart_reads := [] |}.

(** A transport on which nobody is waiting at first, then two clients
    are, and one on which five bytes arrive in two pieces. *)
Definition late_arrivals : env :=
  {| accepts := [would_block; would_block; Accepted 7; Accepted 8; would_block;
                 Accepted 9];
     recvs := []; uart_reads := [] |}.

Definition in_pieces : env :=
  {| accepts := []; recvs := [Received [80; 82]; Received [73; 78; 84; 10]; Received [33]];
     uart_reads := [] |}.

End SampleLinks.

(* ------------------------------------------------------------------ *)
(** ** The context description ([iio_get_xml]) *)

Module Xml.

(** The double quote, which the header holds escaped. *)
Definition dq : string := String (ascii_of_nat 34) EmptyString.

(** A string literal of the C source, given by its pieces between the
    places where it has an escaped double quote. *)
Fixpoint quoted (pieces : list string) : string :=
  match pieces with
  | [] => EmptyString
  | [p] => p
  | p :: rest => String.append p (String.append dq (quoted rest))
  end.

(** [header] and [header_end], the two arrays of [iio_get_xml]. *)
Definition header : string :=
  (String.concat EmptyString [
    quoted ["<?xml version="; "1.0"; " encoding="; "utf-8"; "?>"];
    "<!DOCTYPE context [";
    "<!ELEMENT context (device | context-attribute)*>";
    "<!ELEMENT context-attribute EMPTY>";
    "<!ELEMENT device (channel | attribute | debug-attribute | buffer-attribute)*>";
    "<!ELEMENT channel (scan-element?, attribute*)>";
    "<!ELEMENT attribute EMPTY>";
    "<!ELEMENT scan-element EMPTY>";
    "<!ELEMENT debug-attribute EMPTY>";
    "<!ELEMENT buffer-attribute EMPTY>";
    "<!ATTLIST context name CDATA #REQUIRED description CDATA #IMPLIED>";
    "<!ATTLIST context-attribute name CDATA #REQUIRED value CDATA #REQUIRED>";
    "<!ATTLIST device id CDATA #REQUIRED name CDATA #IMPLIED>";
    "<!ATTLIST channel id CDATA #REQUIRED type (input|output) #REQUIRED name CDATA #IMPLIED>";
    "<!ATTLIST scan-element index CDATA #REQUIRED format CDATA #REQUIRED scale CDATA #IMPLIED>";
    "<!ATTLIST attribute name CDATA #REQUIRED filename CDATA #IMPLIED>";
    "<!ATTLIST debug-attribute name CDATA #REQUIRED>";
    "<!ATTLIST buffer-attribute name CDATA #REQUIRED>";
    "]>";
    quoted ["<context name="; "xml"; " description=";
            "no-OS analog 1.1.0-g0000000 #1 Tue Nov 26 09:52:32 IST 2019 armv7l"; " >"];
    quoted ["<context-attribute name="; "no-OS"; " value="; "1.1.0-g0000000"; " />"]
  ])%string.

Definition header_end : string := "</context>"%string.

Section GetXml.
Context {Dev : Type}.

(** Whether the [k]-th allocation request of a call succeeds: request 0
    is the [calloc], request [i + 1] the [realloc] for interface [i], the
    last one the [realloc] for [header_end]. *)
Variable alloc : nat -> bool.

(** The [for] loop of [iio_get_xml]; [None] is the jump to [error].  The
    [get_xml] callback of an interface is called without a test for
    NULL; it is given the descriptor of the interface. *)
Fixpoint xml_loop (l : list (iio_interface Dev)) (k : nat) (xml : string)
  : outcome (option string) :=
  match l with
  | [] => Ret (Some xml)
  | i :: rest =>
      callback <- deref (get_xml i);;
      let '(ret, tmp_xml) := callback (iio i) in
      if ret <? 0 then Ret None
      else if negb (alloc k) then Ret None
      else xml_loop rest (S k) (String.append xml tmp_xml)
  end.

(** What the callback of an interface answers: the value it returns and
    the text it hands out (for an interface that has the callback). *)
Definition fragment (i : iio_interface Dev) : Z * string :=
  match get_xml i with
  | Some callback => callback (iio i)
  | None => (FAILURE, EmptyString)
  end.

(** The end of [iio_get_xml] once the loop over [n] interfaces is done. *)
Definition xml_end (outxml : option (option string)) (n : nat) (built : option string)
  : outcome (Z * option (option string)) :=
  match built with
  | None => Ret (FAILURE, outxml)
  | Some xml =>
      if negb (alloc (S n)) then Ret (FAILURE, outxml)
      else Ret (SUCCESS, Some (Some (String.append xml header_end)))
  end.

(** [iio_get_xml(outxml)].  [outxml] is [None] for a NULL argument and
    otherwise what the caller's pointer holds; the second component of
    the result is what it holds afterwards. *)
Definition iio_get_xml (outxml : option (option string)) (r : registry Dev)
  : outcome (Z * option (option string)) :=
  match outxml with
  | None => Ret (FAILURE, outxml)
  | Some _ =>
      if negb (alloc 0) then Ret (FAILURE, outxml)
      else
        match r with
        | RegNull => Undef NullDereference
        | RegInvalid => Undef UseAfterFree
        | RegLive l =>
            built <- xml_loop l 1 header;;
            xml_end outxml (List.length l) built
        | RegEmptied => xml_end outxml 0 (Some header)
        end
  end.

End GetXml.

End Xml.

(* ------------------------------------------------------------------ *)
(** ** Bringing the server up ([iio_init]) *)

Module Init.
Import Multiplexer.

(** What [iio_init] acquires on its way. *)
Inductive resource : Type :=
| OpsMemory          (* the [struct tinyiiod_ops] *)
| DescMemory         (* the [struct iio_desc] *)
| UartDescriptor     (* what [uart_init] made *)
| ServerSocket       (* what [socket_init] made *)
| SocketQueue        (* the circular buffer of [cb_init] *)
| InterfacesList     (* the list of [list_init] *)
| Iiod.              (* the interpreter of [tinyiiod_create] *)

Definition resource_eqb (a b : resource) : bool :=
  match a, b with
  | OpsMemory, OpsMemory | DescMemory, DescMemory | UartDescriptor, UartDescriptor
  | ServerSocket, ServerSocket | SocketQueue, SocketQueue
  | InterfacesList, InterfacesList | Iiod, Iiod => true
  | _, _ => false
  end.

(** Modelled from the spec: [struct iio_init_param] of [iio.h], which is
    not among the sources, as far as [iio_init] reads it: the link type,
    [None] standing for a value that is neither of the two. *)
Record iio_init_param : Type := { ip_phy_type : option pysical_link_type }.

(** Modelled from the spec: the allocator and the initialisers of the
    transport, of the list and of the interpreter are external to
    [iio.c].  Each is given by what it answers; one that fails has
    acquired nothing and leaves its output pointer as it was. *)
Record answers : Type := {
  ops_calloc : bool;
  desc_calloc : bool;
  uart_init : Z;
  socket_init : Z;
  socket_bind : Z;
  socket_listen : Z;
  cb_init : Z;
  list_init : Z;
  tinyiiod_create : bool
}.

(** The resources held, most recent first.  Giving back one that is not
    held is an error of its own ([None]). *)
Definition release (r : resource) (held : list resource) : option (list resource) :=
  if existsb (resource_eqb r) held
  then Some (filter (fun x => negb (resource_eqb r x)) held)
  else None.

Definition and_then (m : option (list resource))
    (k : list resource -> option (list resource)) : option (list resource) :=
  match m with
  | Some h => k h
  | None => None
  end.

(** The labels at the end of [iio_init], each falling through to the
    next.  [sockets_set] tells whether [ldesc->sockets] is not NULL. *)
Definition free_ops (held : list resource) : option (list resource) :=
  release OpsMemory held.

Definition free_desc (held : list resource) : option (list resource) :=
  and_then (release DescMemory held) free_ops.

Definition free_pylink (phy : pysical_link_type) (sockets_set : bool)
    (held : list resource) : option (list resource) :=
  match phy with
  | USE_UART => and_then (release UartDescriptor held) free_desc
  | USE_NETWORK =>
      and_then (release ServerSocket held) (fun h =>
        if sockets_set then and_then (release SocketQueue h) free_desc
        else free_desc h)
  end.

Definition free_list (phy : pysical_link_type) (sockets_set : bool)
    (held : list resource) : option (list resource) :=
  and_then (release InterfacesList held) (free_pylink phy sockets_set).

(** The end of [iio_init] once the link is up: the list, the
    interpreter, and the descriptor handed out. *)
Definition finish (phy : pysical_link_type) (sockets_set : bool) (a : answers)
    (held : list resource) : Z * option iio_desc * option (list resource) :=
  if IS_ERR_VALUE (list_init a) then (FAILURE, None, free_pylink phy sockets_set held)
  else
    let held1 := InterfacesList :: held in
    if negb (tinyiiod_create a) then (FAILURE, None, free_list phy sockets_set held1)
    else (SUCCESS, Some (iio_init_desc phy), Some (Iiod :: held1)).

(** [iio_init(desc, init_param)]: the result, what the caller's [*desc]
    is set to, if it is, and the resources held at the return. *)
Definition iio_init (init_param : option iio_init_param) (a : answers)
  : Z * option iio_desc * option (list resource) :=
  match init_param with
  | None => (- EINVAL, None, Some [])
  | Some p =>
      if negb (ops_calloc a) then (FAILURE, None, Some [])
      else
        let h1 := [OpsMemory] in
        if negb (desc_calloc a) then (FAILURE, None, free_ops h1)
        else
          let h2 := DescMemory :: h1 in
          match ip_phy_type p with
          | Some USE_UART =>
              if IS_ERR_VALUE (uart_init a) then (FAILURE, None, free_desc h2)
              else finish USE_UART false a (UartDescriptor :: h2)
          | Some USE_NETWORK =>
              if IS_ERR_VALUE (socket_init a) then (FAILURE, None, free_desc h2)
              else
                let h3 := ServerSocket :: h2 in
                if IS_ERR_VALUE (socket_bind a)
                then (FAILURE, None, free_pylink USE_NETWORK false h3)
                else if IS_ERR_VALUE (socket_listen a)
                then (FAILURE, None, free_pylink USE_NETWORK false h3)
                else if IS_ERR_VALUE (cb_init a)
                then (FAILURE, None, free_pylink USE_NETWORK false h3)
                else finish USE_NETWORK true a (SocketQueue :: h3)
          | None => (FAILURE, None, free_desc h2)
          end
  end.

(** What a server that is up holds on a link, most recent first. *)
Definition held_when_up (phy : pysical_link_type) : list resource :=
  match phy with
  | USE_UART => [Iiod; InterfacesList; UartDescriptor; DescMemory; OpsMemory]
  | USE_NETWORK =>
      [Iiod; InterfacesList; SocketQueue; ServerSocket; DescMemory; OpsMemory]
  end.

(** The answers with which nothing fails on a link. *)
Definition all_succeed (phy : pysical_link_type) (a : answers) : bool :=
  ops_calloc a && desc_calloc a &&
  match phy with
  | USE_UART => negb (IS_ERR_VALUE (uart_init a))
  | USE_NETWORK =>
      negb (IS_ERR_VALUE (socket_init a)) && negb (IS_ERR_VALUE (socket_bind a)) &&
      negb (IS_ERR_VALUE (socket_listen a)) && negb (IS_ERR_VALUE (cb_init a))
  end &&
  negb (IS_ERR_VALUE (list_init a)) && tinyiiod_create a.

End Init.
(* ================================================================== *)
(** * Properties *)

(* ------------------------------------------------------------------ *)
(** ** Channel numbers *)

Module ChannelNumberFacts.
Import ChannelNumber.

Lemma strtol_digits_length p : forall acc,
  (String.length (snd (strtol_digits p acc)) <= String.length p)%nat.
Proof.
  induction p as [|c r IH]; intros acc; simpl; [lia|].
  destruct (isdigit c); simpl; [specialize (IH (acc * 10 + digit_value c)); lia | lia].
Qed.

Lemma strtol_advances c r :
  isdigit c = true ->
  (String.length (snd (strtol (String c r))) < String.length (String c r))%nat.
Proof.
  intros Hc. unfold strtol. cbn [strtol_digits]. rewrite Hc.
  pose proof (strtol_digits_length r (0 * 10 + digit_value c)) as H.
  destruct (strtol_digits r (0 * 10 + digit_value c)) as [v rest].
  cbn [snd String.length] in *. lia.
Qed.

Lemma scan_nodigit c r ch : isdigit c = false -> scan (String c r) ch = scan r ch.
Proof.
  intros H. simp scan.
  generalize (inspect (isdigit c)). intros [b Hb].
  destruct b; [congruence|]. simp scan. reflexivity.
Qed.

Lemma scan_digit c r ch : isdigit c = true ->
  scan (String c r) ch = scan (snd (strtol (String c r))) (to_int32 (fst (strtol (String c r)))).
Proof.
  intros H. simp scan.
  generalize (inspect (isdigit c)). intros [b Hb].
  destruct b; [|congruence]. simp scan. reflexivity.
Qed.

Section WhileLemmas.
Context {A : Type} (f : A -> bool).

Lemma drop_while_app_some (l1 l2 : list A) :
  existsb (fun x => negb (f x)) l1 = true ->
  drop_while f (l1 ++ l2) = drop_while f l1 ++ l2.
Proof.
  induction l1 as [|x l1 IH]; simpl; [discriminate|].
  destruct (f x); simpl; auto.
Qed.

Lemma drop_while_app_all (l1 l2 : list A) :
  forallb f l1 = true -> drop_while f (l1 ++ l2) = drop_while f l2.
Proof.
  induction l1 as [|x l1 IH]; simpl; [reflexivity|].
  destruct (f x); simpl; [auto | discriminate].
Qed.

Lemma take_while_app_some (l1 l2 : list A) :
  existsb (fun x => negb (f x)) l1 = true ->
  take_while f (l1 ++ l2) = take_while f l1.
Proof.
  induction l1 as [|x l1 IH]; simpl; [discriminate|].
  destruct (f x); simpl; [intros H; f_equal; auto | reflexivity].
Qed.

Lemma take_while_app_all (l1 l2 : list A) :
  forallb f l1 = true -> take_while f (l1 ++ l2) = l1 ++ take_while f l2.
Proof.
  induction l1 as [|x l1 IH]; simpl; [reflexivity|].
  destruct (f x); simpl; [intros H; f_equal; auto | discriminate].
Qed.

End WhileLemmas.

Lemma last_digit_run_eq s : last_digit_run s = run_of (list_ascii_of_string s).
Proof. reflexivity. Qed.

Lemma existsb_rev {A} (g : A -> bool) l : existsb g (rev l) = existsb g l.
Proof.
  induction l as [|x l IH]; simpl; [reflexivity|].
  rewrite existsb_app, IH. simpl. rewrite orb_false_r. apply orb_comm.
Qed.

Lemma forallb_rev {A} (g : A -> bool) l : forallb g (rev l) = forallb g l.
Proof.
  induction l as [|x l IH]; simpl; [reflexivity|].
  rewrite forallb_app, IH. simpl. rewrite andb_true_r. apply andb_comm.
Qed.

Lemma existsb_negb_forallb {A} (g : A -> bool) l :
  existsb (fun x => negb (g x)) l = negb (forallb g l).
Proof.
  induction l as [|x l IH]; simpl; [reflexivity|].
  rewrite IH. destruct (g x); reflexivity.
Qed.

Lemma existsb_not_nondigit l :
  existsb (fun x => negb (nondigit x)) l = existsb isdigit l.
Proof.
  induction l as [|x l IH]; simpl; [reflexivity|].
  rewrite IH. unfold nondigit. now rewrite negb_involutive.
Qed.

(* no digit at all: the run is empty *)
Lemma run_of_nodigit l : existsb isdigit l = false -> run_of l = [].
Proof.
  intros H. unfold run_of.
  replace (rev l) with (rev l ++ []) by apply app_nil_r.
  rewrite drop_while_app_all; [reflexivity|].
  rewrite forallb_rev.
  assert (E : existsb (fun x => negb (nondigit x)) l = false)
    by now rewrite existsb_not_nondigit.
  rewrite existsb_negb_forallb in E. apply negb_false_iff in E. exact E.
Qed.

(* a leading character that is not a digit does not change the last run *)
Lemma run_of_skip c l : isdigit c = false -> run_of (c :: l) = run_of l.
Proof.
  intros Hc. destruct (existsb isdigit l) eqn:Hl.
  - unfold run_of. simpl rev.
    rewrite drop_while_app_some.
    2:{ now rewrite existsb_rev, existsb_not_nondigit. }
    destruct (forallb isdigit (drop_while nondigit (rev l))) eqn:Hall.
    + rewrite take_while_app_all by exact Hall. simpl. rewrite Hc.
      rewrite app_nil_r.
      replace (drop_while nondigit (rev l)) with (drop_while nondigit (rev l) ++ []) at 2 by apply app_nil_r.
      rewrite take_while_app_all by exact Hall. simpl. now rewrite app_nil_r.
    + rewrite take_while_app_some; [reflexivity|].
      rewrite existsb_negb_forallb, Hall. reflexivity.
  - rewrite (run_of_nodigit l Hl). apply run_of_nodigit. simpl. now rewrite Hc, Hl.
Qed.

Lemma strtol_digits_spec p : forall acc,
  exists run p',
    strtol_digits p acc = (fold_left step run acc, p') /\
    list_ascii_of_string p = run ++ list_ascii_of_string p' /\
    forallb isdigit run = true /\
    match p' with String y _ => isdigit y = false | EmptyString => True end.
Proof.
  induction p as [|c r IH]; intros acc.
  - exists [], EmptyString. simpl. auto.
  - simpl. destruct (isdigit c) eqn:Hc.
    + destruct (IH (acc * 10 + digit_value c)) as (run & p' & E & L & D & N).
      exists (c :: run), p'. simpl. rewrite Hc, E, L. auto.
    + exists [], (String c r). simpl. auto.
Qed.

Lemma drop_while_nondigit_digits l :
  forallb isdigit l = true -> drop_while nondigit l = l.
Proof.
  destruct l as [|x l]; simpl; [reflexivity|].
  unfold nondigit. destruct (isdigit x); simpl; [reflexivity | discriminate].
Qed.

Lemma run_of_digits_then (run l2 : list ascii) :
  forallb isdigit run = true ->
  existsb isdigit l2 = false ->
  run_of (run ++ l2) = run.
Proof.
  intros Hr H2. unfold run_of. rewrite rev_app_distr.
  rewrite drop_while_app_all.
  2:{ rewrite forallb_rev.
      pose proof (existsb_negb_forallb nondigit l2) as E.
      rewrite existsb_not_nondigit, H2 in E. now destruct (forallb nondigit l2). }
  rewrite drop_while_nondigit_digits by now rewrite forallb_rev.
  replace (rev run) with (rev run ++ []) by apply app_nil_r.
  rewrite take_while_app_all by now rewrite forallb_rev.
  simpl. rewrite app_nil_r. apply rev_involutive.
Qed.

Lemma run_of_later (l1 : list ascii) y t :
  isdigit y = false ->
  existsb isdigit t = true ->
  run_of (l1 ++ y :: t) = run_of (y :: t).
Proof.
  intros Hy Ht. unfold run_of. rewrite rev_app_distr. simpl rev.
  assert (Hd : existsb (fun x => negb (nondigit x)) (rev t) = true)
    by now rewrite existsb_not_nondigit, existsb_rev.
  rewrite <- app_assoc.
  rewrite (drop_while_app_some nondigit (rev t) _ Hd).
  rewrite (drop_while_app_some nondigit (rev t) _ Hd).
  rewrite app_assoc.
  rewrite take_while_app_some; [reflexivity|].
  rewrite existsb_app. simpl. rewrite Hy. simpl. apply orb_true_r.
Qed.

Lemma fold_step_nonneg run : forall acc,
  forallb isdigit run = true -> 0 <= acc -> 0 <= fold_left step run acc.
Proof.
  induction run as [|c run IH]; intros acc Hr Ha; simpl in *; [exact Ha|].
  apply andb_true_iff in Hr. destruct Hr as [Hc Hr].
  apply IH; [exact Hr|]. unfold step, digit_value.
  unfold isdigit in Hc. apply andb_true_iff in Hc. destruct Hc as [Hlo _].
  apply Nat.leb_le in Hlo. lia.
Qed.

Lemma to_int32_small v : 0 <= v -> to_int32 (Z.min v LONG_MAX) = Z.min v LONG_MAX.
Proof.
  intros Hv. unfold to_int32, wrap_signed, LONG_MAX.
  assert (H : 0 <= Z.min v (2 ^ 31 - 1) < 2 ^ 31) by lia.
  rewrite Z.mod_small by lia.
  replace (32 - 1) with 31 by lia.
  destruct (Z.ltb_spec (Z.min v (2 ^ 31 - 1)) (2 ^ 31)); lia.
Qed.

Lemma scan_spec : forall n p ch,
  (String.length p <= n)%nat ->
  scan p ch = run_value ch (last_digit_run p).
Proof.
  induction n as [|n IH]; intros p ch Hn.
  - destruct p; [reflexivity | simpl in Hn; lia].
  - destruct p as [|c r]; [reflexivity|].
    destruct (isdigit c) eqn:Hc.
    + rewrite (scan_digit c r ch Hc).
      pose proof (strtol_advances c r Hc) as Hadv.
      unfold strtol in *.
      destruct (strtol_digits_spec (String c r) 0) as (run & p' & E & L & D & N).
      rewrite E in *. cbn [fst snd] in *.
      rewrite IH by (simpl in Hn, Hadv |- *; lia).
      rewrite !last_digit_run_eq.
      rewrite L.
      assert (Hrun : run <> []).
      { intros ->. rewrite app_nil_l in L.
        assert (String.length (String c r) = String.length p') as El.
        { f_equal. rewrite <- (string_of_list_ascii_of_string (String c r)), L.
          apply string_of_list_ascii_of_string. }
        lia. }
      rewrite to_int32_small by (apply fold_step_nonneg; [exact D | lia]).
      destruct p' as [|y t].
      * simpl list_ascii_of_string. rewrite app_nil_r.
        rewrite <- (app_nil_r run) at 2. rewrite run_of_digits_then by auto.
        unfold run_of. simpl. destruct run; [congruence | reflexivity].
      * simpl list_ascii_of_string.
        destruct (existsb isdigit (list_ascii_of_string t)) eqn:Ht.
        -- rewrite run_of_later by auto.
           destruct (run_of (y :: list_ascii_of_string t)) eqn:Er; [|reflexivity].
           exfalso. rewrite run_of_skip in Er by exact N.
           revert Er. unfold run_of.
           assert (Hd : existsb (fun x => negb (nondigit x)) (rev (list_ascii_of_string t)) = true)
             by now rewrite existsb_not_nondigit, existsb_rev.
           clear - Hd. induction (rev (list_ascii_of_string t)) as [|x l IHl]; simpl in *; [discriminate|].
           unfold nondigit in *. destruct (isdigit x) eqn:Hx; simpl in *.
           ++ rewrite Hx. simpl. intros H. apply app_eq_nil in H. destruct H; discriminate.
           ++ auto.
        -- assert (Hno : existsb isdigit (y :: list_ascii_of_string t) = false)
             by (cbn [existsb]; now rewrite N, Ht).
           rewrite (run_of_digits_then run _ D Hno).
           rewrite (run_of_nodigit _ Hno).
           simpl. destruct run; [congruence | reflexivity].
    + rewrite (scan_nodigit c r ch Hc).
      rewrite IH by (simpl in Hn; lia).
      rewrite !last_digit_run_eq. simpl list_ascii_of_string.
      now rewrite run_of_skip.
Qed.

(** C6, as the code has it: the channel number of a name is the decimal
    value of the last contiguous run of digits in the name, capped at
    [LONG_MAX] (2^31-1, what [strtol] returns for a larger value), and
    a name without any digit yields the sentinel [FAILURE] (-1), not an
    error. *)
Theorem C6_channel_number_is_last_run (ch : string) :
  iio_get_channel_number ch =
  match last_digit_run ch with
  | [] => FAILURE
  | ds => Z.min (decimal_value ds) LONG_MAX
  end.
Proof.
  unfold iio_get_channel_number.
  rewrite (scan_spec (String.length ch) ch FAILURE (le_n _)).
  unfold run_value. destruct (last_digit_run ch); reflexivity.
Qed.

(** C6 fails as stated on a name whose last run of digits denotes more
    than a [long] holds: the run of "voltage4294967296" has the value
    4294967296, the channel number computed is 2147483647. *)
Lemma C6_counterexample_long_run :
  decimal_value (last_digit_run "voltage4294967296") = 4294967296 /\
  iio_get_channel_number "voltage4294967296" = 2147483647.
Proof. split; reflexivity. Qed.

Example channel_number_voltage2 : iio_get_channel_number "voltage2" = 2.
Proof. reflexivity. Qed.

Example channel_number_altvoltage10 : iio_get_channel_number "altvoltage10" = 10.
Proof. reflexivity. Qed.

Example channel_number_temp : iio_get_channel_number "temp" = FAILURE.
Proof. reflexivity. Qed.

(** A run in the middle of the name is overridden by a later one. *)
Example channel_number_two_runs : iio_get_channel_number "in12_ch3x" = 3.
Proof. reflexivity. Qed.

End ChannelNumberFacts.

(* ------------------------------------------------------------------ *)
(** ** The registry and the channel mask *)

Module RegistryFacts.
Import Sample.

Lemma valid_mask_ones n : 1 <= n <= 32 ->
  shr32 4294967295 (32 - n) = Ret (Z.ones n).
Proof.
  intros Hn. unfold shr32.
  replace ((0 <=? 32 - n) && (32 - n <? 32)) with true
    by (symmetry; apply andb_true_iff; split; [apply Z.leb_le | apply Z.ltb_lt]; lia).
  f_equal. change 4294967295 with (Z.ones 32).
  apply Z.bits_inj'. intros i Hi.
  rewrite Z.shiftr_spec by lia.
  rewrite !Z.testbit_ones_nonneg by lia.
  destruct (Z.ltb_spec (i + (32 - n)) 32), (Z.ltb_spec i n); lia || reflexivity.
Qed.

Lemma uint32_high_bits mask i : 0 <= mask < 2 ^ 32 -> 32 <= i -> Z.testbit mask i = false.
Proof.
  intros Hm Hi. rewrite <- (Z.mod_small mask (2 ^ 32)) by lia.
  apply Z.mod_pow2_bits_high. lia.
Qed.

Lemma mask_outside_bits n mask : 1 <= n <= 32 -> 0 <= mask < 2 ^ 32 ->
  Z.land mask (not32 (Z.ones n)) = 0 <-> (forall i, n <= i -> Z.testbit mask i = false).
Proof.
  intros Hn Hm. unfold not32. change 4294967295 with (Z.ones 32). split.
  - intros H i Hi.
    destruct (Z.lt_ge_cases i 32) as [Hlt|Hge]; [|now apply uint32_high_bits].
    assert (E : Z.testbit (Z.land mask (Z.lxor (Z.ones n) (Z.ones 32))) i = false)
      by (rewrite H; apply Z.bits_0).
    rewrite Z.land_spec, Z.lxor_spec, !Z.testbit_ones_nonneg in E by lia.
    destruct (Z.ltb_spec i n), (Z.ltb_spec i 32); try lia.
    simpl in E. now rewrite andb_true_r in E.
  - intros H. apply Z.bits_inj'. intros i Hi.
    rewrite Z.bits_0, Z.land_spec, Z.lxor_spec, !Z.testbit_ones_nonneg by lia.
    destruct (Z.ltb_spec i n), (Z.ltb_spec i 32); simpl;
      try (now rewrite andb_false_r); try lia.
    rewrite H by lia. reflexivity.
Qed.

Section RegistryFacts.
Context {Dev : Type}.
Implicit Types (w : world Dev) (l : list (iio_interface Dev)) (ifc : iio_interface Dev).

Lemma find_update_interface device (g : iio_interface Dev -> iio_interface Dev) l :
  (forall i, name (g i) = name i) ->
  find (fun i => String.eqb device (name i)) (update_interface device g l) =
  option_map g (find (fun i => String.eqb device (name i)) l).
Proof.
  intros Hg. induction l as [|x l IH]; simpl; [reflexivity|].
  destruct (String.eqb device (name x)) eqn:E; simpl.
  - now rewrite Hg, E.
  - now rewrite E.
Qed.

Lemma supported_live w l device ifc :
  iio_interfaces w = RegLive l ->
  find (fun i => String.eqb device (name i)) l = Some ifc ->
  iio_supported_dev device w = Ret true.
Proof. intros Hw Hf. unfold iio_supported_dev. rewrite Hw. simpl. now rewrite Hf. Qed.

(** C4, as the code has it: for a registered device with [n] channels,
    [1 <= n <= 32], and a 32-bit mask, [iio_open_dev] fails with [-ENOENT]
    (the code it shares with the not-found failures; [iio.c] has no
    invalid-argument code here) and leaves everything as it is when the
    mask has a bit set at an index of [n] or more; otherwise it returns
    [SUCCESS] and stores the mask in the interface, and [iio_get_mask]
    then returns exactly that mask. *)
Theorem C4_open_dev_checks_and_stores_mask w l device ifc dev sample_size mask :
  iio_interfaces w = RegLive l ->
  find (fun i => String.eqb device (name i)) l = Some ifc ->
  iio ifc = Some dev ->
  1 <= num_ch dev <= 32 ->
  0 <= mask < 2 ^ 32 ->
  ((exists i, num_ch dev <= i /\ Z.testbit mask i = true) ->
     iio_open_dev device sample_size mask w = Ret (- ENOENT, w)) /\
  ((forall i, num_ch dev <= i -> Z.testbit mask i = false) ->
     exists w',
       iio_open_dev device sample_size mask w = Ret (SUCCESS, w') /\
       iio_get_interface device (iio_interfaces w') = Ret (Some (set_ch_mask mask ifc)) /\
       forall m0, iio_get_mask device m0 w' = Ret (SUCCESS, mask)).
Proof.
  intros Hw Hf Hdev Hn Hm.
  assert (Hopen : iio_open_dev device sample_size mask w =
                  if negb (Z.land mask (not32 (Z.ones (num_ch dev))) =? 0)
                  then Ret (- ENOENT, w)
                  else Ret (SUCCESS, update_registry device (set_ch_mask mask) w)).
  { unfold iio_open_dev. rewrite (supported_live w l device ifc Hw Hf).
    cbn [bind negb]. rewrite Hw. cbn [iio_get_interface bind]. rewrite Hf.
    cbn [deref bind]. rewrite Hdev. cbn [deref bind].
    rewrite (valid_mask_ones _ Hn). reflexivity. }
  pose proof (mask_outside_bits (num_ch dev) mask Hn Hm) as Hbits.
  split.
  - intros (i & Hi & Hbit). rewrite Hopen.
    destruct (Z.eqb_spec (Z.land mask (not32 (Z.ones (num_ch dev)))) 0) as [E|E];
      [|reflexivity].
    rewrite (proj1 Hbits E i Hi) in Hbit. discriminate.
  - intros Hall. rewrite Hopen, (proj2 Hbits Hall). cbn [Z.eqb negb].
    eexists. split; [reflexivity|].
    assert (Hlook : iio_get_interface device
                      (iio_interfaces (update_registry device (set_ch_mask mask) w)) =
                    Ret (Some (set_ch_mask mask ifc))).
    { unfold update_registry. rewrite Hw. simpl.
      rewrite find_update_interface by reflexivity. now rewrite Hf. }
    split; [exact Hlook|].
    intros m0. unfold iio_get_mask, iio_supported_dev. rewrite Hlook. reflexivity.
Qed.

End RegistryFacts.

(** C4 at the sample device of four channels: mask 0x0F is accepted and
    read back. *)
Lemma C4_witness :
  exists w',
    iio_open_dev "A" 2 15 (world_of (RegLive [A; B])) = Ret (SUCCESS, w') /\
    iio_get_interface "A" (iio_interfaces w') = Ret (Some (set_ch_mask 15 A)) /\
    forall m0, iio_get_mask "A" m0 w' = Ret (SUCCESS, 15).
Proof.
  refine (proj2 (C4_open_dev_checks_and_stores_mask
            (world_of (RegLive [A; B])) [A; B] "A" A adc 2 15
            eq_refl eq_refl eq_refl _ _) _).
  - simpl. lia.
  - lia.
  - intros i Hi. simpl in Hi.
    destruct (Z.lt_ge_cases i 32); [|apply uint32_high_bits; lia].
    assert (Hc : i = 4 \/ i = 5 \/ i = 6 \/ i = 7 \/ 8 <= i) by lia.
    destruct Hc as [->|[->|[->|[->|Hc]]]]; try reflexivity.
    change 15 with (Z.ones 4). apply Z.ones_spec_high. lia.
Defined.

(** C4 fails as stated: on the sample device of four channels the mask
    0x1F is refused with [-ENOENT], which is not the invalid-argument code
    [-EINVAL]; and on a registered device without channels the shift that
    computes the valid range is by 32 bits, which C leaves undefined, so
    that not even the empty mask is known to be accepted. *)
Lemma C4_counterexample :
  (iio_open_dev "A" 2 31 (world_of (RegLive [A; B]))
     = Ret (- ENOENT, world_of (RegLive [A; B])) /\ - ENOENT <> - EINVAL) /\
  iio_open_dev "C" 2 0 (world_of (RegLive [C])) = Undef ShiftOutOfRange.
Proof. repeat split. unfold ENOENT, EINVAL. lia. Qed.

Example open_then_close :
  exists w1 w2,
    iio_open_dev "A" 2 15 (world_of (RegLive [A; B])) = Ret (SUCCESS, w1) /\
    iio_close_dev "A" w1 = Ret (SUCCESS, w2) /\
    iio_get_mask "A" 7 w2 = Ret (SUCCESS, 0).
Proof. do 2 eexists. repeat split. Qed.

Example register_A_B :
  after_two_registrations = Ret (SUCCESS, world_of (RegLive [A; B])).
Proof. reflexivity. Qed.

(** C3 fails on the code: [iio_unregister] on the registry of A and B
    returns [SUCCESS] for A and builds the array that holds B alone, but
    the global registry is left pointing at the structure it has freed,
    so that looking B up afterwards reads freed storage; and for C, which
    was never registered, the copy loop stores the last interface one
    element behind the end of the new array instead of failing with the
    registry unchanged. *)
Lemma C3_unregister_leaves_dangling_registry :
  iio_unregister true true A (world_of (RegLive [A; B])) =
    Ret (SUCCESS, world_of RegInvalid, [Some B]) /\
  iio_get_interface "B" (@RegInvalid dev) = Undef UseAfterFree /\
  iio_unregister true true C (world_of (RegLive [A; B])) = Undef OutOfBounds.
Proof. repeat split. Qed.

Section UnregisterFacts.
Context {Dev : Type}.

Lemma iio_unregister_never_installs (x : iio_interface Dev) (w : world Dev) l r w' arr :
  iio_interfaces w = RegLive l ->
  iio_unregister true true x w = Ret (r, w', arr) ->
  iio_interfaces w' = RegInvalid.
Proof.
  intros Hw. unfold iio_unregister. simpl. rewrite Hw.
  destruct (unregister_loop _ _ _ _ _) as [[d a]|u]; simpl; [|discriminate].
  intros H. injection H as _ <- _. reflexivity.
Qed.

Lemma unregister_loop_no_match nm (l : list (iio_interface Dev)) : forall i arr,
  forallb (fun x => negb (String.eqb nm (name x))) l = true ->
  0 <= i <= zlength arr ->
  zlength arr < i + zlength l ->
  unregister_loop nm l i 0 arr = Undef OutOfBounds.
Proof.
  induction l as [|x l IH]; intros i arr Hall Hi Hlen.
  - unfold zlength in *. simpl in *. lia.
  - simpl in Hall. apply andb_true_iff in Hall. destruct Hall as [Hx Hall].
    apply negb_true_iff in Hx. simpl. rewrite Hx.
    unfold store_at. rewrite Z.sub_0_r.
    destruct (Z.lt_ge_cases i (zlength arr)) as [Hlt|Hge].
    + replace (0 <=? i) with true by (symmetry; apply Z.leb_le; lia).
      replace (i <? zlength arr) with true by (symmetry; apply Z.ltb_lt; lia).
      cbn [andb bind].
      assert (El : zlength (firstn (Z.to_nat i) arr ++ Some x :: skipn (S (Z.to_nat i)) arr)
                   = zlength arr).
      { unfold zlength in *. rewrite length_app, length_firstn.
        cbn [List.length]. rewrite length_skipn. lia. }
      apply IH; [exact Hall | rewrite El; lia |].
      rewrite El. unfold zlength in *. cbn [List.length] in Hlen. lia.
    + replace (i <? zlength arr) with false by (symmetry; apply Z.ltb_ge; lia).
      now rewrite andb_false_r.
Qed.

(** A name that matches no interface of a live, non-empty registry: the
    copy loop stores as many interfaces as the registry has in an array
    that is one shorter. *)
Lemma iio_unregister_unknown_name (x : iio_interface Dev) (w : world Dev) l :
  iio_interfaces w = RegLive l ->
  l <> [] ->
  forallb (fun i => negb (String.eqb (name x) (name i))) l = true ->
  iio_unregister true true x w = Undef OutOfBounds.
Proof.
  intros Hw Hl Hall. unfold iio_unregister. cbn [negb]. rewrite Hw.
  rewrite (unregister_loop_no_match (name x) l 0 _ Hall); [reflexivity | |].
  - unfold zlength. lia.
  - unfold zlength. rewrite repeat_length.
    destruct l; [congruence | cbn [List.length]; lia].
Qed.

End UnregisterFacts.

End RegistryFacts.

(* ------------------------------------------------------------------ *)
(** ** Bulk transfers *)

Module TransferFacts.
Import Sample.

Section Delegation.
Context {Dev : Type}.
Implicit Types (w : world Dev) (l : list (iio_interface Dev)) (ifc : iio_interface Dev).

Lemma transfer_dev_to_mem_delegates w l device ifc f bytes_count :
  iio_interfaces w = RegLive l ->
  find (fun i => String.eqb device (name i)) l = Some ifc ->
  transfer_dev_to_mem ifc = Some f ->
  iio_transfer_dev_to_mem device bytes_count w =
    Ret (fst (f (devices w (dev_instance ifc)) bytes_count (ch_mask ifc)),
         log_calls [BulkCall TransferDevToMem device 0 bytes_count (ch_mask ifc)]
           (set_device (dev_instance ifc)
              (snd (f (devices w (dev_instance ifc)) bytes_count (ch_mask ifc))) w)).
Proof.
  intros Hw Hf Hcb. unfold iio_transfer_dev_to_mem. rewrite Hw.
  cbn [iio_get_interface bind]. rewrite Hf. cbn [deref bind]. rewrite Hcb.
  destruct (f _ _ _). reflexivity.
Qed.

Lemma transfer_dev_to_mem_without_callback w l device ifc bytes_count :
  iio_interfaces w = RegLive l ->
  find (fun i => String.eqb device (name i)) l = Some ifc ->
  transfer_dev_to_mem ifc = None ->
  iio_transfer_dev_to_mem device bytes_count w = Ret (- ENOENT, w).
Proof.
  intros Hw Hf Hcb. unfold iio_transfer_dev_to_mem. rewrite Hw.
  cbn [iio_get_interface bind]. rewrite Hf. cbn [deref bind]. now rewrite Hcb.
Qed.

Lemma transfer_unregistered_null w l device bytes_count :
  iio_interfaces w = RegLive l ->
  find (fun i => String.eqb device (name i)) l = None ->
  iio_transfer_dev_to_mem device bytes_count w = Undef NullDereference.
Proof.
  intros Hw Hf. unfold iio_transfer_dev_to_mem. rewrite Hw.
  cbn [iio_get_interface bind]. now rewrite Hf.
Qed.

End Delegation.

(** C7 fails on the code: for a device name that is not registered the
    four bulk-transfer functions use the NULL pointer the lookup returns,
    where the claim has them fail with a not-found error. *)
Lemma C7_transfer_on_unregistered_device :
  iio_transfer_dev_to_mem "D" 16 (world_of (RegLive [A; B])) = Undef NullDereference /\
  iio_read_dev "D" [0; 0] 0 2 (world_of (RegLive [A; B])) = Undef NullDereference /\
  iio_transfer_mem_to_dev "D" 16 (world_of (RegLive [A; B])) = Undef NullDereference /\
  iio_write_dev "D" [0; 0] 0 2 (world_of (RegLive [A; B])) = Undef NullDereference.
Proof. repeat split. Qed.

End TransferFacts.

(* ------------------------------------------------------------------ *)
(** ** Attribute resolution *)

Module AttributeFacts.
Import Sample.

Lemma zlength_cons {A} (x : A) l : zlength (x :: l) = zlength l + 1.
Proof. unfold zlength. cbn [List.length]. lia. Qed.

Lemma zlength_nonneg {A} (l : list A) : 0 <= zlength l.
Proof. unfold zlength. lia. Qed.

(** The search loop on an array that has no match and ends within the
    range of the index. *)
Lemma find_index_none {A} (f : A -> bool) l : forall i,
  (forall y, In y l -> f y = false) ->
  i + zlength l <= INT16_MAX ->
  find_index f l i = Ret None.
Proof.
  induction l as [|y l IH]; intros i Hl Hi; cbn [find_index].
  - replace (INT16_MAX <? i) with false
      by (symmetry; apply Z.ltb_ge; unfold zlength in Hi; cbn [List.length] in Hi; lia).
    reflexivity.
  - pose proof (zlength_nonneg l) as Hnn. rewrite zlength_cons in Hi.
    replace (INT16_MAX <? i) with false by (symmetry; apply Z.ltb_ge; lia).
    rewrite (Hl y (or_introl eq_refl)). apply IH; [|lia].
    intros z Hz. apply Hl. now right.
Qed.

(** The search loop on an array whose first match is within the range
    of the index. *)
Lemma find_index_split {A} (f : A -> bool) pre x post : forall i,
  (forall y, In y pre -> f y = false) ->
  f x = true ->
  i + zlength pre <= INT16_MAX ->
  find_index f (pre ++ x :: post) i = Ret (Some (i + zlength pre)).
Proof.
  induction pre as [|y pre IH]; intros i Hpre Hx Hi; cbn [app find_index].
  - replace (INT16_MAX <? i) with false
      by (symmetry; apply Z.ltb_ge; unfold zlength in Hi; cbn [List.length] in Hi; lia).
    rewrite Hx. do 2 f_equal. unfold zlength. cbn. lia.
  - pose proof (zlength_nonneg pre) as Hnn. rewrite zlength_cons in Hi.
    replace (INT16_MAX <? i) with false by (symmetry; apply Z.ltb_ge; lia).
    rewrite (Hpre y (or_introl eq_refl)).
    rewrite IH; [|intros z Hz; apply Hpre; now right | exact Hx | lia].
    do 2 f_equal. rewrite zlength_cons. lia.
Qed.

(** Without a match the search loop finds nothing or leaves the array. *)
Lemma find_index_no_match {A} (f : A -> bool) l : forall i,
  (forall y, In y l -> f y = false) ->
  find_index f l i = Ret None \/ find_index f l i = Undef OutOfBounds.
Proof.
  induction l as [|y l IH]; intros i Hl; cbn [find_index];
    destruct (INT16_MAX <? i); auto.
  rewrite (Hl y (or_introl eq_refl)). apply IH. intros z Hz. apply Hl. now right.
Qed.

Section Resolution.
Context {Dev : Type}.
Implicit Types (w : world Dev) (dev : iio_device Dev) (el : element_info).

Lemma find_index_absent attr (attrs : list (iio_attribute Dev)) : forall i,
  attribute_absent attr attrs ->
  i + zlength attrs <= INT16_MAX ->
  find_index (fun a => String.eqb attr (attr_name a)) attrs i = Ret None.
Proof. intros i H Hi. now apply find_index_none. Qed.

Lemma iio_get_attribute_id_absent attr (attrs : list (iio_attribute Dev)) :
  attribute_absent attr attrs ->
  zlength attrs <= INT16_MAX ->
  exists r, iio_get_attribute_id attr (Some attrs) = Ret r /\ r < 0.
Proof.
  intros H Hlen. unfold iio_get_attribute_id. destruct attrs as [|a r].
  - exists (- EINVAL). split; [reflexivity | unfold EINVAL; lia].
  - rewrite (find_index_absent attr (a :: r) 0 H) by lia.
    exists (- ENOENT). split; [reflexivity | unfold ENOENT; lia].
Qed.

(** Device scope: a named attribute that the device does not have. *)
Lemma absent_device_attribute el buf len dev attrs is_write w :
  channel_name el = ""%string ->
  attribute_name el <> ""%string ->
  iio_interfaces w <> RegInvalid ->
  attributes dev = Some attrs ->
  attribute_absent (attribute_name el) attrs ->
  zlength attrs <= INT16_MAX ->
  iio_rd_wr_attribute el buf len (Some dev) is_write w = Ret (- ENOENT, buf, w).
Proof.
  intros Hch Hattr Hreg Hattrs Habs Hlen. unfold iio_rd_wr_attribute.
  rewrite Hch. cbn [String.eqb].
  apply String.eqb_neq in Hattr. rewrite Hattr.
  destruct (iio_interfaces w) eqn:Hw; [| |congruence|]; cbn [iio_get_interface bind];
    rewrite Hattrs;
    destruct (iio_get_attribute_id_absent _ _ Habs Hlen) as (r & -> & Hr); cbn [bind];
    apply Z.ltb_lt in Hr; now rewrite Hr.
Qed.

(** Channel scope: the channel is there, the named attribute is not. *)
Lemma absent_channel_attribute el buf len dev chans id channel attrs is_write w :
  channel_name el <> ""%string ->
  attribute_name el <> ""%string ->
  iio_interfaces w <> RegInvalid ->
  channels dev = Some chans ->
  iio_get_channel_id (channel_name el) (Some chans) (ei_ch_out el) = Ret id ->
  array_index chans id = Ret channel ->
  ch_attributes channel = Some attrs ->
  attribute_absent (attribute_name el) attrs ->
  zlength attrs <= INT16_MAX ->
  iio_rd_wr_attribute el buf len (Some dev) is_write w = Ret (- ENOENT, buf, w).
Proof.
  intros Hch Hattr Hreg Hchans Hid Hidx Hattrs Habs Hlen. unfold iio_rd_wr_attribute.
  apply String.eqb_neq in Hch. rewrite Hch.
  rewrite Hchans, Hid. cbn [bind deref]. rewrite Hidx. cbn [bind].
  unfold iio_rd_wr_channel_attribute.
  apply String.eqb_neq in Hattr. rewrite Hattr.
  destruct (iio_interfaces w) eqn:Hw; [| |congruence|]; cbn [iio_get_interface bind];
    rewrite Hattrs;
    destruct (iio_get_attribute_id_absent _ _ Habs Hlen) as (r & -> & Hr); cbn [bind];
    replace (0 <=? r) with false by (symmetry; apply Z.leb_gt; lia); reflexivity.
Qed.

(** An absent channel: the identifier is negative and the array of
    channels is indexed with it, unless the search has left the array
    before. *)
Lemma absent_channel_is_undefined el buf len dev chans is_write w :
  channel_name el <> ""%string ->
  channels dev = Some chans ->
  (forall c, In c chans ->
     String.eqb (channel_name el) (ch_name c) && Bool.eqb (ch_out c) (ei_ch_out el) = false) ->
  iio_rd_wr_attribute el buf len (Some dev) is_write w = Undef OutOfBounds.
Proof.
  intros Hch Hchans Habs. unfold iio_rd_wr_attribute.
  apply String.eqb_neq in Hch. rewrite Hch. rewrite Hchans.
  assert (Hid : (exists r, iio_get_channel_id (channel_name el) (Some chans) (ei_ch_out el)
                           = Ret r /\ r < 0) \/
                iio_get_channel_id (channel_name el) (Some chans) (ei_ch_out el)
                  = Undef OutOfBounds).
  { unfold iio_get_channel_id. destruct chans as [|c r].
    - left. exists (- EINVAL). split; [reflexivity | unfold EINVAL; lia].
    - destruct (find_index_no_match
                  (fun c => String.eqb (channel_name el) (ch_name c)
                            && Bool.eqb (ch_out c) (ei_ch_out el)) (c :: r) 0 Habs)
        as [-> | ->]; [left | right; reflexivity].
      exists (- ENOENT). split; [reflexivity | unfold ENOENT; lia]. }
  destruct Hid as [(r & -> & Hr) | ->]; [|reflexivity].
  cbn [bind deref]. unfold array_index.
  apply Z.ltb_lt in Hr. now rewrite Hr.
Qed.

End Resolution.

(** C5 fails on the code: for a channel the device does not have,
    [iio_get_channel_id] returns [-ENOENT], and the dispatcher indexes the
    array of channels with it instead of returning a not-found error. *)
Lemma C5_absent_channel_indexes_out_of_bounds :
  iio_ch_read_attr "A" "voltage7" false "raw" line 16 (world_of (RegLive [A; B]))
    = Undef OutOfBounds /\
  iio_ch_write_attr "A" "voltage7" false "raw" line 16 (world_of (RegLive [A; B]))
    = Undef OutOfBounds /\
  iio_get_channel_id "voltage7" (channels adc) false = Ret (- ENOENT).
Proof. repeat split. Qed.

Example absent_attribute :
  iio_ch_read_attr "A" "voltage1" false "offset" line 16 (world_of (RegLive [A; B]))
    = Ret (- ENOENT, line, world_of (RegLive [A; B])).
Proof. reflexivity. Qed.

Example present_attribute :
  exists w', iio_ch_read_attr "A" "voltage1" false "raw" line 16 (world_of (RegLive [A; B]))
    = Ret (2, with_bytes line ([52; 50] ++ repeat 0 14), w') /\
    calls w' = [ShowCall "raw" 16 (Some {| ch_num := 1; ci_ch_out := false |})].
Proof. eexists. split; reflexivity. Qed.

End AttributeFacts.

(* ------------------------------------------------------------------ *)
(** ** Aggregate write *)

Module WriteAllFacts.
Import Sample.

Section WriteAll.
Context {Dev : Type}.

Lemma write_all_loop_ignores_contents (attrs : list (iio_attribute Dev)) :
  forall d1 d2 b1 b2 ch j i,
    buf_addr b1 = buf_addr b2 ->
    match write_all_loop attrs d1 b1 ch j i, write_all_loop attrs d2 b2 ch j i with
    | Ret r1, Ret r2 => snd r1 = snd r2
    | Undef u1, Undef u2 => u1 = u2
    | _, _ => False
    end.
Proof.
  induction attrs as [|a rest IH]; intros d1 d2 b1 b2 ch j i Haddr;
    cbn [write_all_loop]; (destruct (INT16_MAX <? i); [reflexivity|]); [reflexivity|].
  rewrite Haddr.
  destruct (store a d1 _ _ ch) as [r1 e1].
  destruct (store a d2 _ _ ch) as [r2 e2].
  specialize (IH e1 e2 b1 b2 ch
    (let j2 := to_int16 (to_int16 (j + 4) +
                 to_int16 (bswap_constant_32 (to_uint32 (buf_addr b2 + j)))) in
     if Z.land j2 3 =? 0 then j2 else to_int16 (Z.shiftl (Z.shiftr j2 2 + 1) 2))
    (i + 1) Haddr).
  cbv zeta in IH.
  destruct (write_all_loop rest e1 b1 ch _ _) as [[dn1 cs1]|u1];
    destruct (write_all_loop rest e2 b2 ch _ _) as [[dn2 cs2]|u2];
    cbn [bind snd] in *; try contradiction; [now rewrite IH | exact IH].
Qed.

(** Within the range of its index the loop returns. *)
Lemma write_all_loop_returns (attrs : list (iio_attribute Dev)) : forall d b ch j i,
  i + zlength attrs <= INT16_MAX ->
  exists d' cs, write_all_loop attrs d b ch j i = Ret (d', cs).
Proof.
  induction attrs as [|a rest IH]; intros d b ch j i Hi; cbn [write_all_loop].
  - replace (INT16_MAX <? i) with false
      by (symmetry; apply Z.ltb_ge; unfold zlength in Hi; cbn [List.length] in Hi; lia).
    now exists d, [].
  - pose proof (AttributeFacts.zlength_nonneg rest) as Hnn.
    rewrite AttributeFacts.zlength_cons in Hi.
    replace (INT16_MAX <? i) with false by (symmetry; apply Z.ltb_ge; lia).
    destruct (store a d _ _ ch) as [r d1].
    match goal with |- context [write_all_loop rest d1 b ch ?j3 (i + 1)] =>
      destruct (IH d1 b ch j3 (i + 1)) as (d' & cs & ->); [lia|] end.
    cbn [bind]. eexists. eexists. reflexivity.
Qed.

Lemma iio_write_all_attr_returns_len (d : Dev) b len ch attrs :
  zlength attrs <= INT16_MAX ->
  exists d' cs, iio_write_all_attr d (Some b) len ch (Some attrs) = Ret (len, d', cs).
Proof.
  intros Hlen. unfold iio_write_all_attr.
  destruct (write_all_loop_returns attrs d b ch 0 0) as (d' & cs & ->); [lia|].
  now exists d', cs.
Qed.

End WriteAll.

(** C2 fails on the code: for one attribute and a request at address
    0x20000000 that declares a value of 2 bytes, [iio_write_all_attr]
    hands the store handler the length 32, the byte-swapped address,
    instead of the length 2 found in the buffer; it still returns the
    caller's length 8. *)
Lemma C2_write_all_takes_length_from_pointer :
  buf_bytes request = Framing.be32 2 ++ [52; 50] ++ [0; 0] /\
  iio_write_all_attr 0 (Some request) 8 None (Some [raw]) =
    Ret (8, 32, [StoreCall "raw" 4 32 None]) /\
  to_int16 (bswap_constant_32 (to_uint32 (buf_addr request))) = 32.
Proof. repeat split. Qed.

End WriteAllFacts.

(* ------------------------------------------------------------------ *)
(** ** Aggregate read *)

Module ReadAllFacts.
Import Sample Framing.

Lemma testbit_to_uint32 v i : 0 <= i < 32 -> Z.testbit (to_uint32 v) i = Z.testbit v i.
Proof.
  intros Hi. unfold to_uint32, wrap_unsigned. apply Z.mod_pow2_bits_low. lia.
Qed.

Lemma testbit_to_uint32_high v i : 32 <= i -> Z.testbit (to_uint32 v) i = false.
Proof.
  intros Hi. unfold to_uint32, wrap_unsigned. apply Z.mod_pow2_bits_high. lia.
Qed.

Ltac bits_of_masks :=
  change 4278190080 with (Z.shiftl (Z.ones 8) 24);
  change 16711680 with (Z.shiftl (Z.ones 8) 16);
  change 65280 with (Z.shiftl (Z.ones 8) 8);
  change 255 with (Z.ones 8).

Ltac bit_index_cases :=
  repeat match goal with
  | |- context [Z.testbit (Z.land ?a ?b) ?j] => rewrite (Z.land_spec a b j)
  | |- context [Z.testbit (Z.shiftl ?a ?n) ?j] =>
      first [ rewrite (Z.shiftl_spec a n j) by lia
            | rewrite (Z.testbit_neg_r (Z.shiftl a n) j) by lia ]
  | |- context [Z.testbit (Z.ones 8) ?j] =>
      first [ rewrite (Z.ones_spec_low 8 j) by lia
            | rewrite (Z.ones_spec_high 8 j) by lia
            | rewrite (Z.testbit_neg_r (Z.ones 8) j) by lia ]
  | |- context [Z.testbit (to_uint32 ?x) ?j] =>
      first [ rewrite (testbit_to_uint32 x j) by lia
            | rewrite (testbit_to_uint32_high x j) by lia
            | rewrite (Z.testbit_neg_r (to_uint32 x) j) by lia ]
  end.

Lemma byte_of_swapped x k i :
  0 <= i ->
  (k = 0 \/ k = 8 \/ k = 16 \/ k = 24) ->
  Z.testbit (Z.land (Z.shiftr (bswap_constant_32 (to_uint32 x)) k) 255) i =
  Z.testbit (Z.land (Z.shiftr x (24 - k)) 255) i.
Proof.
  intros Hi Hk. unfold bswap_constant_32. bits_of_masks.
  rewrite !Z.land_spec, !Z.shiftr_spec, !Z.lor_spec by lia.
  rewrite !Z.testbit_ones_nonneg by lia.
  destruct (Z.ltb_spec i 8) as [Hlt|Hge]; [|now rewrite !andb_false_r].
  rewrite !andb_true_r.
  destruct Hk as [->|[->|[->| ->]]];
    rewrite ?Z.shiftr_spec, ?Z.land_spec by lia;
    bit_index_cases;
    rewrite ?andb_false_r, ?andb_true_r, ?orb_false_r, ?orb_false_l;
    f_equal; lia.
Qed.

Lemma uint32_bytes_bswap v :
  uint32_bytes (bswap_constant_32 (to_uint32 v)) = be32 v.
Proof.
  assert (B : forall k, k = 0 \/ k = 8 \/ k = 16 \/ k = 24 ->
            Z.land (Z.shiftr (bswap_constant_32 (to_uint32 v)) k) 255 =
            Z.land (Z.shiftr v (24 - k)) 255).
  { intros k Hk. apply Z.bits_inj'. intros i Hi. now apply byte_of_swapped. }
  unfold uint32_bytes, be32.
  rewrite <- (Z.shiftr_0_r (bswap_constant_32 (to_uint32 v))) at 1.
  rewrite (B 0), (B 8), (B 16), (B 24) by auto.
  cbn [Z.sub Z.opp Z.add Z.pos_sub Pos.pred_double Z.succ_double Z.pred_double Z.double].
  now rewrite Z.shiftr_0_r.
Qed.

Example be32_minus_22 : be32 (-22) = [255; 255; 255; 234].
Proof. reflexivity. Qed.

Lemma to_int16_small x : 0 <= x <= 32767 -> to_int16 x = x.
Proof.
  intros H. unfold to_int16, wrap_signed. change (2 ^ 16) with 65536.
  change (2 ^ (16 - 1)) with 32768.
  rewrite Z.mod_small by lia.
  destruct (Z.ltb_spec x 32768); lia.
Qed.

Lemma round_up_4_padded r : 0 <= r <= 32767 -> round_up_4 r = padded r.
Proof.
  intros H. unfold round_up_4, padded.
  change 3 with (Z.ones 2) at 1. rewrite Z.land_ones by lia.
  rewrite Z.shiftr_div_pow2, Z.shiftl_mul_pow2 by lia.
  change (2 ^ 2) with 4.
  destruct (Z.eqb_spec (r mod 4) 0) as [E|E].
  - Z.to_euclidean_division_equations. lia.
  - unfold to_int32, wrap_signed. change (2 ^ 32) with 4294967296.
    change (2 ^ (32 - 1)) with 2147483648.
    assert (Hs : 0 <= (r / 4 + 1) * 4 <= 32768)
      by (Z.to_euclidean_division_equations; lia).
    rewrite Z.mod_small by lia.
    destruct (Z.ltb_spec ((r / 4 + 1) * 4) 2147483648); [|lia].
    Z.to_euclidean_division_equations. lia.
Qed.

Lemma padded_bounds r : 0 <= r -> r <= padded r <= r + 3.
Proof. intros H. unfold padded. Z.to_euclidean_division_equations. lia. Qed.

Lemma store_bytes_at_end (pre rest bs : list Z) :
  (List.length bs <= List.length rest)%nat ->
  store_bytes (pre ++ rest) (zlength pre) bs =
  Ret (pre ++ bs ++ skipn (List.length bs) rest).
Proof.
  intros H. unfold store_bytes, zlength.
  replace ((0 <=? Z.of_nat (List.length pre)) &&
           (Z.of_nat (List.length pre) + Z.of_nat (List.length bs)
            <=? Z.of_nat (List.length (pre ++ rest)))) with true.
  2:{ symmetry. apply andb_true_iff. split; [apply Z.leb_le; lia|].
      apply Z.leb_le. rewrite length_app. lia. }
  rewrite Nat2Z.id. f_equal.
  rewrite firstn_app, firstn_all, Nat.sub_diag. cbn [firstn]. rewrite app_nil_r.
  f_equal. f_equal.
  rewrite skipn_app.
  rewrite (skipn_all2 pre) by lia. cbn [app]. f_equal. lia.
Qed.

Section ReadAll.
Context {Dev : Type}.
Variables (len : Z) (channel : option iio_ch_info).
Local Abbreviation show_results := (@Framing.show_results Dev len channel).

Lemma record_size_pos r : 4 <= record_size r.
Proof.
  unfold record_size. destruct (Z.leb_spec 0 r); [|lia].
  pose proof (padded_bounds r). lia.
Qed.

Lemma total_size_nonneg results : 0 <= total_size results.
Proof.
  induction results as [|[r lb] more IH]; simpl; [lia|].
  pose proof (record_size_pos r). lia.
Qed.

Lemma frame_ext results : forall d1 d2,
  skipn 1 d1 = skipn 1 d2 -> frame results d1 = frame results d2.
Proof.
  induction results as [|[r lb] more IH]; intros d1 d2 H; [reflexivity|].
  cbn [frame]. destruct (Z.leb_spec 0 r) as [Hr|Hr].
  - replace (Z.to_nat (4 + r + 1)) with (Z.to_nat (4 + r) + 1)%nat by lia.
    rewrite <- !skipn_skipn, H.
    rewrite (IH (skipn (Z.to_nat (4 + padded r)) d1) (skipn (Z.to_nat (4 + padded r)) d2));
      [reflexivity|].
    rewrite !skipn_skipn.
    replace (1 + Z.to_nat (4 + padded r))%nat with (Z.to_nat (4 + padded r) + 1)%nat by lia.
    now rewrite <- !skipn_skipn, H.
  - rewrite (IH (skipn 4 d1) (skipn 4 d2)); [reflexivity|].
    rewrite !skipn_skipn. replace (1 + 4)%nat with (4 + 1)%nat by lia.
    now rewrite <- !skipn_skipn, H.
Qed.

Lemma zlength_app {A} (l1 l2 : list A) : zlength (l1 ++ l2) = zlength l1 + zlength l2.
Proof. unfold zlength. rewrite length_app. lia. Qed.

Lemma zlength_be32 r : zlength (be32 r) = 4.
Proof. reflexivity. Qed.

Lemma read_all_loop_frames (attrs : list (iio_attribute Dev)) :
  forall device lb pre rest i,
    Forall returns_text_length (show_results attrs device lb) ->
    Forall within_local_buf (show_results attrs device lb) ->
    zlength pre + total_size (show_results attrs device lb) <= 32767 ->
    total_size (show_results attrs device lb) < zlength rest ->
    i + zlength attrs <= INT16_MAX ->
    exists tail lb' dev',
      read_all_loop attrs device (pre ++ rest) lb len channel (zlength pre) i =
        Ret (zlength pre + total_size (show_results attrs device lb),
             pre ++ frame (show_results attrs device lb) rest ++ tail, lb', dev',
             map (fun a => ShowCall (attr_name a) len channel) attrs) /\
      skipn 1 tail =
        skipn (Z.to_nat (total_size (show_results attrs device lb)) + 1) rest.
Proof.
  induction attrs as [|a attrs IH]; intros device lb pre rest i Hwf Hin Hmax Hfit Hi.
  - exists rest, lb, device. cbn [read_all_loop].
    replace (INT16_MAX <? i) with false
      by (symmetry; apply Z.ltb_ge; unfold zlength in Hi; cbn [List.length] in Hi; lia).
    cbn. rewrite Z.add_0_r. split; reflexivity.
  - cbn [read_all_loop show_results] in *.
    pose proof (AttributeFacts.zlength_nonneg attrs) as Hnn.
    rewrite AttributeFacts.zlength_cons in Hi.
    replace (INT16_MAX <? i) with false by (symmetry; apply Z.ltb_ge; lia).
    assert (Hi' : i + 1 + zlength attrs <= INT16_MAX) by lia.
    destruct (show a device lb len channel) as [[r lb1] d1].
    cbn [total_size frame map] in *.
    inversion Hwf as [|res results Hr Hrest]; subst res results. clear Hwf.
    inversion Hin as [|res results Hb Hinrest]; subst res results. clear Hin.
    unfold within_local_buf in Hb. cbn [snd] in Hb.
    replace (LOCAL_BUF_SIZE <? zlength lb1) with false by (symmetry; apply Z.ltb_ge; lia).
    set (T' := total_size (show_results attrs d1 lb1)) in *.
    assert (HT' : 0 <= T') by apply total_size_nonneg.
    pose proof (record_size_pos r) as Hrec.
    assert (Hpre : 0 <= zlength pre) by (unfold zlength; lia).
    assert (Hlen : zlength rest = Z.of_nat (List.length rest)) by reflexivity.
    rewrite uint32_bytes_bswap.
    rewrite store_bytes_at_end by (cbn [List.length be32]; lia).
    cbn [bind]. change (List.length (be32 r)) with 4%nat.
    rewrite (to_int16_small (zlength pre + 4)) by lia.
    unfold record_size in *.
    destruct (Z.leb_spec 0 r) as [Hr0|Hr0].
    + destruct Hr as [Hneg|(s & Hs & Hsl)]; cbn [fst snd] in *; [lia|].
      pose proof (padded_bounds r Hr0) as Hpad.
      rewrite Hs. cbn [bind]. unfold text_of. rewrite Hs.
      rewrite (round_up_4_padded r) by lia.
      rewrite (to_int16_small (zlength pre + 4 + padded r)) by lia.
      assert (Hsn : List.length s = Z.to_nat r) by (unfold zlength in Hsl; lia).
      replace (pre ++ be32 r ++ skipn 4 rest) with ((pre ++ be32 r) ++ skipn 4 rest)
        by now rewrite <- app_assoc.
      replace (zlength pre + 4) with (zlength (pre ++ be32 r))
        by (rewrite zlength_app, zlength_be32; reflexivity).
      rewrite store_bytes_at_end
        by (rewrite length_app, length_skipn; cbn [List.length]; lia).
      cbn [bind].
      set (X := 0 :: skipn (Z.to_nat (4 + r + 1)) rest).
      set (p := Z.to_nat (padded r - r)).
      assert (HX : (s ++ [0]) ++ skipn (List.length (s ++ [0])) (skipn 4 rest)
                   = s ++ firstn p X ++ skipn p X).
      { rewrite firstn_skipn. unfold X. rewrite <- app_assoc. cbn [app].
        do 2 f_equal. rewrite skipn_skipn, length_app. cbn [List.length].
        f_equal. lia. }
      rewrite HX.
      assert (HlX : List.length X = (List.length rest - Z.to_nat (4 + r))%nat).
      { unfold X. cbn [List.length]. rewrite length_skipn. lia. }
      set (pre2 := pre ++ be32 r ++ s ++ firstn p X).
      assert (Hpre2 : zlength pre2 = zlength pre + 4 + padded r).
      { unfold pre2. rewrite !zlength_app, zlength_be32. unfold zlength.
        rewrite length_firstn. lia. }
      replace ((pre ++ be32 r) ++ s ++ firstn p X ++ skipn p X)
        with (pre2 ++ skipn p X)
        by (unfold pre2; now rewrite <- !app_assoc).
      rewrite zlength_app, zlength_be32, <- Hpre2.
      destruct (IH d1 lb1 pre2 (skipn p X) (i + 1)) as (tail & lb' & dev' & Hrun & Htail).
      * exact Hrest.
      * exact Hinrest.
      * fold T'. lia.
      * fold T'. unfold zlength. rewrite length_skipn. lia.
      * exact Hi'.
      * fold T' in Hrun, Htail. rewrite Hrun. cbn [bind].
        exists tail, lb', dev'. split.
        -- f_equal. f_equal. f_equal. f_equal. f_equal; [lia|].
           unfold pre2. rewrite <- !app_assoc. do 4 f_equal.
           f_equal. apply frame_ext.
           unfold X. rewrite !skipn_skipn.
           replace (1 + p)%nat with (S p) by lia. cbn [skipn].
           rewrite skipn_skipn. f_equal. lia.
        -- rewrite Htail. rewrite skipn_skipn. unfold X.
           replace (Z.to_nat T' + 1 + p)%nat with (S (Z.to_nat T' + p)) by lia.
           cbn [skipn]. rewrite skipn_skipn. f_equal. lia.
    + clear Hr.
      replace (pre ++ be32 r ++ skipn 4 rest) with ((pre ++ be32 r) ++ skipn 4 rest)
        by now rewrite <- app_assoc.
      cbn [bind].
      replace (zlength pre + 4) with (zlength (pre ++ be32 r))
        by (rewrite zlength_app, zlength_be32; reflexivity).
      destruct (IH d1 lb1 (pre ++ be32 r) (skipn 4 rest) (i + 1))
        as (tail & lb' & dev' & Hrun & Htail).
      * exact Hrest.
      * exact Hinrest.
      * fold T'. rewrite zlength_app, zlength_be32. lia.
      * fold T'. unfold zlength. rewrite length_skipn. lia.
      * exact Hi'.
      * fold T' in Hrun, Htail. rewrite Hrun. cbn [bind].
        exists tail, lb', dev'. split.
        -- rewrite zlength_app, zlength_be32, <- !app_assoc.
           do 5 f_equal. lia.
        -- rewrite Htail, skipn_skipn. f_equal. lia.
Qed.

Lemma frame_length results : forall dest,
  Forall returns_text_length results ->
  total_size results <= zlength dest ->
  zlength (frame results dest) = total_size results.
Proof.
  induction results as [|[r lb] more IH]; intros dest Hwf Hfit; [reflexivity|].
  inversion Hwf as [|res results Hr Hrest]; subst res results.
  cbn [frame total_size] in *. unfold record_size in *.
  pose proof (total_size_nonneg more) as Hmore.
  assert (Hlen : zlength dest = Z.of_nat (List.length dest)) by reflexivity.
  destruct (Z.leb_spec 0 r) as [Hr0|Hr0].
  - destruct Hr as [Hneg|(s & Hs & Hsl)]; cbn [fst snd] in *; [lia|].
    pose proof (padded_bounds r Hr0) as Hpad.
    unfold text_of. rewrite Hs. rewrite !zlength_app, zlength_be32, Hsl.
    rewrite IH; [| exact Hrest | unfold zlength; rewrite length_skipn; lia].
    unfold zlength at 1. rewrite length_firstn. cbn [List.length].
    rewrite length_skipn. lia.
  - rewrite zlength_app, zlength_be32.
    rewrite IH; [lia | exact Hrest | unfold zlength; rewrite length_skipn; lia].
Qed.

Lemma skipn_zeros n (l : list Z) : Forall (eq 0) l -> Forall (eq 0) (skipn n l).
Proof.
  intros H. rewrite <- (firstn_skipn n l) in H. now apply Forall_app in H.
Qed.

Lemma firstn_zeros n (l : list Z) :
  Forall (eq 0) l -> (n <= List.length l)%nat -> firstn n l = repeat 0 n.
Proof.
  revert l. induction n as [|n IH]; intros l H Hn; [reflexivity|].
  destruct l as [|x l]; [simpl in Hn; lia|].
  inversion H as [|y l' Hx Hl]; subst. cbn. f_equal. apply IH; [exact Hl|].
  simpl in Hn. lia.
Qed.

Lemma frame_zero_filled results : forall dest,
  Forall returns_text_length results ->
  total_size results <= zlength dest ->
  Forall (eq 0) dest ->
  frame results dest = List.concat (map zero_padded_record results).
Proof.
  induction results as [|[r lb] more IH]; intros dest Hwf Hfit Hz; [reflexivity|].
  inversion Hwf as [|res results Hr Hrest]; subst res results.
  cbn [frame total_size map List.concat] in *. unfold zero_padded_record at 1.
  cbn [fst snd]. unfold record_size in *.
  pose proof (total_size_nonneg more) as Hmore.
  assert (Hlen : zlength dest = Z.of_nat (List.length dest)) by reflexivity.
  destruct (Z.leb_spec 0 r) as [Hr0|Hr0].
  - pose proof (padded_bounds r Hr0) as Hpad.
    rewrite <- !app_assoc. do 2 f_equal.
    rewrite firstn_zeros.
    + f_equal. apply IH; [exact Hrest | | now apply skipn_zeros].
      unfold zlength. rewrite length_skipn. lia.
    + constructor; [reflexivity | now apply skipn_zeros].
    + cbn [List.length]. rewrite length_skipn. lia.
  - rewrite app_nil_r. f_equal. apply IH; [exact Hrest | | now apply skipn_zeros].
    unfold zlength. rewrite length_skipn. lia.
Qed.

Lemma total_size_records (attrs : list (iio_attribute Dev)) : forall device lb,
  4 * zlength attrs <= total_size (show_results attrs device lb).
Proof.
  induction attrs as [|a attrs IH]; intros device lb; cbn [show_results].
  - cbn. unfold zlength. cbn. lia.
  - destruct (show a device lb len channel) as [[r lb1] d1]. cbn [total_size].
    rewrite AttributeFacts.zlength_cons.
    pose proof (record_size_pos r). specialize (IH d1 lb1). lia.
Qed.


End ReadAll.

Example three_results :
  show_results 16 None three 0 (repeat 255 256) =
  [(2, put_text [52; 50] (repeat 255 256));
   (-22, put_text [52; 50] (repeat 255 256));
   (1, put_text [49] (put_text [52; 50] (repeat 255 256)))].
Proof. reflexivity. Qed.



End ReadAllFacts.

(* ------------------------------------------------------------------ *)
(** ** The connection multiplexer *)

Module MultiplexerFacts.
Import Multiplexer SampleServer.

Lemma set_sockets_same d : set_sockets (sockets d) d = d.
Proof. destruct d; reflexivity. Qed.

Lemma push_full d h :
  IS_ERR_VALUE (fst (_push_sock d h)) = true -> snd (_push_sock d h) = d.
Proof.
  unfold _push_sock, cb_write.
  destruct (List.length (sockets d) <? MAX_SOCKET_TO_HANDLE)%nat; cbn.
  - discriminate.
  - intros _. apply set_sockets_same.
Qed.

Lemma push_room d h :
  (List.length (sockets d) < MAX_SOCKET_TO_HANDLE)%nat ->
  _push_sock d h = (SUCCESS, set_sockets (sockets d ++ [h]) d).
Proof.
  intros H. unfold _push_sock, cb_write.
  apply Nat.ltb_lt in H. now rewrite H.
Qed.

(** C10: when the current slot is [Active] at the start of a dispatch
    step and pushing the connection back onto the queue fails, the step
    returns that error at once; the descriptor is as it was, so the slot
    still holds the same connection and no command was read, and nothing
    was asked of the transport. *)
Theorem C10_step_returns_push_error d e reads h :
  current_sock d = Active h ->
  IS_ERR_VALUE (fst (_push_sock d h)) = true ->
  iio_step d e reads = Some (fst (_push_sock d h), d, e).
Proof.
  intros Hcur Herr. unfold iio_step. rewrite Hcur.
  pose proof (push_full d h Herr) as Hd.
  destruct (_push_sock d h) as [ret d1]. cbn [fst snd] in *.
  now rewrite Herr, Hd.
Qed.

(** C10 on a full queue of four with a fifth connection in the slot. *)
Lemma C10_witness :
  iio_step full silent [1] = Some (- ENOMEM, full, silent).
Proof.
  apply (C10_step_returns_push_error full silent [1] 5%nat); reflexivity.
Defined.

(** Properties that every phy-level read keeps are kept by a command. *)
Section Invariants.
Variable P : iio_desc -> Prop.
Variable E : env -> Prop.
Hypothesis network_read_keeps : forall d e data len r data1 d1 e1,
  P d -> E e -> network_read d e data len = Some (r, data1, d1, e1) -> P d1 /\ E e1.
Hypothesis uart_keeps : forall e u, E e -> E (set_uart_reads u e).

Lemma iio_phy_read_keeps d e buf len r buf1 d1 e1 :
  P d -> E e -> iio_phy_read d e buf len = Some (r, buf1, d1, e1) -> P d1 /\ E e1.
Proof.
  intros HP HE. unfold iio_phy_read. destruct (phy_type d).
  - destruct (uart_reads e) as [|[ret bytes] rest]; [discriminate|].
    intros H. injection H as <- <- <- <-. split; [exact HP | now apply uart_keeps].
  - intros H. eapply network_read_keeps; eauto.
Qed.

Lemma read_requests_keeps reads : forall d e r d1 e1,
  P d -> E e -> read_requests reads d e = Some (r, d1, e1) -> P d1 /\ E e1.
Proof.
  induction reads as [|n rest IH]; intros d e r d1 e1 HP HE H; cbn in H.
  - injection H as <- <- <-. auto.
  - destruct (iio_phy_read d e _ n) as [[[[r0 b0] d0] e0]|] eqn:Hread; [|discriminate].
    destruct (iio_phy_read_keeps _ _ _ _ _ _ _ _ HP HE Hread) as [HP0 HE0].
    destruct (r0 <? 0).
    + injection H as <- <- <-. auto.
    + eapply (IH d0 e0); eauto.
Qed.

End Invariants.

Lemma set_sockets_twice q1 q2 d : set_sockets q2 (set_sockets q1 d) = set_sockets q2 d.
Proof. reflexivity. Qed.

(** What the accept loop does: it consumes answers, and appends the
    connections accepted to the queue, as long as there is room. *)
Lemma accept_loop_spec acs : forall d res d1 rest,
  accept_loop acs d = Some (res, d1, rest) ->
  exists new used,
    acs = used ++ rest /\
    d1 = set_sockets (sockets d ++ new) d /\
    (forall s, In s new -> In (Accepted s) used) /\
    (new <> [] -> (List.length (sockets d ++ new) <= MAX_SOCKET_TO_HANDLE)%nat) /\
    (res = None -> sockets d ++ new <> []) /\
    (forall err, res = Some err -> IS_ERR_VALUE err = true).
Proof.
  induction acs as [|a acs IH]; intros d res d1 rest H; [discriminate|].
  destruct a as [s|e]; cbn [accept_loop] in H.
  - unfold _push_sock, cb_write in H.
    destruct (Nat.ltb_spec (List.length (sockets d)) MAX_SOCKET_TO_HANDLE) as [Hroom|Hfull].
    + cbn [IS_ERR_VALUE SUCCESS Z.ltb Z.compare] in H.
      destruct (IH _ _ _ _ H) as (new & used & Hacs & Hd1 & Hnew & Hlen & Hres & Herr).
      cbn [sockets set_sockets] in *.
      exists (s :: new), (Accepted s :: used). repeat split.
      * cbn. now rewrite Hacs.
      * rewrite Hd1. rewrite <- app_assoc. reflexivity.
      * intros s' [<-|Hs']; [now left | right; now apply Hnew].
      * intros _. destruct new as [|n new'].
        -- rewrite length_app. cbn. lia.
        -- replace (sockets d ++ s :: n :: new') with ((sockets d ++ [s]) ++ n :: new')
             by now rewrite <- app_assoc.
           apply Hlen. discriminate.
      * intros Hn. specialize (Hres Hn). now rewrite <- app_assoc in Hres.
      * exact Herr.
    + cbn in H. injection H as <- <- <-.
      exists [], [Accepted s]. repeat split.
      * now rewrite app_nil_r.
      * intros s' [].
      * congruence.
      * discriminate.
      * intros err Herr. injection Herr as <-. reflexivity.
  - destruct (Z.pos e =? EAGAIN).
    + destruct (_nb_active_sockets d =? 0) eqn:Hnb.
      * destruct (IH _ _ _ _ H) as (new & used & Hacs & Hd1 & Hnew & Hlen & Hres & Herr).
        exists new, (AcceptFailed e :: used). repeat split; auto.
        -- cbn. now rewrite Hacs.
        -- intros s Hs. right. now apply Hnew.
      * injection H as <- <- <-. exists [], [AcceptFailed e]. repeat split.
        -- rewrite app_nil_r. symmetry. apply set_sockets_same.
        -- intros s' [].
        -- congruence.
        -- intros _. rewrite app_nil_r. intros Hq.
           unfold _nb_active_sockets, zlength in Hnb. rewrite Hq in Hnb. discriminate.
        -- discriminate.
    + injection H as <- <- <-. exists [], [AcceptFailed e]. repeat split.
      * rewrite app_nil_r. symmetry. apply set_sockets_same.
      * intros s' [].
      * congruence.
      * discriminate.
      * intros err Herr. injection Herr as <-. reflexivity.
Qed.

Lemma get_next_socket_spec d e ret d1 e1 :
  _get_next_socket d e = Some (ret, d1, e1) ->
  exists new used rest,
    accepts e = used ++ rest /\
    e1 = set_accepts rest e /\
    (forall s, In s new -> In (Accepted s) used) /\
    (new <> [] -> (List.length (sockets d ++ new) <= MAX_SOCKET_TO_HANDLE)%nat) /\
    ((IS_ERR_VALUE ret = true /\ d1 = set_sockets (sockets d ++ new) d) \/
     (ret = SUCCESS /\ exists hd tl,
        sockets d ++ new = hd :: tl /\
        d1 = set_current (Active hd) (set_sockets tl d))).
Proof.
  unfold _get_next_socket. intros H.
  destruct (accept_loop (accepts e) d) as [[[res d0] rest]|] eqn:Hloop; [|discriminate].
  destruct (accept_loop_spec _ _ _ _ _ Hloop)
    as (new & used & Hacs & Hd0 & Hnew & Hlen & Hres & Herr).
  exists new, used, rest.
  destruct res as [err|].
  - injection H as <- <- <-. repeat split; auto.
  - specialize (Hres eq_refl). unfold _pop_sock, cb_read in H. subst d0.
    cbn [sockets set_sockets] in H.
    destruct (sockets d ++ new) as [|hd tl] eqn:Hq; [congruence|].
    cbn in H. injection H as <- <- <-. repeat split; auto.
    right. split; [reflexivity|]. now exists hd, tl.
Qed.

Lemma recv_loop_spec rs : forall data len i ret i1 data1 rest,
  recv_loop rs data len i = Some (ret, i1, data1, rest) ->
  exists used, rs = used ++ rest /\
    (ret = - ENOTCONN -> In (RecvFailed 128) used).
Proof.
  induction rs as [|a rs IH]; intros data len i ret i1 data1 rest H; [discriminate|].
  destruct a as [bs|e]; cbn [recv_loop] in H.
  - destruct (_ <? len).
    + destruct (IH _ _ _ _ _ _ _ H) as (used & -> & Hu).
      exists (Received bs :: used). split; [reflexivity|].
      intros Hr. right. now apply Hu.
    + injection H as <- <- <- <-. exists [Received bs]. split; [reflexivity|].
      unfold zlength, ENOTCONN. lia.
  - injection H as <- <- <- <-. exists [RecvFailed e]. split; [reflexivity|].
    unfold ENOTCONN. intros He. left. f_equal. lia.
Qed.

(** The three ways [network_read] returns. *)
Lemma network_read_spec d e data len r data1 d1 e1 :
  network_read d e data len = Some (r, data1, d1, e1) ->
  (current_sock d = Dead /\ d1 = d /\ e1 = e) \/
  (current_sock d = Empty /\ IS_ERR_VALUE r = true /\
   _get_next_socket d e = Some (r, d1, e1)) \/
  (exists d0 e0 ret i rest,
     ((exists h, current_sock d = Active h) /\ d0 = d /\ e0 = e \/
      current_sock d = Empty /\ exists ret0,
        IS_ERR_VALUE ret0 = false /\ _get_next_socket d e = Some (ret0, d0, e0)) /\
     recv_loop (recvs e0) data len 0 = Some (ret, i, data1, rest) /\
     d1 = (if ret =? - ENOTCONN then set_current Dead (socket_remove_current d0) else d0) /\
     e1 = set_recvs rest e0 /\ r = to_int32 i).
Proof.
  unfold network_read. intros H.
  destruct (current_sock d) as [|h|] eqn:Hcur.
  - destruct (_get_next_socket d e) as [[[ret0 d0] e0]|] eqn:Hnext; [|discriminate].
    destruct (IS_ERR_VALUE ret0) eqn:Herr.
    + injection H as <- <- <- <-. right. left. auto.
    + destruct (recv_loop (recvs e0) data len 0) as [[[[ret i] dat] rest]|] eqn:Hrecv;
        [|discriminate].
      injection H as <- <- <- <-. right. right.
      exists d0, e0, ret, i, rest. repeat split; auto.
      right. split; [reflexivity|]. now exists ret0.
  - cbn [IS_ERR_VALUE SUCCESS Z.ltb Z.compare] in H.
    destruct (recv_loop (recvs e) data len 0) as [[[[ret i] dat] rest]|] eqn:Hrecv;
      [|discriminate].
    injection H as <- <- <- <-. right. right.
    exists d, e, ret, i, rest. repeat split; auto.
    left. split; [now exists h | auto].
  - injection H as <- <- <- <-. left. auto.
Qed.

(** A read that finds the slot [Empty] and gets a connection from the
    queue goes on as a read on that connection. *)
Lemma network_read_after_pop d e data len ret d0 e0 :
  current_sock d = Empty ->
  _get_next_socket d e = Some (ret, d0, e0) ->
  IS_ERR_VALUE ret = false ->
  (exists h, current_sock d0 = Active h) /\
  network_read d e data len = network_read d0 e0 data len.
Proof.
  intros Hcur Hnext Herr.
  destruct (get_next_socket_spec _ _ _ _ _ Hnext)
    as (new & used & rest & _ & _ & _ & _ & [[Hr _]|[_ (hd & tl & _ & Hd0)]]);
    [congruence|].
  split; [exists hd; now rewrite Hd0|].
  unfold network_read. rewrite Hcur, Hnext, Herr, Hd0. reflexivity.
Qed.

(** *** Room in the queue *)

Lemma get_next_socket_room d e ret d1 e1 :
  current_sock d = Empty -> queue_room d ->
  _get_next_socket d e = Some (ret, d1, e1) -> queue_room d1.
Proof.
  intros Hcur Hroom H. unfold queue_room in Hroom. rewrite Hcur in Hroom.
  destruct (get_next_socket_spec _ _ _ _ _ H)
    as (new & used & rest & _ & _ & _ & Hlen & [[_ ->]|[_ (hd & tl & Hq & ->)]]).
  - unfold queue_room. cbn [current_sock sockets set_sockets]. rewrite Hcur.
    destruct new as [|n new']; [now rewrite app_nil_r | apply Hlen; discriminate].
  - unfold queue_room. cbn [current_sock sockets set_sockets set_current].
    assert (Hl : (List.length (sockets d ++ new) <= MAX_SOCKET_TO_HANDLE)%nat).
    { destruct new as [|n new']; [now rewrite app_nil_r | apply Hlen; discriminate]. }
    rewrite Hq in Hl. cbn in Hl. lia.
Qed.

Lemma queue_room_dead d :
  queue_room d -> queue_room (set_current Dead (socket_remove_current d)).
Proof.
  unfold queue_room. cbn [current_sock sockets set_current socket_remove_current].
  destruct (current_sock d); lia.
Qed.

Lemma network_read_room d e data len r data1 d1 e1 :
  queue_room d -> True ->
  network_read d e data len = Some (r, data1, d1, e1) -> queue_room d1 /\ True.
Proof.
  intros Hroom _ H. split; [|exact I].
  destruct (network_read_spec _ _ _ _ _ _ _ _ H)
    as [(_ & -> & _)|[(Hcur & _ & Hnext)|(d0 & e0 & ret & i & rest & Hfrom & _ & -> & _)]].
  - exact Hroom.
  - now apply (get_next_socket_room d e r d1 e1).
  - assert (Hroom0 : queue_room d0).
    { destruct Hfrom as [(_ & -> & _)|(Hcur & ret0 & _ & Hnext)]; [exact Hroom|].
      now apply (get_next_socket_room d e ret0 d0 e0). }
    destruct (ret =? - ENOTCONN); [now apply queue_room_dead | exact Hroom0].
Qed.

Lemma iio_step_room d e reads r d1 e1 :
  queue_room d -> iio_step d e reads = Some (r, d1, e1) -> queue_room d1.
Proof.
  intros Hroom. unfold iio_step, tinyiiod_read_command.
  assert (Hreads : forall d0, queue_room d0 ->
            read_requests reads (count_command d0) e = Some (r, d1, e1) -> queue_room d1).
  { intros d0 H0 H.
    apply (read_requests_keeps queue_room (fun _ => True) network_read_room
             (fun _ _ _ => I) reads (count_command d0) e r d1 e1); auto. }
  destruct (current_sock d) as [|h|] eqn:Hcur.
  - apply Hreads. unfold queue_room in *. rewrite Hcur in Hroom. exact Hroom.
  - unfold queue_room in Hroom. rewrite Hcur in Hroom.
    rewrite (push_room d h Hroom). cbn [IS_ERR_VALUE SUCCESS Z.ltb Z.compare].
    apply Hreads. unfold queue_room. cbn. rewrite length_app. cbn. lia.
  - apply Hreads. unfold queue_room in *. rewrite Hcur in Hroom. exact Hroom.
Qed.

Lemma reachable_room phy d : reachable phy d -> queue_room d.
Proof.
  induction 1 as [|d e reads ret d1 e1 _ IH Hstep].
  - unfold queue_room. cbn. unfold MAX_SOCKET_TO_HANDLE. lia.
  - now apply (iio_step_room d e reads ret d1 e1).
Qed.

(** Rotation at the start of a step of a running server. *)
Lemma step_rotates phy d e reads h :
  reachable phy d ->
  current_sock d = Active h ->
  iio_step d e reads =
    tinyiiod_read_command reads (set_current Empty (set_sockets (sockets d ++ [h]) d)) e.
Proof.
  intros Hreach Hcur. pose proof (reachable_room phy d Hreach) as Hroom.
  unfold queue_room in Hroom. rewrite Hcur in Hroom.
  unfold iio_step. rewrite Hcur, (push_room d h Hroom). reflexivity.
Qed.

(** *** A connection that is gone stays away *)

Lemma get_next_socket_absent h d e ret d1 e1 :
  absent h d -> never_accepts h e ->
  _get_next_socket d e = Some (ret, d1, e1) ->
  absent h d1 /\ never_accepts h e1.
Proof.
  intros [Hq Hcur] Hacc H.
  destruct (get_next_socket_spec _ _ _ _ _ H)
    as (new & used & rest & Hacs & -> & Hnew & _ & Hd1).
  assert (Hnotnew : ~ In h (sockets d ++ new)).
  { intros Hin. apply in_app_or in Hin. destruct Hin as [Hin|Hin]; [now apply Hq|].
    apply Hacc. rewrite Hacs. apply in_or_app. left. now apply Hnew. }
  split.
  - destruct Hd1 as [[_ ->]|[_ (hd & tl & Hsplit & ->)]]; split; cbn; auto.
    + intros Hin. apply Hnotnew. rewrite Hsplit. now right.
    + intros Heq. injection Heq as ->. apply Hnotnew. rewrite Hsplit. now left.
  - unfold never_accepts in *. cbn. intros Hin. apply Hacc. rewrite Hacs.
    apply in_or_app. now right.
Qed.

Lemma absent_dead h d : absent h d -> absent h (set_current Dead (socket_remove_current d)).
Proof. intros [Hq _]. split; cbn; [exact Hq | discriminate]. Qed.

Lemma network_read_absent h d e data len r data1 d1 e1 :
  absent h d -> never_accepts h e ->
  network_read d e data len = Some (r, data1, d1, e1) ->
  absent h d1 /\ never_accepts h e1.
Proof.
  intros Habs Hacc H.
  destruct (network_read_spec _ _ _ _ _ _ _ _ H)
    as [(_ & -> & ->)|[(Hcur & _ & Hnext)|(d0 & e0 & ret & i & rest & Hfrom & _ & -> & -> & _)]].
  - auto.
  - now apply (get_next_socket_absent h d e r d1 e1).
  - assert (H0 : absent h d0 /\ never_accepts h e0).
    { destruct Hfrom as [(_ & -> & ->)|(Hcur & ret0 & _ & Hnext)]; [auto|].
      now apply (get_next_socket_absent h d e ret0 d0 e0). }
    destruct H0 as [Habs0 Hacc0]. split; [|exact Hacc0].
    destruct (ret =? - ENOTCONN); [now apply absent_dead | exact Habs0].
Qed.

Lemma iio_step_absent h d e reads r d1 e1 :
  absent h d -> never_accepts h e ->
  iio_step d e reads = Some (r, d1, e1) -> absent h d1.
Proof.
  intros [Hq Hcur] Hacc. unfold iio_step, tinyiiod_read_command.
  assert (Hreads : forall d0, absent h d0 ->
            read_requests reads (count_command d0) e = Some (r, d1, e1) -> absent h d1).
  { intros d0 H0 H.
    apply (read_requests_keeps (absent h) (never_accepts h) (network_read_absent h)
             (fun _ _ H => H) reads (count_command d0) e r d1 e1); auto. }
  destruct (current_sock d) as [|h'|] eqn:Hc.
  - apply Hreads. split; cbn; [exact Hq | discriminate].
  - unfold _push_sock, cb_write.
    destruct (List.length (sockets d) <? MAX_SOCKET_TO_HANDLE)%nat.
    + cbn [IS_ERR_VALUE SUCCESS Z.ltb Z.compare]. apply Hreads. split; cbn; [|discriminate].
      intros Hin. apply in_app_or in Hin. destruct Hin as [Hin|[<-|[]]]; [now apply Hq|].
      now apply Hcur.
    + cbn. intros H. injection H as _ <- _. split; cbn; [exact Hq | now rewrite Hc].
  - apply Hreads. split; cbn; [exact Hq | discriminate].
Qed.

Lemma iio_steps_absent h steps : forall d d2,
  Forall (fun st => never_accepts h (snd st)) steps ->
  absent h d -> iio_steps d steps = Some d2 -> absent h d2.
Proof.
  induction steps as [|[reads e] steps IH]; intros d d2 Hacc Habs H; cbn in H.
  - now injection H as <-.
  - inversion Hacc as [|st sts He Hrest]; subst.
    destruct (iio_step d e reads) as [[[r d1] e1]|] eqn:Hstep; [|discriminate].
    apply (IH d1 d2 Hrest); [|exact H].
    now apply (iio_step_absent h d e reads r d1 e1).
Qed.

(** *** Errors while reading *)

Lemma total_length_nonneg oks : 0 <= total_length oks.
Proof.
  induction oks as [|bs oks IH]; cbn [total_length fold_right]; [lia|].
  fold (total_length oks). unfold zlength. lia.
Qed.

Lemma recv_loop_error oks : forall data i c rest len,
  0 <= i -> i + total_length oks < len -> len < 2 ^ 32 ->
  recv_loop (map Received oks ++ RecvFailed c :: rest) data len i =
    Some (- Z.pos c, i + total_length oks, poke (received data i oks) 0 [42], rest).
Proof.
  induction oks as [|bs oks IH]; intros data i c rest len Hi Hlt Hlen.
  - cbn. now rewrite Z.add_0_r.
  - cbn [map app recv_loop total_length fold_right received] in *.
    fold (total_length oks) in *.
    pose proof (total_length_nonneg oks) as Hnn.
    assert (Hbs : 0 <= zlength bs) by (unfold zlength; lia).
    rewrite firstn_all2 by (unfold zlength in *; lia).
    unfold to_uint32, wrap_unsigned. rewrite Z.mod_small by lia.
    replace (i + zlength bs <? len) with true by (symmetry; apply Z.ltb_lt; lia).
    rewrite IH by lia. do 2 f_equal. f_equal. f_equal. lia.
Qed.

Lemma to_int32_small_count x : 0 <= x < 2 ^ 31 -> to_int32 x = x.
Proof.
  intros H. unfold to_int32, wrap_signed. change (2 ^ (32 - 1)) with (2 ^ 31).
  rewrite Z.mod_small by lia. destruct (Z.ltb_spec x (2 ^ 31)); lia.
Qed.

(** C9: while a connection [h] is read, whether it was in the slot when
    the read began or the read took it from the queue because the slot
    was empty, as it is for the first read of a dispatch step: after any
    successful partial receptions, an error ends the read, which marks
    the first byte of the destination with ['*'] and returns the count of
    bytes received so far.  If the error is [ENOTCONN], the connection is
    released and the slot becomes [Dead], the queue is untouched, the next
    dispatch step pushes nothing back, and as long as the transport does
    not hand out [h] again, [h] is neither queued nor current after any
    number of steps.  Any other error leaves the descriptor as it is.
    [d0] and [e0] are the descriptor and the transport once [h] is in the
    slot. *)
Theorem C9_read_error_handling d e data len h oks c rest d0 e0 :
  (current_sock d = Active h /\ d0 = d /\ e0 = e) \/
  (current_sock d = Empty /\ _get_next_socket d e = Some (SUCCESS, d0, e0) /\
   current_sock d0 = Active h) ->
  recvs e0 = map Received oks ++ RecvFailed c :: rest ->
  0 <= len < 2 ^ 31 ->
  total_length oks < len ->
  let d1 := if Z.pos c =? ENOTCONN
            then set_current Dead (socket_remove_current d0) else d0 in
  network_read d e data len =
    Some (total_length oks, 42 :: skipn 1 (received data 0 oks), d1, set_recvs rest e0) /\
  (Z.pos c = ENOTCONN ->
     current_sock d1 = Dead /\ removed d1 = h :: removed d0 /\ sockets d1 = sockets d0 /\
     (forall e2 reads,
        iio_step d1 e2 reads = tinyiiod_read_command reads (set_current Empty d1) e2) /\
     (~ In h (sockets d0) ->
      forall steps d2,
        Forall (fun st => never_accepts h (snd st)) steps ->
        iio_steps d1 steps = Some d2 ->
        ~ In h (sockets d2) /\ current_sock d2 <> Active h)) /\
  (Z.pos c <> ENOTCONN -> d1 = d0).
Proof.
  intros Hfrom Hrecvs Hlen Htot d1.
  pose proof (total_length_nonneg oks) as Hnn.
  assert (Hslot : current_sock d0 = Active h /\
                  network_read d e data len = network_read d0 e0 data len).
  { destruct Hfrom as [(Hcur & -> & ->) | (Hcur & Hnext & Hcur0)];
      [split; [exact Hcur | reflexivity]|].
    split; [exact Hcur0|].
    now destruct (network_read_after_pop d e data len SUCCESS d0 e0 Hcur Hnext eq_refl). }
  destruct Hslot as [Hcur Hread].
  split; [|split].
  - rewrite Hread. unfold network_read. rewrite Hcur.
    cbn [IS_ERR_VALUE SUCCESS Z.ltb Z.compare].
    rewrite Hrecvs, recv_loop_error by lia.
    rewrite Z.add_0_l, to_int32_small_count by lia.
    replace (- Z.pos c =? - ENOTCONN) with (Z.pos c =? ENOTCONN)
      by (destruct (Z.eqb_spec (Z.pos c) ENOTCONN), (Z.eqb_spec (- Z.pos c) (- ENOTCONN));
          lia || reflexivity).
    reflexivity.
  - intros Hc. subst d1. rewrite Hc, Z.eqb_refl.
    cbn [current_sock removed sockets set_current socket_remove_current].
    rewrite Hcur.
    split; [reflexivity|]. split; [reflexivity|]. split; [reflexivity|].
    split; [intros e2 reads; reflexivity|].
    intros Hq steps d2 Hacc Hrun.
    apply (iio_steps_absent h steps (set_current Dead (socket_remove_current d0)) d2 Hacc);
      [|exact Hrun].
    split; cbn; [exact Hq | discriminate].
  - intros Hc. subst d1. apply Z.eqb_neq in Hc. now rewrite Hc.
Qed.

(** *** Two connections take turns *)

Lemma serving_stays h d e data len r data1 d1 e1 :
  current_sock d = Active h -> no_disconnect e ->
  network_read d e data len = Some (r, data1, d1, e1) ->
  d1 = d /\ no_disconnect e1.
Proof.
  intros Hcur Hno H.
  destruct (network_read_spec _ _ _ _ _ _ _ _ H)
    as [(Hd & _)|[(He & _)|(d0 & e0 & ret & i & rest & Hfrom & Hrecv & -> & -> & _)]];
    try congruence.
  destruct Hfrom as [(_ & -> & ->)|(He & _)]; [|congruence].
  destruct (recv_loop_spec _ _ _ _ _ _ _ _ Hrecv) as (used & Hused & Hret).
  assert (Hne : (ret =? - ENOTCONN) = false).
  { apply Z.eqb_neq. intros Heq. apply Hno. rewrite Hused.
    apply in_or_app. left. now apply Hret. }
  rewrite Hne. split; [reflexivity|].
  unfold no_disconnect in *. cbn. intros Hin. apply Hno. rewrite Hused.
  apply in_or_app. now right.
Qed.

Lemma serving_reads_stay h d0 reads : forall e r d1 e1,
  current_sock d0 = Active h -> no_disconnect e ->
  read_requests reads d0 e = Some (r, d1, e1) -> d1 = d0.
Proof.
  intros e r d1 e1 Hcur Hno H.
  apply (read_requests_keeps (fun d => d = d0) no_disconnect) in H; auto.
  - tauto.
  - intros d e' data len r' data1 d1' e1' -> Hno' Hrd.
    now apply (serving_stays h d0 e' data len r' data1 d1' e1').
Qed.

Lemma quiet_step a b d e reads r d1 e1 :
  phy_type d = USE_NETWORK -> current_sock d = Active a -> sockets d = [b] ->
  quiet (reads, e) ->
  iio_step d e reads = Some (r, d1, e1) ->
  phy_type d1 = USE_NETWORK /\ current_sock d1 = Active b /\ sockets d1 = [a].
Proof.
  intros Hphy Hcur Hq (Hreads & (rest & Hacc) & Hno) Hstep.
  destruct d as [phy q cur rem cmds]. cbn in Hphy, Hcur, Hq, Hreads, Hacc, Hno. subst.
  destruct reads as [|n reads]; [congruence|].
  unfold iio_step, tinyiiod_read_command in Hstep.
  cbn [current_sock _push_sock cb_write sockets List.length Nat.ltb Nat.leb
       MAX_SOCKET_TO_HANDLE app IS_ERR_VALUE SUCCESS Z.ltb Z.compare set_sockets
       set_current count_command phy_type removed commands read_requests
       iio_phy_read] in Hstep.
  unfold network_read, _get_next_socket in Hstep.
  cbn [current_sock] in Hstep. rewrite Hacc in Hstep.
  cbn in Hstep.
  destruct (recv_loop (recvs e) _ n 0) as [[[[ret i] dat] rest']|] eqn:Hrecv;
    [|discriminate].
  destruct (recv_loop_spec _ _ _ _ _ _ _ _ Hrecv) as (used & Hused & Hret).
  assert (Hne : (ret =? - ENOTCONN) = false).
  { apply Z.eqb_neq. intros Heq. apply Hno. rewrite Hused.
    apply in_or_app. left. now apply Hret. }
  unfold ENOTCONN in Hne. cbn in Hne. rewrite Hne in Hstep.
  destruct (to_int32 i <? 0).
  - injection Hstep as <- <- <-. auto.
  - apply (serving_reads_stay b) in Hstep; [subst d1; auto | reflexivity |].
    unfold no_disconnect in *. cbn. intros Hin. apply Hno. rewrite Hused.
    apply in_or_app. now right.
Qed.

Lemma take_turns steps : forall a b d d',
  phy_type d = USE_NETWORK -> current_sock d = Active a -> sockets d = [b] ->
  Forall quiet steps ->
  iio_steps d steps = Some d' ->
  (current_sock d', sockets d') =
    if Nat.even (List.length steps) then (Active a, [b]) else (Active b, [a]).
Proof.
  induction steps as [|[reads e] steps IH]; intros a b d d' Hphy Hcur Hq Hquiet H.
  - cbn in *. injection H as <-. now rewrite Hcur, Hq.
  - inversion Hquiet as [|st sts Hst Hrest]; subst.
    cbn [iio_steps] in H.
    destruct (iio_step d e reads) as [[[r d1] e1]|] eqn:Hstep; [|discriminate].
    destruct (quiet_step a b d e reads r d1 e1 Hphy Hcur Hq Hst Hstep) as (Hp1 & Hc1 & Hq1).
    rewrite (IH b a d1 d' Hp1 Hc1 Hq1 Hrest H).
    cbn [List.length]. rewrite Nat.even_succ, <- Nat.negb_even.
    now destruct (Nat.even (List.length steps)).
Qed.

Lemma answered_read h d e n bs rs data :
  current_sock d = Active h ->
  recvs e = Received bs :: rs ->
  0 <= n < 2 ^ 31 -> n <= zlength bs ->
  exists data1, network_read d e data n = Some (n, data1, d, set_recvs rs e).
Proof.
  intros Hcur Hrecvs Hn Hbs. unfold network_read. rewrite Hcur.
  cbn [IS_ERR_VALUE SUCCESS Z.ltb Z.compare]. rewrite Hrecvs. cbn [recv_loop].
  assert (Hgot : zlength (firstn (Z.to_nat (n - 0)) bs) = n).
  { unfold zlength in *. rewrite length_firstn. lia. }
  rewrite Hgot. unfold to_uint32, wrap_unsigned. rewrite Z.add_0_l, Z.mod_small by lia.
  rewrite Z.ltb_irrefl.
  replace (n =? - ENOTCONN) with false by (symmetry; apply Z.eqb_neq; unfold ENOTCONN; lia).
  rewrite to_int32_small_count by lia. eexists. reflexivity.
Qed.

Lemma answered_reads h d reads : forall e,
  phy_type d = USE_NETWORK -> current_sock d = Active h ->
  answered (reads, e) ->
  exists r e1, read_requests reads d e = Some (r, d, e1).
Proof.
  unfold answered. cbn [fst snd].
  induction reads as [|n reads IH]; intros e Hphy Hcur Hans.
  - cbn. eauto.
  - inversion Hans as [|n' r' ns rs (Hn & bs & -> & Hbs) Hrest Hns Hrs]; subst.
    cbn [read_requests]. unfold iio_phy_read. rewrite Hphy.
    destruct (answered_read h d e n bs rs (repeat 0 (Z.to_nat (Z.max n 1))) Hcur
                (eq_sym Hrs) Hn Hbs) as (data1 & ->).
    replace (n <? 0) with false by (symmetry; apply Z.ltb_ge; lia).
    apply IH; auto.
Qed.

Lemma answered_step a b d e reads :
  phy_type d = USE_NETWORK -> current_sock d = Active a -> sockets d = [b] ->
  quiet (reads, e) -> answered (reads, e) ->
  exists r d1 e1, iio_step d e reads = Some (r, d1, e1).
Proof.
  intros Hphy Hcur Hq (Hreads & (rest & Hacc) & Hno) Hans.
  destruct d as [phy q cur rem cmds]. cbn in Hphy, Hcur, Hq, Hreads, Hacc, Hno. subst.
  unfold answered in Hans. cbn [fst snd] in Hans.
  destruct reads as [|n reads]; [congruence|].
  inversion Hans as [|n' r' ns rs (Hn & bs & -> & Hbs) Hrest Hns Hrs]; subst.
  unfold iio_step, tinyiiod_read_command.
  cbn [current_sock _push_sock cb_write sockets List.length Nat.ltb Nat.leb
       MAX_SOCKET_TO_HANDLE app IS_ERR_VALUE SUCCESS Z.ltb Z.compare set_sockets
       set_current count_command phy_type removed commands read_requests
       iio_phy_read].
  unfold network_read, _get_next_socket.
  cbn [current_sock]. rewrite Hacc. cbn -[recv_loop to_int32 Z.max Z.to_nat repeat].
  rewrite <- Hrs. cbn [recv_loop].
  assert (Hgot : zlength (firstn (Z.to_nat (n - 0)) bs) = n).
  { unfold zlength in *. rewrite length_firstn. lia. }
  rewrite Hgot. unfold to_uint32, wrap_unsigned. rewrite Z.add_0_l, Z.mod_small by lia.
  rewrite Z.ltb_irrefl.
  assert (Hne : (n =? -128) = false) by (apply Z.eqb_neq; lia).
  rewrite Hne.
  rewrite to_int32_small_count by lia.
  replace (n <? 0) with false by (symmetry; apply Z.ltb_ge; lia).
  match goal with
  | |- exists r d1 e1, read_requests reads ?D ?E = _ =>
      destruct (answered_reads b D reads E eq_refl eq_refl Hrest) as (r & e1 & ->)
  end.
  eauto.
Qed.

Lemma answered_steps steps : forall a b d,
  phy_type d = USE_NETWORK -> current_sock d = Active a -> sockets d = [b] ->
  Forall quiet steps -> Forall answered steps ->
  exists d', iio_steps d steps = Some d'.
Proof.
  induction steps as [|[reads e] steps IH]; intros a b d Hphy Hcur Hq Hquiet Hans.
  - cbn. eauto.
  - inversion Hquiet as [|st sts Hst Hrest]; subst.
    inversion Hans as [|st sts Ha Harest]; subst.
    destruct (answered_step a b d e reads Hphy Hcur Hq Hst Ha) as (r & d1 & e1 & Hstep).
    cbn [iio_steps]. rewrite Hstep.
    destruct (quiet_step a b d e reads r d1 e1 Hphy Hcur Hq Hst Hstep) as (Hp1 & Hc1 & Hq1).
    now apply (IH b a d1).
Qed.

(** C8: in every descriptor a server reaches, a dispatch step that
    starts with the slot [Active h] runs the command reader on the
    descriptor in which [h] is at the tail of the queue and the slot is
    [Empty].  And with [c1] current and [c2] queued, over steps during
    which nobody connects or disconnects, the current connection after
    the steps is [c1] after an even number of them and [c2] after an odd
    number, the other one being queued; such steps do complete when their
    reads are answered. *)
Theorem C8_rotation_is_round_robin phy d0 e0 reads0 h c1 c2 d steps :
  reachable phy d0 ->
  current_sock d0 = Active h ->
  phy_type d = USE_NETWORK ->
  current_sock d = Active c1 ->
  sockets d = [c2] ->
  Forall quiet steps ->
  iio_step d0 e0 reads0 =
    tinyiiod_read_command reads0
      (set_current Empty (set_sockets (sockets d0 ++ [h]) d0)) e0 /\
  (forall d', iio_steps d steps = Some d' ->
     (current_sock d', sockets d') =
       if Nat.even (List.length steps) then (Active c1, [c2]) else (Active c2, [c1])) /\
  (Forall answered steps -> exists d', iio_steps d steps = Some d').
Proof.
  intros Hreach Hcur0 Hphy Hcur Hq Hquiet. split; [|split].
  - now apply (step_rotates phy).
  - intros d'. now apply take_turns.
  - intros Hans. now apply (answered_steps steps c1 c2).
Qed.

Lemma serving_first_reachable : reachable USE_NETWORK serving_first.
Proof.
  apply (reachable_step USE_NETWORK (iio_init_desc USE_NETWORK) first_client [1]
           SUCCESS serving_first (set_recvs [] (set_accepts [] first_client))).
  - apply reachable_init.
  - reflexivity.
Qed.

Lemma one_byte_quiet : quiet one_byte.
Proof.
  split; [discriminate|]. split; [now exists []|].
  intros [H|[]]. discriminate.
Qed.

Lemma one_byte_answered : answered one_byte.
Proof.
  constructor; [|constructor]. split; [lia|]. exists [80]. split; [reflexivity|].
  unfold zlength. cbn. lia.
Qed.

(** C8 on a server that serves its first client, and on three steps of
    two clients. *)
Lemma C8_witness :
  iio_step serving_first first_client [1] =
    tinyiiod_read_command [1]
      (set_current Empty (set_sockets (sockets serving_first ++ [1%nat]) serving_first))
      first_client /\
  (forall d', iio_steps two_clients [one_byte; one_byte; one_byte] = Some d' ->
     (current_sock d', sockets d') = (Active 2%nat, [1%nat])) /\
  (Forall answered [one_byte; one_byte; one_byte] ->
   exists d', iio_steps two_clients [one_byte; one_byte; one_byte] = Some d').
Proof.
  apply (C8_rotation_is_round_robin USE_NETWORK serving_first first_client [1] 1%nat
           1%nat 2%nat two_clients [one_byte; one_byte; one_byte]).
  - exact serving_first_reachable.
  - reflexivity.
  - reflexivity.
  - reflexivity.
  - reflexivity.
  - repeat constructor; apply one_byte_quiet.
Defined.

Example three_turns :
  iio_steps two_clients [one_byte; one_byte; one_byte] =
    Some {| phy_type := USE_NETWORK; sockets := [1%nat]; current_sock := Active 2%nat;
            removed := []; commands := 3 |}.
Proof. reflexivity. Qed.

(** C9 on the first read of a step: the slot is empty, the read takes
    connection 1 from the queue, and the peer resets it after two bytes
    of a read of eight. *)
Lemma C9_witness :
  let d1 := set_current Dead (socket_remove_current two_clients) in
  network_read two_waiting reset_on_first_read (repeat 0 8) 8 =
    Some (2, [42; 82; 0; 0; 0; 0; 0; 0], d1,
          set_recvs [Received [73]] (set_accepts [] reset_on_first_read)) /\
  (Z.pos 128 = ENOTCONN ->
     current_sock d1 = Dead /\ removed d1 = 1%nat :: removed two_clients /\
     sockets d1 = sockets two_clients /\
     (forall e2 reads,
        iio_step d1 e2 reads = tinyiiod_read_command reads (set_current Empty d1) e2) /\
     (~ In 1%nat (sockets two_clients) ->
      forall steps d2,
        Forall (fun st => never_accepts 1 (snd st)) steps ->
        iio_steps d1 steps = Some d2 ->
        ~ In 1%nat (sockets d2) /\ current_sock d2 <> Active 1)) /\
  (Z.pos 128 <> ENOTCONN -> d1 = two_clients).
Proof.
  apply (C9_read_error_handling two_waiting reset_on_first_read (repeat 0 8) 8 1%nat
           [[80; 82]] 128%positive [Received [73]] two_clients
           (set_accepts [] reset_on_first_read)).
  - right. split; [reflexivity|]. split; reflexivity.
  - reflexivity.
  - lia.
  - vm_compute. reflexivity.
Defined.

(** The same reset seen on a connection that was in the slot. *)
Example reset_on_current_connection :
  network_read two_clients reset_by_peer (repeat 0 8) 8 =
    Some (2, [42; 82; 0; 0; 0; 0; 0; 0],
          set_current Dead (socket_remove_current two_clients),
          set_recvs [Received [73]] reset_by_peer).
Proof. reflexivity. Qed.

Example after_reset_second_client_is_served :
  exists d2,
    iio_steps (set_current Dead (socket_remove_current two_clients)) [one_byte; one_byte]
      = Some d2 /\
    current_sock d2 = Active 2%nat /\ sockets d2 = [] /\ removed d2 = [1%nat].
Proof. eexists. split; [reflexivity|]. repeat split. Qed.

End MultiplexerFacts.

(* ------------------------------------------------------------------ *)
(** ** The life cycle of a device: registration, opening, capture *)

Module LifecycleFacts.
Import Sample SampleBulk RegistryFacts.

Section Lifecycle.
Context {Dev : Type}.
Implicit Types (w : world Dev) (l : list (iio_interface Dev)) (ifc x : iio_interface Dev).

Lemma find_update_other device other (g : iio_interface Dev -> iio_interface Dev) l :
  (forall i, name (g i) = name i) ->
  other <> device ->
  find (fun i => String.eqb other (name i)) (update_interface device g l) =
  find (fun i => String.eqb other (name i)) l.
Proof.
  intros Hg Hne. induction l as [|i l IH]; [reflexivity|].
  cbn [update_interface]. destruct (String.eqb device (name i)) eqn:Ed.
  - cbn [find]. rewrite Hg.
    apply String.eqb_eq in Ed. subst device.
    apply String.eqb_neq in Hne. now rewrite Hne.
  - cbn [find]. now rewrite IH.
Qed.

Lemma find_append (f : iio_interface Dev -> bool) l1 l2 :
  find f (l1 ++ l2) = match find f l1 with Some i => Some i | None => find f l2 end.
Proof.
  induction l1 as [|i l1 IH]; [reflexivity|]. cbn. now destruct (f i).
Qed.

Lemma lookup_after_update device other g w :
  (forall i, name (g i) = name i) ->
  other <> device ->
  iio_get_interface other (iio_interfaces (update_registry device g w)) =
  iio_get_interface other (iio_interfaces w).
Proof.
  intros Hg Hne. unfold update_registry.
  destruct (iio_interfaces w) as [|l| |] eqn:Hw; try now rewrite Hw.
  cbn. now rewrite find_update_other.
Qed.

(** X1.  Registration followed by lookup.  On a registry that is empty
    ([l = []], the global still NULL) or holds the interfaces [l], fewer
    than 255 of them, [iio_register] succeeds, leaves the device
    instances alone, and a lookup by name afterwards finds what it found
    before and, for a name none of the older interfaces has, the new
    interface if it has that name.  An interface registered under a name
    that is taken is therefore never found. *)
Theorem register_then_lookup w l x device :
  (iio_interfaces w = RegNull /\ l = []) \/
  (iio_interfaces w = RegLive l /\ (List.length l < 255)%nat) ->
  exists w',
    iio_register true true x w = Ret (SUCCESS, w') /\
    iio_get_interface device (iio_interfaces w') =
      Ret (match find (fun i => String.eqb device (name i)) l with
           | Some i => Some i
           | None => if String.eqb device (name x) then Some x else None
           end) /\
    devices w' = devices w.
Proof.
  intros [[Hw ->]|[Hw Hlen]]; unfold iio_register; rewrite Hw; cbn [negb].
  - eexists. split; [reflexivity|]. split; [|reflexivity].
    cbn. now destruct (String.eqb device (name x)).
  - replace (List.length l =? 255)%nat with false by (symmetry; apply Nat.eqb_neq; lia).
    eexists. split; [reflexivity|]. split; [|reflexivity].
    cbn [iio_interfaces set_registry iio_get_interface].
    f_equal. rewrite find_append.
    destruct (find _ l); [reflexivity|]. cbn. now destruct (String.eqb device (name x)).
Qed.

(** X2.  Closing a registered device succeeds and clears its channel
    mask: [iio_get_mask] reports 0 afterwards.  The interfaces of other
    names, the device instances and the record of handler calls are as
    before. *)
Theorem close_clears_mask w l device ifc :
  iio_interfaces w = RegLive l ->
  find (fun i => String.eqb device (name i)) l = Some ifc ->
  exists w',
    iio_close_dev device w = Ret (SUCCESS, w') /\
    (forall m0, iio_get_mask device m0 w' = Ret (SUCCESS, 0)) /\
    (forall other, other <> device ->
       iio_get_interface other (iio_interfaces w') =
       iio_get_interface other (iio_interfaces w)) /\
    devices w' = devices w /\ calls w' = calls w.
Proof.
  intros Hw Hf. unfold iio_close_dev.
  rewrite (supported_live w l device ifc Hw Hf). cbn [bind negb].
  rewrite Hw. cbn [iio_get_interface bind]. rewrite Hf. cbn [deref bind].
  eexists. split; [reflexivity|].
  assert (Hlook : iio_get_interface device
                    (iio_interfaces (update_registry device (set_ch_mask 0) w)) =
                  Ret (Some (set_ch_mask 0 ifc))).
  { unfold update_registry. rewrite Hw. cbn.
    rewrite find_update_interface by reflexivity. now rewrite Hf. }
  split; [|split; [|split]].
  - intros m0. unfold iio_get_mask, iio_supported_dev. rewrite Hlook. reflexivity.
  - intros other Hne. rewrite lookup_after_update; [now rewrite Hw | reflexivity | exact Hne].
  - unfold update_registry. now rewrite Hw.
  - unfold update_registry. now rewrite Hw.
Qed.

(** X3.  A device name the registry does not hold is refused by every
    entry point that checks it, each with its own code and without any
    effect: [-ENODEV] from [iio_open_dev], [iio_get_mask] (which leaves
    the caller's mask alone), [iio_write_attr] and [iio_ch_write_attr],
    [FAILURE] from [iio_close_dev], [iio_read_attr] and
    [iio_ch_read_attr]. *)
Theorem unknown_device_is_refused w device sample_size mask m0 channel out attr buf len garbage :
  iio_get_interface device (iio_interfaces w) = Ret None ->
  iio_open_dev device sample_size mask w = Ret (- ENODEV, w) /\
  iio_close_dev device w = Ret (FAILURE, w) /\
  iio_get_mask device m0 w = Ret (- ENODEV, m0) /\
  iio_read_attr device attr buf len garbage w = Ret (FAILURE, buf, w) /\
  iio_write_attr device attr buf len garbage w = Ret (- ENODEV, buf, w) /\
  iio_ch_read_attr device channel out attr buf len w = Ret (FAILURE, buf, w) /\
  iio_ch_write_attr device channel out attr buf len w = Ret (- ENODEV, buf, w).
Proof.
  intros H.
  unfold iio_open_dev, iio_close_dev, iio_get_mask, iio_read_attr, iio_write_attr,
    iio_ch_read_attr, iio_ch_write_attr, iio_supported_dev.
  rewrite H. cbn [bind negb].
  split; [reflexivity|]. split; [reflexivity|]. split; [reflexivity|].
  split; [reflexivity|]. split; [reflexivity|]. split; reflexivity.
Qed.

Lemma open_outcomes w device sample_size mask r w' :
  iio_open_dev device sample_size mask w = Ret (r, w') ->
  (r = SUCCESS /\ w' = update_registry device (set_ch_mask mask) w /\
   exists l ifc, iio_interfaces w = RegLive l /\
     find (fun i => String.eqb device (name i)) l = Some ifc) \/
  (r <> SUCCESS /\ w' = w).
Proof.
  unfold iio_open_dev, iio_supported_dev.
  destruct (iio_interfaces w) as [|l| |] eqn:Hw; cbn [iio_get_interface bind negb deref];
    try discriminate;
    try (intros H; injection H as <- <-; right; split; [discriminate | reflexivity]).
  destruct (find (fun i => String.eqb device (name i)) l) as [ifc|] eqn:Hf;
    cbn [bind negb deref];
    [|intros H; injection H as <- <-; right; split; [discriminate | reflexivity]].
  destruct (iio ifc) as [dev|]; cbn [bind deref]; [|discriminate].
  destruct (shr32 4294967295 (32 - num_ch dev)) as [valid|u]; cbn [bind]; [|discriminate].
  destruct (negb _); intros H; injection H as <- <-.
  - right. split; [discriminate | reflexivity].
  - left. split; [reflexivity|]. split; [reflexivity|]. now exists l, ifc.
Qed.

Lemma open_returns w device sample_size mask :
  iio_interfaces w <> RegInvalid ->
  (forall ifc,
     iio_get_interface device (iio_interfaces w) = Ret (Some ifc) ->
     exists dev, iio ifc = Some dev /\ 0 < num_ch dev <= 32) ->
  exists r w', iio_open_dev device sample_size mask w = Ret (r, w').
Proof.
  intros Hlive Hdev. unfold iio_open_dev, iio_supported_dev.
  destruct (iio_interfaces w) as [|l| |] eqn:Hw; cbn [iio_get_interface bind negb deref];
    [eauto | | congruence | eauto].
  cbn [iio_get_interface] in Hdev.
  destruct (find (fun i => String.eqb device (name i)) l) as [ifc|] eqn:Hf;
    cbn [bind negb deref]; [|eauto].
  destruct (Hdev ifc eq_refl) as (dev & -> & Hn). cbn [bind deref].
  unfold shr32.
  replace ((0 <=? 32 - num_ch dev) && (32 - num_ch dev <? 32)) with true
    by (symmetry; apply andb_true_iff; split; [apply Z.leb_le | apply Z.ltb_lt]; lia).
  cbn [bind]. destruct (negb _); eauto.
Qed.

(** X4.  What [iio_open_dev] changes.  It returns whenever the registry
    has not been freed and the interface of the device, if there is one,
    has a descriptor of 1 to 32 channels.  When it returns [SUCCESS] the
    interface found under the device name is as before except for its
    channel mask, which is the mask given: name, device instance,
    descriptor and callbacks are kept, and nothing else in the registry
    is touched.  When it returns anything else nothing has changed.  In
    both cases interfaces of other names are found as before, the device
    instances, the record of handler calls and the stack are unchanged,
    and the result does not depend on [sample_size]. *)
Theorem open_touches_one_mask w device sample_size mask :
  (iio_interfaces w <> RegInvalid ->
   (forall ifc,
      iio_get_interface device (iio_interfaces w) = Ret (Some ifc) ->
      exists dev, iio ifc = Some dev /\ 0 < num_ch dev <= 32) ->
   exists r w', iio_open_dev device sample_size mask w = Ret (r, w')) /\
  (forall r w',
     iio_open_dev device sample_size mask w = Ret (r, w') ->
     ((r = SUCCESS /\ w' = update_registry device (set_ch_mask mask) w /\
       exists ifc,
         iio_get_interface device (iio_interfaces w) = Ret (Some ifc) /\
         iio_get_interface device (iio_interfaces w') =
           Ret (Some {| name := name ifc; dev_instance := dev_instance ifc; iio := iio ifc;
                        ch_mask := mask;
                        transfer_dev_to_mem := transfer_dev_to_mem ifc;
                        read_data := read_data ifc;
                        transfer_mem_to_dev := transfer_mem_to_dev ifc;
                        write_data := write_data ifc;
                        get_xml := get_xml ifc |})) \/
      (r <> SUCCESS /\ w' = w)) /\
     (forall other, other <> device ->
        iio_get_interface other (iio_interfaces w') =
        iio_get_interface other (iio_interfaces w)) /\
     devices w' = devices w /\ calls w' = calls w /\ stack w' = stack w /\
     (forall sample_size', iio_open_dev device sample_size' mask w = Ret (r, w'))).
Proof.
  split; [apply open_returns|].
  intros r w' H. split; [|split; [|split; [|split; [|split]]]].
  - destruct (open_outcomes _ _ _ _ _ _ H) as [(-> & -> & l & ifc & Hw & Hf) | Hfail];
      [left | now right].
    split; [reflexivity|]. split; [reflexivity|]. exists ifc.
    split; [rewrite Hw; cbn; now rewrite Hf|].
    unfold update_registry. rewrite Hw. cbn.
    rewrite find_update_interface by reflexivity. now rewrite Hf.
  - intros other Hne.
    destruct (open_outcomes _ _ _ _ _ _ H) as [(_ & -> & _) | (_ & ->)]; [|reflexivity].
    now apply lookup_after_update.
  - destruct (open_outcomes _ _ _ _ _ _ H) as [(_ & -> & _) | (_ & ->)]; [|reflexivity].
    unfold update_registry. now destruct (iio_interfaces w).
  - destruct (open_outcomes _ _ _ _ _ _ H) as [(_ & -> & _) | (_ & ->)]; [|reflexivity].
    unfold update_registry. now destruct (iio_interfaces w).
  - destruct (open_outcomes _ _ _ _ _ _ H) as [(_ & -> & _) | (_ & ->)]; [|reflexivity].
    unfold update_registry. now destruct (iio_interfaces w).
  - intros sample_size'. exact H.
Qed.

Lemma open_accepts w l device ifc dev sample_size mask :
  iio_interfaces w = RegLive l ->
  find (fun i => String.eqb device (name i)) l = Some ifc ->
  iio ifc = Some dev ->
  1 <= num_ch dev <= 32 ->
  0 <= mask < 2 ^ 32 ->
  (forall i, num_ch dev <= i -> Z.testbit mask i = false) ->
  iio_open_dev device sample_size mask w =
    Ret (SUCCESS, update_registry device (set_ch_mask mask) w) /\
  iio_get_interface device (iio_interfaces (update_registry device (set_ch_mask mask) w)) =
    Ret (Some (set_ch_mask mask ifc)).
Proof.
  intros Hw Hf Hdev Hn Hm Hbits. split.
  - unfold iio_open_dev. rewrite (supported_live w l device ifc Hw Hf).
    cbn [bind negb]. rewrite Hw. cbn [iio_get_interface bind]. rewrite Hf.
    cbn [deref bind]. rewrite Hdev. cbn [deref bind].
    rewrite (valid_mask_ones _ Hn). cbn [bind].
    now rewrite (proj2 (mask_outside_bits (num_ch dev) mask Hn Hm) Hbits).
  - unfold update_registry. rewrite Hw. cbn.
    rewrite find_update_interface by reflexivity. now rewrite Hf.
Qed.

(** X5.  The capture sequence of a client: open, transfer to memory,
    read.  Once [iio_open_dev] has accepted a mask, the
    [transfer_dev_to_mem] callback and then the [read_data] callback of
    the device are called with that mask, each on the device instance as
    the call before left it; their results are returned as they are, and
    the two calls are recorded in this order. *)
Theorem open_transfer_read w l device ifc dev f g sample_size mask bytes_count
    pbuf offset count :
  iio_interfaces w = RegLive l ->
  find (fun i => String.eqb device (name i)) l = Some ifc ->
  iio ifc = Some dev ->
  1 <= num_ch dev <= 32 ->
  0 <= mask < 2 ^ 32 ->
  (forall i, num_ch dev <= i -> Z.testbit mask i = false) ->
  transfer_dev_to_mem ifc = Some f ->
  read_data ifc = Some g ->
  let p := dev_instance ifc in
  let t := f (devices w p) bytes_count mask in
  let r := g (snd t) pbuf offset count mask in
  exists w1 w2 w3,
    iio_open_dev device sample_size mask w = Ret (SUCCESS, w1) /\
    iio_transfer_dev_to_mem device bytes_count w1 = Ret (fst t, w2) /\
    iio_read_dev device pbuf offset count w2 = Ret (fst (fst r), snd (fst r), w3) /\
    devices w3 p = snd r /\
    calls w3 = calls w ++ [BulkCall TransferDevToMem device 0 bytes_count mask;
                           BulkCall ReadData device offset count mask].
Proof.
  intros Hw Hf Hdev Hn Hm Hbits Hcb Hrd p t r.
  destruct (open_accepts w l device ifc dev sample_size mask Hw Hf Hdev Hn Hm Hbits)
    as [Hopen Hlook].
  set (w1 := update_registry device (set_ch_mask mask) w) in *.
  assert (Hd1 : devices w1 = devices w /\ calls w1 = calls w).
  { unfold w1, update_registry. rewrite Hw. split; reflexivity. }
  destruct Hd1 as [Hd1 Hc1].
  set (w2 := log_calls [BulkCall TransferDevToMem device 0 bytes_count mask]
              (set_device p (snd t) w1)).
  set (w3 := log_calls [BulkCall ReadData device offset count mask]
              (set_device p (snd r) w2)).
  exists w1, w2, w3. split; [exact Hopen|].
  assert (Hlook2 : iio_get_interface device (iio_interfaces w2) =
                   Ret (Some (set_ch_mask mask ifc))) by exact Hlook.
  assert (Hd2 : devices w2 p = snd t).
  { unfold w2. cbn [devices log_calls set_device]. now rewrite Nat.eqb_refl. }
  unfold iio_transfer_dev_to_mem, iio_read_dev. rewrite Hlook, Hlook2.
  cbn [bind deref transfer_dev_to_mem set_ch_mask ch_mask dev_instance read_data].
  rewrite Hcb, Hrd, Hd1. fold p. rewrite Hd2. fold t. fold r.
  split; [now destruct t|].
  split; [now destruct r as [[r2 pbuf2] d2]|].
  split.
  - unfold w3. cbn [devices log_calls set_device]. now rewrite Nat.eqb_refl.
  - unfold w3, w2. cbn [calls log_calls set_device]. rewrite Hc1.
    now rewrite <- app_assoc.
Qed.

(** X6.  The playback sequence of a client: open, write, transfer to
    the device.  Once [iio_open_dev] has accepted a mask, the
    [write_data] callback and then the [transfer_mem_to_dev] callback of
    the device are called with that mask, each on the device instance as
    the call before left it; their results are returned as they are, and
    the two calls are recorded in this order. *)
Theorem open_write_transfer w l device ifc dev f g sample_size mask bytes_count
    buf offset count :
  iio_interfaces w = RegLive l ->
  find (fun i => String.eqb device (name i)) l = Some ifc ->
  iio ifc = Some dev ->
  1 <= num_ch dev <= 32 ->
  0 <= mask < 2 ^ 32 ->
  (forall i, num_ch dev <= i -> Z.testbit mask i = false) ->
  write_data ifc = Some g ->
  transfer_mem_to_dev ifc = Some f ->
  let p := dev_instance ifc in
  let r := g (devices w p) buf offset count mask in
  let t := f (snd r) bytes_count mask in
  exists w1 w2 w3,
    iio_open_dev device sample_size mask w = Ret (SUCCESS, w1) /\
    iio_write_dev device buf offset count w1 = Ret (fst r, w2) /\
    iio_transfer_mem_to_dev device bytes_count w2 = Ret (fst t, w3) /\
    devices w3 p = snd t /\
    calls w3 = calls w ++ [BulkCall WriteData device offset count mask;
                           BulkCall TransferMemToDev device 0 bytes_count mask].
Proof.
  intros Hw Hf Hdev Hn Hm Hbits Hwr Hcb p r t.
  destruct (open_accepts w l device ifc dev sample_size mask Hw Hf Hdev Hn Hm Hbits)
    as [Hopen Hlook].
  set (w1 := update_registry device (set_ch_mask mask) w) in *.
  assert (Hd1 : devices w1 = devices w /\ calls w1 = calls w).
  { unfold w1, update_registry. rewrite Hw. split; reflexivity. }
  destruct Hd1 as [Hd1 Hc1].
  set (w2 := log_calls [BulkCall WriteData device offset count mask]
              (set_device p (snd r) w1)).
  set (w3 := log_calls [BulkCall TransferMemToDev device 0 bytes_count mask]
              (set_device p (snd t) w2)).
  exists w1, w2, w3. split; [exact Hopen|].
  assert (Hlook2 : iio_get_interface device (iio_interfaces w2) =
                   Ret (Some (set_ch_mask mask ifc))) by exact Hlook.
  assert (Hd2 : devices w2 p = snd r).
  { unfold w2. cbn [devices log_calls set_device]. now rewrite Nat.eqb_refl. }
  unfold iio_write_dev, iio_transfer_mem_to_dev. rewrite Hlook, Hlook2.
  cbn [bind deref transfer_mem_to_dev set_ch_mask ch_mask dev_instance write_data].
  rewrite Hcb, Hwr, Hd1. fold p. rewrite Hd2. fold r. fold t.
  split; [now destruct r|].
  split; [now destruct t|].
  split.
  - unfold w3. cbn [devices log_calls set_device]. now rewrite Nat.eqb_refl.
  - unfold w3, w2. cbn [calls log_calls set_device]. rewrite Hc1.
    now rewrite <- app_assoc.
Qed.

(** X7.  When the array of the registry cannot be enlarged,
    [iio_register] frees it and returns [-ENOMEM] while the global keeps
    pointing at the registry.  With fewer than 255 interfaces registered
    the count is then not zero, and every later lookup, and with it every
    entry point that starts with one, reads the freed array.  With 255
    interfaces the count has wrapped to zero: every later lookup finds
    nothing, and the next registration reallocates the freed array. *)
Theorem failed_growth_leaves_dangling_registry w l x struct_ok :
  iio_interfaces w = RegLive l ->
  exists w',
    iio_register struct_ok false x w = Ret (- ENOMEM, w') /\
    devices w' = devices w /\
    ((List.length l < 255)%nat ->
     forall device sample_size mask m0 n,
       iio_get_interface device (iio_interfaces w') = Undef UseAfterFree /\
       iio_supported_dev device w' = Undef UseAfterFree /\
       iio_open_dev device sample_size mask w' = Undef UseAfterFree /\
       iio_close_dev device w' = Undef UseAfterFree /\
       iio_get_mask device m0 w' = Undef UseAfterFree /\
       iio_transfer_dev_to_mem device n w' = Undef UseAfterFree) /\
    (List.length l = 255%nat ->
     forall device y s a,
       iio_get_interface device (iio_interfaces w') = Ret None /\
       iio_supported_dev device w' = Ret false /\
       iio_register s a y w' = Undef UseAfterFree).
Proof.
  intros Hw. unfold iio_register. rewrite Hw. cbn [negb].
  eexists. split; [reflexivity|]. split; [reflexivity|]. split.
  - intros Hlen device sample_size mask m0 n.
    unfold iio_open_dev, iio_close_dev, iio_get_mask, iio_transfer_dev_to_mem,
      iio_supported_dev.
    cbn [set_registry iio_interfaces].
    replace (List.length l =? 255)%nat with false by (symmetry; apply Nat.eqb_neq; lia).
    split; [reflexivity|]. split; [reflexivity|]. split; [reflexivity|].
    split; [reflexivity|]. split; reflexivity.
  - intros Hlen device y s a. unfold iio_supported_dev, iio_register.
    cbn [set_registry iio_interfaces].
    replace (List.length l =? 255)%nat with true by (symmetry; now apply Nat.eqb_eq).
    split; [reflexivity|]. split; reflexivity.
Qed.

End Lifecycle.

Lemma register_then_lookup_witness :
  exists w',
    iio_register true true A' (world_of (RegLive [A; B])) = Ret (SUCCESS, w') /\
    iio_get_interface "A" (iio_interfaces w') = Ret (Some A) /\
    devices w' = devices (world_of (RegLive [A; B])).
Proof.
  refine (register_then_lookup (world_of (RegLive [A; B])) [A; B] A' "A" _).
  right. split; [reflexivity | cbn; lia].
Defined.

Lemma close_clears_mask_witness :
  exists w',
    iio_close_dev "B" (world_of (RegLive [A; B])) = Ret (SUCCESS, w') /\
    (forall m0, iio_get_mask "B" m0 w' = Ret (SUCCESS, 0)) /\
    (forall other, other <> "B"%string ->
       iio_get_interface other (iio_interfaces w') =
       iio_get_interface other (iio_interfaces (world_of (RegLive [A; B])))) /\
    devices w' = devices (world_of (RegLive [A; B])) /\
    calls w' = calls (world_of (RegLive [A; B])).
Proof.
  exact (close_clears_mask (world_of (RegLive [A; B])) [A; B] "B" B eq_refl eq_refl).
Defined.

Lemma unknown_device_is_refused_witness :
  let w := world_of (RegLive [A; B]) in
  iio_open_dev "D" 2 1 w = Ret (- ENODEV, w) /\
  iio_close_dev "D" w = Ret (FAILURE, w) /\
  iio_get_mask "D" 7 w = Ret (- ENODEV, 7) /\
  iio_read_attr "D" "raw" line 16 false w = Ret (FAILURE, line, w) /\
  iio_write_attr "D" "raw" line 16 false w = Ret (- ENODEV, line, w) /\
  iio_ch_read_attr "D" "voltage0" false "raw" line 16 w = Ret (FAILURE, line, w) /\
  iio_ch_write_attr "D" "voltage0" false "raw" line 16 w = Ret (- ENODEV, line, w).
Proof.
  exact (unknown_device_is_refused (world_of (RegLive [A; B])) "D" 2 1 7
           "voltage0" false "raw" line 16 false eq_refl).
Defined.

Lemma open_touches_one_mask_witness :
  let w := world_of (RegLive [A; B]) in
  let w' := update_registry "A" (set_ch_mask 5) w in
  (exists r (w'' : world dev), iio_open_dev "A" 2 5 w = Ret (r, w'')) /\
  ((SUCCESS = SUCCESS /\ w' = update_registry "A" (set_ch_mask 5) w /\
    exists ifc,
      iio_get_interface "A" (iio_interfaces w) = Ret (Some ifc) /\
      iio_get_interface "A" (iio_interfaces w') =
        Ret (Some {| name := name ifc; dev_instance := dev_instance ifc; iio := iio ifc;
                        ch_mask := 5;
                        transfer_dev_to_mem := transfer_dev_to_mem ifc;
                        read_data := read_data ifc;
                        transfer_mem_to_dev := transfer_mem_to_dev ifc;
                        write_data := write_data ifc;
                        get_xml := get_xml ifc |})) \/
   (SUCCESS <> SUCCESS /\ w' = w)) /\
  (forall other, other <> "A"%string ->
     iio_get_interface other (iio_interfaces w') =
     iio_get_interface other (iio_interfaces w)) /\
  devices w' = devices w /\ calls w' = calls w /\ stack w' = stack w /\
  (forall sample_size', iio_open_dev "A" sample_size' 5 w = Ret (SUCCESS, w')).
Proof.
  destruct (open_touches_one_mask (world_of (RegLive [A; B])) "A" 2 5) as [Hdone Hframe].
  split.
  - apply Hdone; [discriminate|].
    intros ifc H. injection H as <-. exists adc. split; [reflexivity|]. cbn. lia.
  - exact (Hframe SUCCESS (update_registry "A" (set_ch_mask 5) (world_of (RegLive [A; B])))
             eq_refl).
Defined.

Lemma open_transfer_read_witness :
  exists w1 w2 w3,
    iio_open_dev "R" 2 5 (world_of (RegLive [A; R])) = Ret (SUCCESS, w1) /\
    iio_transfer_dev_to_mem "R" 16 w1 = Ret (16, w2) /\
    iio_read_dev "R" [] 0 4 w2 = Ret (4, [5; 5; 5; 5], w3) /\
    devices w3 3%nat = 6 /\
    calls w3 = [] ++ [BulkCall TransferDevToMem "R" 0 16 5; BulkCall ReadData "R" 0 4 5].
Proof.
  refine (open_transfer_read (world_of (RegLive [A; R])) [A; R]
           "R" R adc transfer reader 2 5 16 [] 0 4
           eq_refl eq_refl eq_refl _ _ _ eq_refl eq_refl).
  - cbn. lia.
  - lia.
  - intros i Hi. cbn in Hi. apply Z.bits_above_log2; cbn; lia.
Defined.

Lemma open_write_transfer_witness :
  exists w1 w2 w3,
    iio_open_dev "W" 2 3 (world_of (RegLive [A; R; W])) = Ret (SUCCESS, w1) /\
    iio_write_dev "W" [1; 2; 3; 4] 0 4 w1 = Ret (4, w2) /\
    iio_transfer_mem_to_dev "W" 4 w2 = Ret (4, w3) /\
    devices w3 4%nat = 13 /\
    calls w3 = [] ++ [BulkCall WriteData "W" 0 4 3; BulkCall TransferMemToDev "W" 0 4 3].
Proof.
  refine (open_write_transfer (world_of (RegLive [A; R; W])) [A; R; W]
           "W" W adc transfer writer 2 3 4 [1; 2; 3; 4] 0 4
           eq_refl eq_refl eq_refl _ _ _ eq_refl eq_refl).
  - cbn. lia.
  - lia.
  - intros i Hi. cbn in Hi. apply Z.bits_above_log2; cbn; lia.
Defined.

Lemma failed_growth_leaves_dangling_registry_witness :
  exists w',
    iio_register true false C (world_of (RegLive [A; B])) = Ret (- ENOMEM, w') /\
    devices w' = devices (world_of (RegLive [A; B])) /\
    ((2 < 255)%nat ->
     forall device sample_size mask m0 n,
       iio_get_interface device (iio_interfaces w') = Undef UseAfterFree /\
       iio_supported_dev device w' = Undef UseAfterFree /\
       iio_open_dev device sample_size mask w' = Undef UseAfterFree /\
       iio_close_dev device w' = Undef UseAfterFree /\
       iio_get_mask device m0 w' = Undef UseAfterFree /\
       iio_transfer_dev_to_mem device n w' = Undef UseAfterFree) /\
    (2%nat = 255%nat ->
     forall device y s a,
       iio_get_interface device (iio_interfaces w') = Ret None /\
       iio_supported_dev device w' = Ret false /\
       iio_register s a y w' = Undef UseAfterFree).
Proof.
  exact (failed_growth_leaves_dangling_registry (world_of (RegLive [A; B])) [A; B] C true
           eq_refl).
Defined.

End LifecycleFacts.

(* ------------------------------------------------------------------ *)
(** ** The attribute dispatcher, from the entry points down *)

Module DispatchFacts.
Import Sample SampleBulk RegistryFacts AttributeFacts.

Lemma first_match {A} (f : A -> bool) l :
  (forall y, In y l -> f y = false) \/
  (exists pre x post, l = pre ++ x :: post /\ (forall y, In y pre -> f y = false) /\ f x = true).
Proof.
  induction l as [|y l [IH|(pre & x & post & -> & Hpre & Hx)]].
  - left. intros y [].
  - destruct (f y) eqn:Hy.
    + right. exists [], y, l. split; [reflexivity|]. split; [intros z []|exact Hy].
    + left. intros z [<-|Hz]; [exact Hy | now apply IH].
  - destruct (f y) eqn:Hy.
    + right. exists [], y, (pre ++ x :: post).
      split; [reflexivity|]. split; [intros z []|exact Hy].
    + right. exists (y :: pre), x, post. split; [reflexivity|].
      split; [|exact Hx]. intros z [<-|Hz]; [exact Hy | now apply Hpre].
Qed.

Lemma array_index_middle {A} (pre : list A) x post :
  array_index (pre ++ x :: post) (zlength pre) = Ret x.
Proof.
  unfold array_index, zlength.
  replace (Z.of_nat (List.length pre) <? 0) with false by (symmetry; apply Z.ltb_ge; lia).
  rewrite Nat2Z.id, nth_error_app2, Nat.sub_diag by lia. reflexivity.
Qed.

Section Dispatch.
Context {Dev : Type}.
Implicit Types (w : world Dev) (l : list (iio_interface Dev)) (ifc : iio_interface Dev)
  (dev : iio_device Dev) (a : iio_attribute Dev) (c : iio_channel Dev).

Lemma attribute_id_found attr pre a post :
  attribute_absent attr pre ->
  attr_name a = attr ->
  zlength pre <= INT16_MAX ->
  iio_get_attribute_id attr (Some (pre ++ a :: post)) = Ret (zlength pre).
Proof.
  intros Hpre Ha Hlen. unfold iio_get_attribute_id.
  rewrite (find_index_split _ pre a post 0 Hpre)
    by (try lia; rewrite Ha; apply String.eqb_refl).
  now destruct pre.
Qed.

Lemma channel_id_found channel out cpre c cpost :
  channel_absent channel out cpre ->
  ch_name c = channel ->
  ch_out c = out ->
  zlength cpre <= INT16_MAX ->
  iio_get_channel_id channel (Some (cpre ++ c :: cpost)) out = Ret (zlength cpre).
Proof.
  intros Hpre Hn Ho Hlen. unfold iio_get_channel_id.
  rewrite (find_index_split _ cpre c cpost 0 Hpre)
    by (try lia; rewrite Hn, Ho, String.eqb_refl, Bool.eqb_reflx; reflexivity).
  now destruct cpre.
Qed.

Lemma zlength_before {A} (pre : list A) x post :
  zlength pre < zlength (pre ++ x :: post).
Proof. unfold zlength. rewrite length_app. cbn [List.length]. lia. Qed.

(** X8.  [iio_get_attribute_id] on an array within the range of its
    [int16_t] index: an empty array gives [-EINVAL]; an array without an
    attribute of that name gives [-ENOENT]; otherwise the result is the
    index of the first attribute of that name, which is a valid index of
    the array.  The result is negative exactly when no attribute has the
    name. *)
Theorem attribute_id_is_first_match attr (attrs : list (iio_attribute Dev)) :
  zlength attrs <= 32767 ->
  (attrs = [] /\ iio_get_attribute_id attr (Some attrs) = Ret (- EINVAL)) \/
  (attrs <> [] /\ attribute_absent attr attrs /\
   iio_get_attribute_id attr (Some attrs) = Ret (- ENOENT)) \/
  (exists pre a post,
     attrs = pre ++ a :: post /\ attribute_absent attr pre /\ attr_name a = attr /\
     iio_get_attribute_id attr (Some attrs) = Ret (zlength pre) /\
     array_index attrs (zlength pre) = Ret a).
Proof.
  intros Hlen. destruct attrs as [|a0 attrs0] eqn:E; [left; split; reflexivity|].
  rewrite <- E in *. assert (Hne : attrs <> []) by (rewrite E; discriminate). clear E.
  right.
  destruct (first_match (fun a => String.eqb attr (attr_name a)) attrs)
    as [Habs|(pre & a & post & -> & Hpre & Ha)].
  - left. split; [exact Hne|]. split; [exact Habs|].
    unfold iio_get_attribute_id.
    rewrite (find_index_none _ attrs 0 Habs) by (unfold INT16_MAX; lia).
    now destruct attrs.
  - right. exists pre, a, post. apply String.eqb_eq in Ha.
    pose proof (zlength_before pre a post) as Hlt.
    split; [reflexivity|]. split; [exact Hpre|]. split; [now symmetry|].
    split; [apply attribute_id_found; auto; unfold INT16_MAX; lia |
            apply array_index_middle].
Qed.

(** X9.  [iio_get_channel_id] on an array within the range of its
    [int16_t] index selects by name and by direction together: an
    empty array gives [-EINVAL]; when no channel has both the name and the
    direction the result is [-ENOENT], also when a channel of that name
    exists in the other direction; otherwise it is the index of the first
    channel that has both. *)
Theorem channel_id_is_first_match channel out (chans : list (iio_channel Dev)) :
  zlength chans <= 32767 ->
  (chans = [] /\ iio_get_channel_id channel (Some chans) out = Ret (- EINVAL)) \/
  (chans <> [] /\ channel_absent channel out chans /\
   iio_get_channel_id channel (Some chans) out = Ret (- ENOENT)) \/
  (exists cpre c cpost,
     chans = cpre ++ c :: cpost /\ channel_absent channel out cpre /\
     ch_name c = channel /\ ch_out c = out /\
     iio_get_channel_id channel (Some chans) out = Ret (zlength cpre) /\
     array_index chans (zlength cpre) = Ret c).
Proof.
  intros Hlen. destruct chans as [|c0 chans0] eqn:E; [left; split; reflexivity|].
  rewrite <- E in *. assert (Hne : chans <> []) by (rewrite E; discriminate). clear E.
  right.
  destruct (first_match (fun c => String.eqb channel (ch_name c) && Bool.eqb (ch_out c) out)
              chans) as [Habs|(cpre & c & cpost & -> & Hpre & Hc)].
  - left. split; [exact Hne|]. split; [exact Habs|].
    unfold iio_get_channel_id.
    rewrite (find_index_none _ chans 0 Habs) by (unfold INT16_MAX; lia).
    now destruct chans.
  - right. exists cpre, c, cpost. apply andb_true_iff in Hc. destruct Hc as [Hn Ho].
    apply String.eqb_eq in Hn. apply Bool.eqb_prop in Ho.
    pose proof (zlength_before cpre c cpost) as Hlt.
    split; [reflexivity|]. split; [exact Hpre|]. split; [now symmetry|].
    split; [exact Ho|].
    split; [apply channel_id_found; auto; unfold INT16_MAX; lia |
            apply array_index_middle].
Qed.

Lemma device_attribute_found el buf len dev pre a post is_write w ifc :
  channel_name el = ""%string ->
  attribute_name el <> ""%string ->
  iio_get_interface (device_name el) (iio_interfaces w) = Ret (Some ifc) ->
  attributes dev = Some (pre ++ a :: post) ->
  attribute_absent (attribute_name el) pre ->
  attr_name a = attribute_name el ->
  zlength pre <= INT16_MAX ->
  iio_rd_wr_attribute el buf len (Some dev) is_write w =
    Ret (if is_write then call_store w ifc a buf len None
         else call_show w ifc a buf len None).
Proof.
  intros Hch Hattr Hlook Hattrs Hpre Ha Hlen. unfold iio_rd_wr_attribute.
  rewrite Hch. cbn [String.eqb]. rewrite Hlook. cbn [bind].
  apply String.eqb_neq in Hattr. rewrite Hattr.
  rewrite Hattrs, (attribute_id_found _ pre a post Hpre Ha Hlen). cbn [bind deref].
  replace (zlength pre <? 0) with false by (symmetry; apply Z.ltb_ge; unfold zlength; lia).
  rewrite array_index_middle. cbn [bind]. now destruct is_write.
Qed.

Lemma channel_attribute_found el buf len dev cpre c cpost pre a post is_write w ifc :
  channel_name el <> ""%string ->
  attribute_name el <> ""%string ->
  iio_get_interface (device_name el) (iio_interfaces w) = Ret (Some ifc) ->
  channels dev = Some (cpre ++ c :: cpost) ->
  channel_absent (channel_name el) (ei_ch_out el) cpre ->
  ch_name c = channel_name el ->
  ch_out c = ei_ch_out el ->
  ch_attributes c = Some (pre ++ a :: post) ->
  attribute_absent (attribute_name el) pre ->
  attr_name a = attribute_name el ->
  zlength cpre <= INT16_MAX ->
  zlength pre <= INT16_MAX ->
  let info := {| ch_num := ChannelNumber.iio_get_channel_number (channel_name el);
                 ci_ch_out := ei_ch_out el |} in
  iio_rd_wr_attribute el buf len (Some dev) is_write w =
    Ret (if is_write then call_store w ifc a buf len (Some info)
         else call_show w ifc a buf len (Some info)).
Proof.
  intros Hch Hattr Hlook Hchans Hcpre Hcn Hco Hattrs Hpre Ha Hclen Hlen info.
  unfold iio_rd_wr_attribute.
  apply String.eqb_neq in Hch. rewrite Hch.
  rewrite Hchans, (channel_id_found _ _ cpre c cpost Hcpre Hcn Hco Hclen). cbn [bind deref].
  rewrite array_index_middle. cbn [bind].
  unfold iio_rd_wr_channel_attribute. rewrite Hlook. cbn [bind].
  apply String.eqb_neq in Hattr. rewrite Hattr.
  rewrite Hattrs, (attribute_id_found _ pre a post Hpre Ha Hlen). cbn [bind deref].
  replace (0 <=? zlength pre) with true by (symmetry; apply Z.leb_le; unfold zlength; lia).
  rewrite array_index_middle. cbn [bind]. now destruct is_write.
Qed.

Lemma call_show_eq w ifc a buf len channel :
  call_show w ifc a buf len channel =
    (fst (fst (show a (devices w (dev_instance ifc)) (buf_bytes buf) len channel)),
     with_bytes buf (snd (fst (show a (devices w (dev_instance ifc)) (buf_bytes buf) len channel))),
     log_calls [ShowCall (attr_name a) len channel]
       (set_device (dev_instance ifc)
          (snd (show a (devices w (dev_instance ifc)) (buf_bytes buf) len channel)) w)).
Proof. unfold call_show. now destruct (show a _ _ _ _) as [[r bytes] d]. Qed.

Lemma call_store_eq w ifc a buf len channel :
  call_store w ifc a buf len channel =
    (fst (store a (devices w (dev_instance ifc)) (buf_bytes buf) len channel), buf,
     log_calls [StoreCall (attr_name a) 0 len channel]
       (set_device (dev_instance ifc)
          (snd (store a (devices w (dev_instance ifc)) (buf_bytes buf) len channel)) w)).
Proof. unfold call_store. now destruct (store a _ _ _ _) as [r d]. Qed.

(** X10.  A named device attribute, read or written through the entry
    points.  For a registered device whose attribute array holds an
    attribute of the requested name within the range of the [int16_t]
    index, [iio_read_attr] calls the show
    handler of the first such attribute and [iio_write_attr] its store
    handler, once, on the device instance of the interface, with the
    caller's buffer and length and with a NULL channel; the handler's
    result is returned as it is.  The uninitialised direction field of
    the request has no influence. *)
Theorem device_attribute_dispatch w l device ifc dev pre a post attr buf len garbage :
  iio_interfaces w = RegLive l ->
  find (fun i => String.eqb device (name i)) l = Some ifc ->
  iio ifc = Some dev ->
  attributes dev = Some (pre ++ a :: post) ->
  attribute_absent attr pre ->
  attr_name a = attr ->
  attr <> ""%string ->
  zlength pre <= 32767 ->
  let p := dev_instance ifc in
  let shown := show a (devices w p) (buf_bytes buf) len None in
  let stored := store a (devices w p) (buf_bytes buf) len None in
  iio_read_attr device attr buf len garbage w =
    Ret (fst (fst shown), with_bytes buf (snd (fst shown)),
         log_calls [ShowCall attr len None] (set_device p (snd shown) w)) /\
  iio_write_attr device attr buf len garbage w =
    Ret (fst stored, buf,
         log_calls [StoreCall attr 0 len None] (set_device p (snd stored) w)).
Proof.
  intros Hw Hf Hdev Hattrs Hpre Ha Hne Hlen p shown stored.
  assert (Hlook : iio_get_interface device (iio_interfaces w) = Ret (Some ifc))
    by (rewrite Hw; cbn; now rewrite Hf).
  unfold iio_read_attr, iio_write_attr.
  rewrite (supported_live w l device ifc Hw Hf). cbn [bind negb].
  rewrite Hlook. cbn [bind]. rewrite Hdev.
  split.
  - rewrite (device_attribute_found _ buf len dev pre a post false w ifc);
      [|reflexivity | exact Hne | exact Hlook | exact Hattrs | exact Hpre | exact Ha
       | exact Hlen].
    rewrite call_show_eq, Ha. reflexivity.
  - rewrite (device_attribute_found _ buf len dev pre a post true w ifc);
      [|reflexivity | exact Hne | exact Hlook | exact Hattrs | exact Hpre | exact Ha
       | exact Hlen].
    rewrite call_store_eq, Ha. reflexivity.
Qed.

(** X11.  A named channel attribute, read or written through the entry
    points.  The channel is the first of the device that has the
    requested name and direction, the attribute the first of that channel
    that has the requested name, both within the range of the [int16_t]
    index.  Its handler is called once on the
    device instance of the interface, with the caller's buffer and length
    and with a channel context made of the number read off the channel
    name and of the requested direction; the handler's result is
    returned as it is. *)
Theorem channel_attribute_dispatch w l device ifc dev cpre c cpost pre a post
    channel out attr buf len :
  iio_interfaces w = RegLive l ->
  find (fun i => String.eqb device (name i)) l = Some ifc ->
  iio ifc = Some dev ->
  channels dev = Some (cpre ++ c :: cpost) ->
  channel_absent channel out cpre ->
  ch_name c = channel ->
  ch_out c = out ->
  channel <> ""%string ->
  ch_attributes c = Some (pre ++ a :: post) ->
  attribute_absent attr pre ->
  attr_name a = attr ->
  attr <> ""%string ->
  zlength cpre <= 32767 ->
  zlength pre <= 32767 ->
  let p := dev_instance ifc in
  let info := Some {| ch_num := ChannelNumber.iio_get_channel_number channel;
                      ci_ch_out := out |} in
  let shown := show a (devices w p) (buf_bytes buf) len info in
  let stored := store a (devices w p) (buf_bytes buf) len info in
  iio_ch_read_attr device channel out attr buf len w =
    Ret (fst (fst shown), with_bytes buf (snd (fst shown)),
         log_calls [ShowCall attr len info] (set_device p (snd shown) w)) /\
  iio_ch_write_attr device channel out attr buf len w =
    Ret (fst stored, buf,
         log_calls [StoreCall attr 0 len info] (set_device p (snd stored) w)).
Proof.
  intros Hw Hf Hdev Hchans Hcpre Hcn Hco Hcne Hattrs Hpre Ha Hne Hclen Hlen
    p info shown stored.
  assert (Hlook : iio_get_interface device (iio_interfaces w) = Ret (Some ifc))
    by (rewrite Hw; cbn; now rewrite Hf).
  unfold iio_ch_read_attr, iio_ch_write_attr.
  rewrite (supported_live w l device ifc Hw Hf). cbn [bind negb].
  rewrite Hlook. cbn [bind deref]. rewrite Hdev.
  split.
  - rewrite (channel_attribute_found _ buf len dev cpre c cpost pre a post false w ifc);
      [|exact Hcne | exact Hne | exact Hlook | exact Hchans | exact Hcpre | exact Hcn
       | exact Hco | exact Hattrs | exact Hpre | exact Ha | exact Hclen | exact Hlen].
    rewrite call_show_eq, Ha. reflexivity.
  - rewrite (channel_attribute_found _ buf len dev cpre c cpost pre a post true w ifc);
      [|exact Hcne | exact Hne | exact Hlook | exact Hchans | exact Hcpre | exact Hcn
       | exact Hco | exact Hattrs | exact Hpre | exact Ha | exact Hclen | exact Hlen].
    rewrite call_store_eq, Ha. reflexivity.
Qed.

(** X12.  A name that no attribute of the addressed scope has.  For a
    registered device, a request for a device attribute that the device
    does not have, or for an attribute that the addressed channel does
    not have, returns [-ENOENT] from all four entry points; no handler is
    called and nothing changes.  An empty attribute array counts as not
    having the attribute.  The arrays searched are within the range of
    the [int16_t] index. *)
Theorem missing_attribute_is_enoent w l device ifc dev attrs cpre c cpost cattrs
    channel out attr buf len garbage :
  iio_interfaces w = RegLive l ->
  find (fun i => String.eqb device (name i)) l = Some ifc ->
  iio ifc = Some dev ->
  attr <> ""%string ->
  (attributes dev = Some attrs -> attribute_absent attr attrs ->
   zlength attrs <= 32767 ->
     iio_read_attr device attr buf len garbage w = Ret (- ENOENT, buf, w) /\
     iio_write_attr device attr buf len garbage w = Ret (- ENOENT, buf, w)) /\
  (channels dev = Some (cpre ++ c :: cpost) -> channel_absent channel out cpre ->
   ch_name c = channel -> ch_out c = out -> channel <> ""%string ->
   ch_attributes c = Some cattrs -> attribute_absent attr cattrs ->
   zlength cpre <= 32767 -> zlength cattrs <= 32767 ->
     iio_ch_read_attr device channel out attr buf len w = Ret (- ENOENT, buf, w) /\
     iio_ch_write_attr device channel out attr buf len w = Ret (- ENOENT, buf, w)).
Proof.
  intros Hw Hf Hdev Hne.
  assert (Hlook : iio_get_interface device (iio_interfaces w) = Ret (Some ifc))
    by (rewrite Hw; cbn; now rewrite Hf).
  assert (Hreg : iio_interfaces w <> RegInvalid) by (rewrite Hw; discriminate).
  split.
  - intros Hattrs Habs Hlen. unfold iio_read_attr, iio_write_attr.
    rewrite (supported_live w l device ifc Hw Hf). cbn [bind negb].
    rewrite Hlook. cbn [bind]. rewrite Hdev.
    split; apply (absent_device_attribute _ buf len dev attrs); auto.
  - intros Hchans Hcpre Hcn Hco Hcne Hcattrs Habs Hclen Hlen.
    unfold iio_ch_read_attr, iio_ch_write_attr.
    rewrite (supported_live w l device ifc Hw Hf). cbn [bind negb].
    rewrite Hlook. cbn [bind deref]. rewrite Hdev.
    split;
      apply (absent_channel_attribute _ buf len dev (cpre ++ c :: cpost)
               (zlength cpre) c cattrs); auto;
      try (cbn [channel_name ei_ch_out]; now apply channel_id_found);
      apply array_index_middle.
Qed.

Lemma call_read_all_local w ifc buf len channel attrs r b w' :
  call_read_all w ifc buf len channel attrs = Ret (r, b, w') ->
  touches_only (dev_instance ifc) w w'.
Proof.
  unfold call_read_all.
  destruct (iio_read_all_attr _ _ _ _ _ _) as [[[[[r0 b0] lb] d] cs]|u];
    cbn [bind]; [|discriminate].
  intros H. injection H as <- <- <-. split; [reflexivity|]. split; [|now exists cs].
  intros q Hq. cbn. apply Nat.eqb_neq in Hq. now rewrite Hq.
Qed.

Lemma call_write_all_local w ifc buf len channel attrs r b w' :
  call_write_all w ifc buf len channel attrs = Ret (r, b, w') ->
  touches_only (dev_instance ifc) w w'.
Proof.
  unfold call_write_all.
  destruct (iio_write_all_attr _ _ _ _ _) as [[[r0 d] cs]|u]; cbn [bind]; [|discriminate].
  intros H. injection H as <- <- <-. split; [reflexivity|]. split; [|now exists cs].
  intros q Hq. cbn. apply Nat.eqb_neq in Hq. now rewrite Hq.
Qed.

Lemma call_show_local w ifc a buf len channel r b w' :
  call_show w ifc a buf len channel = (r, b, w') ->
  touches_only (dev_instance ifc) w w'.
Proof.
  rewrite call_show_eq. intros H. injection H as <- <- <-.
  split; [reflexivity|]. split; [|eexists; reflexivity].
  intros q Hq. cbn. apply Nat.eqb_neq in Hq. now rewrite Hq.
Qed.

Lemma call_store_local w ifc a buf len channel r b w' :
  call_store w ifc a buf len channel = (r, b, w') ->
  touches_only (dev_instance ifc) w w'.
Proof.
  rewrite call_store_eq. intros H. injection H as <- <- <-.
  split; [reflexivity|]. split; [|eexists; reflexivity].
  intros q Hq. cbn. apply Nat.eqb_neq in Hq. now rewrite Hq.
Qed.

Lemma unchanged_local w (p : nat) : touches_only p w w.
Proof. split; [reflexivity|]. split; [reflexivity|]. exists []. now rewrite app_nil_r. Qed.

Lemma rd_wr_channel_attribute_local el buf len c is_write w ifc r b w' :
  iio_get_interface (device_name el) (iio_interfaces w) = Ret (Some ifc) ->
  iio_rd_wr_channel_attribute el buf len c is_write w = Ret (r, b, w') ->
  touches_only (dev_instance ifc) w w'.
Proof.
  intros Hlook. unfold iio_rd_wr_channel_attribute. rewrite Hlook. cbn [bind deref].
  destruct (String.eqb (attribute_name el) "").
  - destruct is_write; [apply call_write_all_local | apply call_read_all_local].
  - destruct (iio_get_attribute_id _ _) as [id|u]; cbn [bind]; [|discriminate].
    destruct (0 <=? id).
    + destruct (deref (ch_attributes c)) as [attrs|u]; cbn [bind]; [|discriminate].
      destruct (array_index attrs id) as [a|u]; cbn [bind]; [|discriminate].
      destruct is_write; intros H; injection H as H;
        [eapply call_store_local | eapply call_show_local]; exact H.
    + intros H. injection H as <- <- <-. apply unchanged_local.
Qed.

Lemma rd_wr_attribute_local el buf len odev is_write w ifc r b w' :
  iio_get_interface (device_name el) (iio_interfaces w) = Ret (Some ifc) ->
  iio_rd_wr_attribute el buf len odev is_write w = Ret (r, b, w') ->
  touches_only (dev_instance ifc) w w'.
Proof.
  intros Hlook. unfold iio_rd_wr_attribute.
  destruct odev as [dev|]; [|intros H; injection H as <- <- <-; apply unchanged_local].
  destruct (String.eqb (channel_name el) "").
  - rewrite Hlook. cbn [bind deref].
    destruct (String.eqb (attribute_name el) "").
    + destruct is_write; [apply call_write_all_local | apply call_read_all_local].
    + destruct (iio_get_attribute_id _ _) as [id|u]; cbn [bind]; [|discriminate].
      destruct (id <? 0).
      * intros H. injection H as <- <- <-. apply unchanged_local.
      * destruct (deref (attributes dev)) as [attrs|u]; cbn [bind]; [|discriminate].
        destruct (array_index attrs id) as [a|u]; cbn [bind]; [|discriminate].
        destruct is_write; intros H; injection H as H;
          [eapply call_store_local | eapply call_show_local]; exact H.
  - destruct (iio_get_channel_id _ _ _) as [id|u]; cbn [bind]; [|discriminate].
    destruct (deref (channels dev)) as [chans|u]; cbn [bind]; [|discriminate].
    destruct (array_index chans id) as [c|u]; cbn [bind]; [|discriminate].
    now apply rd_wr_channel_attribute_local.
Qed.

(** X13.  What an attribute request can change.  Whenever one of the four
    entry points returns, for a device the registry holds, the registry
    is as before, so are all device instances but the one of the
    addressed interface, and the record of handler calls has only grown.
    Handlers of one device cannot disturb another through the
    dispatcher. *)
Theorem attribute_access_is_local w device ifc attr buf len r b w' :
  iio_get_interface device (iio_interfaces w) = Ret (Some ifc) ->
  (exists garbage, iio_read_attr device attr buf len garbage w = Ret (r, b, w')) \/
  (exists garbage, iio_write_attr device attr buf len garbage w = Ret (r, b, w')) \/
  (exists channel out,
     iio_ch_read_attr device channel out attr buf len w = Ret (r, b, w')) \/
  (exists channel out,
     iio_ch_write_attr device channel out attr buf len w = Ret (r, b, w')) ->
  touches_only (dev_instance ifc) w w'.
Proof.
  intros Hlook.
  unfold iio_read_attr, iio_write_attr, iio_ch_read_attr, iio_ch_write_attr,
    iio_supported_dev.
  rewrite Hlook. cbn [bind negb deref].
  intros [[g H]|[[g H]|[(channel & out & H)|(channel & out & H)]]];
    (eapply rd_wr_attribute_local; [|exact H]; exact Hlook).
Qed.

Lemma device_scope_all el buf len dev is_write w ifc :
  channel_name el = ""%string ->
  attribute_name el = ""%string ->
  iio_get_interface (device_name el) (iio_interfaces w) = Ret (Some ifc) ->
  iio_rd_wr_attribute el buf len (Some dev) is_write w =
    if is_write then call_write_all w ifc buf len None (attributes dev)
    else call_read_all w ifc buf len None (attributes dev).
Proof.
  intros Hch Hattr Hlook. unfold iio_rd_wr_attribute.
  rewrite Hch, Hattr, Hlook. reflexivity.
Qed.

Lemma channel_scope_all el buf len dev cpre c cpost is_write w ifc :
  channel_name el <> ""%string ->
  attribute_name el = ""%string ->
  iio_get_interface (device_name el) (iio_interfaces w) = Ret (Some ifc) ->
  channels dev = Some (cpre ++ c :: cpost) ->
  channel_absent (channel_name el) (ei_ch_out el) cpre ->
  ch_name c = channel_name el ->
  ch_out c = ei_ch_out el ->
  zlength cpre <= INT16_MAX ->
  let info := {| ch_num := ChannelNumber.iio_get_channel_number (channel_name el);
                 ci_ch_out := ei_ch_out el |} in
  iio_rd_wr_attribute el buf len (Some dev) is_write w =
    if is_write then call_write_all w ifc buf len (Some info) (ch_attributes c)
    else call_read_all w ifc buf len (Some info) (ch_attributes c).
Proof.
  intros Hch Hattr Hlook Hchans Hcpre Hcn Hco Hclen info. unfold iio_rd_wr_attribute.
  apply String.eqb_neq in Hch. rewrite Hch.
  rewrite Hchans, (channel_id_found _ _ cpre c cpost Hcpre Hcn Hco Hclen). cbn [bind deref].
  rewrite array_index_middle. cbn [bind].
  unfold iio_rd_wr_channel_attribute. rewrite Hlook, Hattr. reflexivity.
Qed.

Lemma call_read_all_frames w ifc buf len channel (attrs : list (iio_attribute Dev)) :
  let results :=
    Framing.show_results len channel attrs (devices w (dev_instance ifc)) (stack w) in
  Forall Framing.returns_text_length results ->
  Forall Framing.within_local_buf results ->
  Framing.total_size results <= 32767 ->
  Framing.total_size results < zlength (buf_bytes buf) ->
  exists bytes w',
    call_read_all w ifc buf len channel (Some attrs) =
      Ret (Framing.total_size results, with_bytes buf bytes, w') /\
    firstn (Z.to_nat (Framing.total_size results)) bytes =
      Framing.frame results (buf_bytes buf) /\
    calls w' = calls w ++ map (fun a => ShowCall (attr_name a) len channel) attrs /\
    iio_interfaces w' = iio_interfaces w.
Proof.
  intros results Hwf Hin Hmax Hfit.
  destruct (ReadAllFacts.read_all_loop_frames len channel attrs
              (devices w (dev_instance ifc)) (stack w) [] (buf_bytes buf) 0)
    as (tail & lb & dev & Hrun & _);
    [exact Hwf | exact Hin | exact Hmax | exact Hfit | |].
  { pose proof (ReadAllFacts.total_size_records len channel attrs
                  (devices w (dev_instance ifc)) (stack w)) as Hrec.
    fold results in Hrec. unfold INT16_MAX. lia. }
  cbn [app] in Hrun. change (zlength (@nil Z)) with 0 in Hrun. rewrite Z.add_0_l in Hrun.
  fold results in Hrun.
  unfold call_read_all, iio_read_all_attr. rewrite Hrun. cbn [bind].
  eexists. eexists. split; [reflexivity|]. split; [|split; reflexivity].
  pose proof (ReadAllFacts.frame_length results (buf_bytes buf) Hwf (Z.lt_le_incl _ _ Hfit))
    as Hl.
  unfold zlength in Hl. rewrite <- Hl, Nat2Z.id.
  rewrite firstn_app, firstn_all, Nat.sub_diag. cbn [firstn]. apply app_nil_r.
Qed.


Lemma to_int16_mod4 x : to_int16 x mod 4 = x mod 4.
Proof.
  unfold to_int16, wrap_signed. change (2 ^ 16) with 65536. change (2 ^ (16 - 1)) with 32768.
  destruct (x mod 65536 <? 32768); Z.to_euclidean_division_equations; lia.
Qed.

Lemma write_all_loop_calls (attrs : list (iio_attribute Dev)) : forall d b ch j i,
  j mod 4 = 0 ->
  i + zlength attrs <= INT16_MAX ->
  exists d' cs,
    write_all_loop attrs d b ch j i = Ret (d', cs) /\
    Forall2 (fun a call =>
               exists off n, call = StoreCall (attr_name a) off n ch /\ off mod 4 = 0)
      attrs cs.
Proof.
  induction attrs as [|a attrs IH]; intros d b ch j i Hj Hi; cbn [write_all_loop].
  - replace (INT16_MAX <? i) with false
      by (symmetry; apply Z.ltb_ge; unfold zlength in Hi; cbn [List.length] in Hi; lia).
    exists d, []. split; [reflexivity | constructor].
  - pose proof (zlength_nonneg attrs) as Hnn. rewrite zlength_cons in Hi.
    replace (INT16_MAX <? i) with false by (symmetry; apply Z.ltb_ge; lia).
    destruct (store a d _ _ ch) as [r d1].
    match goal with |- context [write_all_loop attrs d1 b ch ?j3 (i + 1)] =>
      assert (Hj3 : j3 mod 4 = 0);
        [|destruct (IH d1 b ch j3 (i + 1) Hj3) as (d' & cs & -> & Hcs); [lia|]] end.
    + destruct (Z.land _ 3 =? 0) eqn:E.
      * apply Z.eqb_eq in E. change 3 with (Z.ones 2) in E.
        rewrite Z.land_ones in E by lia. exact E.
      * rewrite to_int16_mod4, Z.shiftl_mul_pow2 by lia. change (2 ^ 2) with 4.
        apply Z_mod_mult.
    + cbn [bind]. eexists. eexists. split; [reflexivity|].
      constructor; [|exact Hcs].
      eexists. eexists. split; [reflexivity|]. rewrite to_int16_mod4.
      Z.to_euclidean_division_equations; lia.
Qed.


End Dispatch.

Lemma attribute_id_is_first_match_witness :
  ([raw; scale] = [] /\ iio_get_attribute_id "scale" (Some [raw; scale]) = Ret (- EINVAL)) \/
  ([raw; scale] <> [] /\ attribute_absent "scale" [raw; scale] /\
   iio_get_attribute_id "scale" (Some [raw; scale]) = Ret (- ENOENT)) \/
  (exists pre a post,
     [raw; scale] = pre ++ a :: post /\ attribute_absent "scale" pre /\
     attr_name a = "scale"%string /\
     iio_get_attribute_id "scale" (Some [raw; scale]) = Ret (zlength pre) /\
     array_index [raw; scale] (zlength pre) = Ret a).
Proof.
  apply (attribute_id_is_first_match "scale" [raw; scale]). cbn. lia.
Defined.

Lemma channel_id_is_first_match_witness :
  let chans := [voltage "0" true; voltage "0" false] in
  (chans = [] /\ iio_get_channel_id "voltage0" (Some chans) false = Ret (- EINVAL)) \/
  (chans <> [] /\ channel_absent "voltage0" false chans /\
   iio_get_channel_id "voltage0" (Some chans) false = Ret (- ENOENT)) \/
  (exists cpre c cpost,
     chans = cpre ++ c :: cpost /\ channel_absent "voltage0" false cpre /\
     ch_name c = "voltage0"%string /\ ch_out c = false /\
     iio_get_channel_id "voltage0" (Some chans) false = Ret (zlength cpre) /\
     array_index chans (zlength cpre) = Ret c).
Proof.
  apply (channel_id_is_first_match "voltage0" false [voltage "0" true; voltage "0" false]).
  cbn. lia.
Defined.

Lemma device_attribute_dispatch_witness :
  let w := world_of (RegLive [A; B]) in
  iio_read_attr "A" "sampling_frequency" line 16 true w =
    Ret (4, with_bytes line ([56; 48; 48; 48; 0] ++ repeat 0 11),
         log_calls [ShowCall "sampling_frequency" 16 None] (set_device 0 0 w)) /\
  iio_write_attr "A" "sampling_frequency" line 16 true w =
    Ret (16, line, log_calls [StoreCall "sampling_frequency" 0 16 None] (set_device 0 16 w)).
Proof.
  refine (device_attribute_dispatch (world_of (RegLive [A; B])) [A; B] "A" A adc []
            (text_attribute "sampling_frequency" [56; 48; 48; 48]) [] "sampling_frequency"
            line 16 true eq_refl eq_refl eq_refl eq_refl _ eq_refl _ _).
  - intros a [].
  - discriminate.
  - discriminate.
Defined.

Lemma channel_attribute_dispatch_witness :
  let w := world_of (RegLive [A; B]) in
  let info := Some {| ch_num := 1; ci_ch_out := false |} in
  iio_ch_read_attr "B" "voltage1" false "scale" line 16 w =
    Ret (1, with_bytes line ([49; 0] ++ repeat 0 14),
         log_calls [ShowCall "scale" 16 info] (set_device 0 0 w)) /\
  iio_ch_write_attr "B" "voltage1" false "scale" line 16 w =
    Ret (16, line, log_calls [StoreCall "scale" 0 16 info] (set_device 0 16 w)).
Proof.
  refine (channel_attribute_dispatch (world_of (RegLive [A; B])) [A; B] "B" B adc
            [voltage "0" false] (voltage "1" false) [voltage "2" false; voltage "3" false]
            [raw] scale [] "voltage1" false "scale" line 16
            eq_refl eq_refl eq_refl eq_refl _ eq_refl eq_refl _ eq_refl _ eq_refl _ _ _).
  - intros c [<-|[]]. reflexivity.
  - discriminate.
  - intros a [<-|[]]. reflexivity.
  - discriminate.
  - discriminate.
  - discriminate.
Defined.

Lemma missing_attribute_is_enoent_witness :
  let w := world_of (RegLive [A; B]) in
  (iio_read_attr "A" "gain" line 16 false w = Ret (- ENOENT, line, w) /\
   iio_write_attr "A" "gain" line 16 false w = Ret (- ENOENT, line, w)) /\
  (iio_ch_read_attr "A" "voltage0" false "gain" line 16 w = Ret (- ENOENT, line, w) /\
   iio_ch_write_attr "A" "voltage0" false "gain" line 16 w = Ret (- ENOENT, line, w)).
Proof.
  destruct (missing_attribute_is_enoent (world_of (RegLive [A; B])) [A; B] "A" A adc
              [text_attribute "sampling_frequency" [56; 48; 48; 48]]
              [] (voltage "0" false) [voltage "1" false; voltage "2" false; voltage "3" false]
              [raw; scale] "voltage0" false "gain" line 16 false
              eq_refl eq_refl eq_refl) as [Hdev Hch]; [discriminate|].
  split.
  - apply Hdev; [reflexivity | | discriminate]. intros a [<-|[]]. reflexivity.
  - apply Hch; try reflexivity; try discriminate.
    + intros c [].
    + intros a [<-|[<-|[]]]; reflexivity.
Defined.

Lemma attribute_access_is_local_witness :
  touches_only 3 (world_of (RegLive [A; R]))
    (log_calls [StoreCall "scale" 0 16 (Some {| ch_num := 1; ci_ch_out := false |})]
       (set_device 3 16 (world_of (RegLive [A; R])))).
Proof.
  refine (attribute_access_is_local (world_of (RegLive [A; R])) "R" R "scale" line 16
            16 line _ eq_refl _).
  right. right. right. exists "voltage1"%string, false. reflexivity.
Defined.



End DispatchFacts.

(* ------------------------------------------------------------------ *)
(** ** Channel numbers, seen from the name *)

Module ChannelNameFacts.
Import ChannelNumber ChannelNumberFacts.

Lemma take_while_all {A} (f : A -> bool) l : forallb f (take_while f l) = true.
Proof.
  induction l as [|x l IH]; [reflexivity|]. cbn [take_while].
  destruct (f x) eqn:Hx; [|reflexivity]. cbn [forallb]. now rewrite Hx.
Qed.

Lemma run_of_digits l : forallb isdigit (run_of l) = true.
Proof. unfold run_of. rewrite forallb_rev. apply take_while_all. Qed.

Lemma drop_while_nondigit_head l :
  existsb isdigit l = true ->
  exists x r, drop_while nondigit l = x :: r /\ isdigit x = true.
Proof.
  induction l as [|y l IH]; cbn [existsb drop_while]; [discriminate|].
  unfold nondigit at 1. destruct (isdigit y) eqn:Hy; cbn [negb orb].
  - intros _. now exists y, l.
  - exact IH.
Qed.

Lemma run_of_some l : existsb isdigit l = true -> run_of l <> [].
Proof.
  intros H. unfold run_of. rewrite <- existsb_rev in H.
  destruct (drop_while_nondigit_head _ H) as (x & r & -> & Hx).
  cbn [take_while]. rewrite Hx. cbn [rev]. intros E.
  apply app_eq_nil in E. destruct E as [_ E]. discriminate.
Qed.

Lemma digit_value_range c : isdigit c = true -> 0 <= digit_value c <= 9.
Proof.
  unfold isdigit, digit_value. intros H. apply andb_true_iff in H. destruct H as [Hl Hh].
  apply Nat.leb_le in Hl. apply Nat.leb_le in Hh. lia.
Qed.

Lemma fold_step_bound ds : forall acc,
  forallb isdigit ds = true -> 0 <= acc ->
  fold_left step ds acc < (acc + 1) * 10 ^ Z.of_nat (List.length ds).
Proof.
  induction ds as [|c ds IH]; intros acc Hds Hacc.
  - cbn. lia.
  - cbn [forallb] in Hds. apply andb_true_iff in Hds. destruct Hds as [Hc Hds].
    pose proof (digit_value_range c Hc) as Hv.
    cbn [fold_left List.length]. rewrite Nat2Z.inj_succ, Z.pow_succ_r by lia.
    specialize (IH (step acc c) Hds). unfold step in *.
    assert (Hp : 0 < 10 ^ Z.of_nat (List.length ds)) by (apply Z.pow_pos_nonneg; lia).
    specialize (IH ltac:(lia)). nia.
Qed.

Lemma last_run_of_decorated (prefix ds suffix : list ascii) :
  ds <> [] ->
  forallb isdigit ds = true ->
  existsb isdigit suffix = false ->
  (forall p c, prefix = p ++ [c] -> isdigit c = false) ->
  run_of (prefix ++ ds ++ suffix) = ds.
Proof.
  intros Hne Hds Hsuf Hpre.
  assert (Hsome : existsb isdigit (ds ++ suffix) = true).
  { destruct ds as [|d ds]; [congruence|]. cbn [forallb] in Hds.
    apply andb_true_iff in Hds. destruct Hds as [Hd _]. cbn [app existsb]. now rewrite Hd. }
  destruct (rev prefix) as [|c p] eqn:E.
  - apply (f_equal (@rev ascii)) in E. rewrite rev_involutive in E. subst prefix.
    cbn [rev app]. now apply run_of_digits_then.
  - apply (f_equal (@rev ascii)) in E. rewrite rev_involutive in E. cbn [rev] in E.
    subst prefix. rewrite <- app_assoc. cbn [app].
    rewrite run_of_later; [|now apply (Hpre (rev p) c) | exact Hsome].
    rewrite run_of_skip by now apply (Hpre (rev p) c).
    now apply run_of_digits_then.
Qed.

(** X16.  The failure value and the channel numbers cannot be confused.
    For a name without any decimal digit [iio_get_channel_number]
    returns [FAILURE] (-1); for every other name it returns a number
    between 0 and [LONG_MAX]. *)
Theorem channel_number_sentinel_and_range (ch : string) :
  if existsb isdigit (list_ascii_of_string ch)
  then 0 <= iio_get_channel_number ch <= LONG_MAX
  else iio_get_channel_number ch = FAILURE.
Proof.
  unfold iio_get_channel_number.
  rewrite (scan_spec (String.length ch) ch FAILURE (le_n _)), last_digit_run_eq.
  destruct (existsb isdigit (list_ascii_of_string ch)) eqn:E.
  - pose proof (run_of_some _ E) as Hne.
    pose proof (run_of_digits (list_ascii_of_string ch)) as Hds.
    destruct (run_of (list_ascii_of_string ch)) as [|d ds]; [congruence|].
    cbn [run_value].
    pose proof (fold_step_nonneg (d :: ds) 0 Hds (Z.le_refl 0)) as H0.
    fold (decimal_value (d :: ds)) in H0. unfold LONG_MAX. lia.
  - now rewrite (run_of_nodigit _ E).
Qed.

(** X17.  The number of a name written as a prefix that does not end in
    a digit, a run of digits, and a suffix without digits is the decimal
    value of the run, whatever the prefix holds, digits included; a run
    of at most nine digits is never capped, and leading zeros do not
    count. *)
Theorem channel_number_of_decorated_name (prefix ds suffix : list ascii) :
  ds <> [] ->
  forallb isdigit ds = true ->
  existsb isdigit suffix = false ->
  (forall p c, prefix = p ++ [c] -> isdigit c = false) ->
  iio_get_channel_number (string_of_list_ascii (prefix ++ ds ++ suffix)) =
    Z.min (decimal_value ds) LONG_MAX /\
  ((List.length ds <= 9)%nat ->
   iio_get_channel_number (string_of_list_ascii (prefix ++ ds ++ suffix)) =
     decimal_value ds).
Proof.
  intros Hne Hds Hsuf Hpre.
  assert (Hnum : iio_get_channel_number (string_of_list_ascii (prefix ++ ds ++ suffix)) =
                 Z.min (decimal_value ds) LONG_MAX).
  { unfold iio_get_channel_number.
    rewrite (scan_spec _ _ FAILURE (le_n _)), last_digit_run_eq.
    rewrite list_ascii_of_string_of_list_ascii.
    rewrite (last_run_of_decorated prefix ds suffix Hne Hds Hsuf Hpre).
    destruct ds; [congruence | reflexivity]. }
  split; [exact Hnum|]. intros Hlen. rewrite Hnum.
  pose proof (fold_step_bound ds 0 Hds (Z.le_refl 0)) as Hb.
  fold (decimal_value ds) in Hb.
  assert (Hpow : 10 ^ Z.of_nat (List.length ds) <= 10 ^ 9)
    by (apply Z.pow_le_mono_r; lia).
  unfold LONG_MAX. change (10 ^ 9) with 1000000000 in Hpow.
  change (2 ^ 31 - 1) with 2147483647. lia.
Qed.

Lemma channel_number_of_decorated_name_witness :
  iio_get_channel_number "altvoltage007_q" = Z.min 7 LONG_MAX /\
  ((3 <= 9)%nat -> iio_get_channel_number "altvoltage007_q" = 7).
Proof.
  refine (channel_number_of_decorated_name (list_ascii_of_string "altvoltage")
            (list_ascii_of_string "007") (list_ascii_of_string "_q") _ eq_refl eq_refl _).
  - discriminate.
  - intros p c E. apply (f_equal (@rev ascii)) in E. rewrite rev_app_distr in E.
    cbn in E. injection E as <- _. reflexivity.
Defined.

End ChannelNameFacts.

(* ------------------------------------------------------------------ *)
(** ** The server over its life *)

Module ServerFacts.
Import Multiplexer SampleServer Turns SampleLinks MultiplexerFacts.

(** *** How many connections a server holds *)

(** X18.  A server never holds more than [MAX_SOCKET_TO_HANDLE]
    connections: in every descriptor that dispatch steps lead to from
    the initial one, whatever the transport answers, the connection in
    the slot and those in the queue are four at most. *)
Theorem server_holds_at_most_four phy d :
  reachable phy d -> (List.length (held d) <= MAX_SOCKET_TO_HANDLE)%nat.
Proof.
  intros H. pose proof (reachable_room phy d H) as Hroom.
  unfold queue_room, held in *. destruct (current_sock d); cbn [List.length]; lia.
Qed.

Lemma server_holds_at_most_four_witness :
  (List.length (held serving_first) <= MAX_SOCKET_TO_HANDLE)%nat.
Proof.
  exact (server_holds_at_most_four USE_NETWORK serving_first serving_first_reachable).
Defined.

(** *** The serial link *)

Lemma uart_reads_keep reads : forall d e r d1 e1,
  phy_type d = USE_UART ->
  read_requests reads d e = Some (r, d1, e1) -> d1 = d.
Proof.
  induction reads as [|n reads IH]; intros d e r d1 e1 Hphy H; cbn [read_requests] in H.
  - now injection H as _ <- _.
  - unfold iio_phy_read in H. rewrite Hphy in H.
    destruct (uart_reads e) as [|[ret bytes] rest]; [discriminate|].
    destruct (ret <? 0); [now injection H as _ <- _|].
    eapply IH; eassumption.
Qed.

(** X19.  On the serial link the server has no connections: in every
    descriptor that dispatch steps lead to from the initial one, the
    queue is empty, the slot is empty and no connection was ever
    removed, whatever the line delivers. *)
Theorem serial_server_has_no_connections d :
  reachable USE_UART d ->
  phy_type d = USE_UART /\ sockets d = [] /\ current_sock d = Empty /\ removed d = [].
Proof.
  induction 1 as [|d e reads ret d1 e1 _ (Hphy & Hq & Hcur & Hrem) Hstep].
  - repeat split.
  - unfold iio_step, tinyiiod_read_command in Hstep. rewrite Hcur in Hstep.
    apply uart_reads_keep in Hstep; [|exact Hphy]. subst d1. cbn.
    now rewrite Hphy, Hq, Hrem.
Qed.

Lemma serial_server_has_no_connections_witness :
  phy_type serial_after_one_command = USE_UART /\
  sockets serial_after_one_command = [] /\
  current_sock serial_after_one_command = Empty /\
  removed serial_after_one_command = [].
Proof.
  apply serial_server_has_no_connections.
  apply (reachable_step USE_UART (iio_init_desc USE_UART) serial_line [1]
           SUCCESS serial_after_one_command (set_uart_reads [] serial_line)).
  - apply reachable_init.
  - reflexivity.
Defined.

(** *** Taking the next connection *)

Lemma accept_loop_waits k acs d :
  sockets d = [] ->
  accept_loop (repeat would_block k ++ acs) d = accept_loop acs d.
Proof.
  intros Hq. induction k as [|k IH]; [reflexivity|].
  cbn [repeat app accept_loop]. unfold _nb_active_sockets. rewrite Hq. exact IH.
Qed.

Lemma accept_loop_queues new : forall d rest,
  (List.length (sockets d ++ new) <= MAX_SOCKET_TO_HANDLE)%nat ->
  sockets d ++ new <> [] ->
  accept_loop (map Accepted new ++ would_block :: rest) d =
    Some (None, set_sockets (sockets d ++ new) d, rest).
Proof.
  induction new as [|s new IH]; intros d rest Hlen Hne.
  - rewrite app_nil_r in *. cbn [map app accept_loop].
    unfold _nb_active_sockets, zlength.
    destruct (sockets d) eqn:Hq; [congruence|]. rewrite <- Hq at 2.
    now rewrite set_sockets_same.
  - cbn [map app accept_loop].
    rewrite push_room by (rewrite length_app in Hlen; cbn in Hlen; lia).
    cbn [IS_ERR_VALUE SUCCESS Z.ltb Z.compare].
    rewrite IH; cbn [sockets set_sockets]; rewrite <- app_assoc; cbn [app].
    + now rewrite set_sockets_twice.
    + exact Hlen.
    + exact Hne.
Qed.

Lemma pop_after_loop d e rest hd tl :
  accept_loop (accepts e) d = Some (None, set_sockets (hd :: tl) d, rest) ->
  _get_next_socket d e =
    Some (SUCCESS, set_current (Active hd) (set_sockets tl d), set_accepts rest e).
Proof.
  intros Hloop. unfold _get_next_socket. rewrite Hloop.
  unfold _pop_sock. cbn [sockets set_sockets cb_read].
  cbn [IS_ERR_VALUE SUCCESS Z.ltb Z.compare]. reflexivity.
Qed.

(** X20.  [_get_next_socket] serves the oldest connection.  It skips the
    [EAGAIN] answers the transport gives while the server has no
    connection at all, queues the connections that are waiting behind
    those the queue holds, as long as they fit, and at the next [EAGAIN]
    puts the head of the queue into the slot and leaves the others
    queued in their order. *)
Theorem get_next_socket_serves_oldest d e k new rest hd tl :
  accepts e = repeat would_block k ++ map Accepted new ++ would_block :: rest ->
  k = 0%nat \/ sockets d = [] ->
  sockets d ++ new = hd :: tl ->
  (List.length (sockets d ++ new) <= MAX_SOCKET_TO_HANDLE)%nat ->
  _get_next_socket d e =
    Some (SUCCESS, set_current (Active hd) (set_sockets tl d), set_accepts rest e).
Proof.
  intros Hacc Hk Hq Hlen. apply pop_after_loop. rewrite Hacc, <- Hq.
  destruct Hk as [-> | Hempty]; [cbn [repeat app] | rewrite accept_loop_waits by exact Hempty];
    (apply accept_loop_queues; [exact Hlen | rewrite Hq; discriminate]).
Qed.

Lemma get_next_socket_serves_oldest_witness :
  _get_next_socket (iio_init_desc USE_NETWORK) late_arrivals =
    Some (SUCCESS,
          set_current (Active 7%nat) (set_sockets [8%nat] (iio_init_desc USE_NETWORK)),
          set_accepts [Accepted 9] late_arrivals).
Proof.
  refine (get_next_socket_serves_oldest (iio_init_desc USE_NETWORK) late_arrivals 2
            [7; 8]%nat [Accepted 9] 7%nat [8%nat] eq_refl _ eq_refl _).
  - now right.
  - cbn. unfold MAX_SOCKET_TO_HANDLE. lia.
Defined.

(** *** A fifth connection *)

Lemma push_no_room d s :
  (MAX_SOCKET_TO_HANDLE <= List.length (sockets d))%nat ->
  _push_sock d s = (- ENOMEM, d).
Proof.
  intros H. unfold _push_sock, cb_write.
  apply Nat.ltb_ge in H. rewrite H. now rewrite set_sockets_same.
Qed.

(** X21.  A fifth connection makes the step fail.  When the server holds
    four connections, one of them in the slot, and another client is
    waiting, the step puts the slot back into the queue, accepts the
    newcomer, cannot queue it and returns [-ENOMEM]: no request is read
    although the command was started, the newcomer is neither queued nor
    removed, and the four connections stay queued with the slot empty. *)
Theorem fifth_connection_fails_the_step d e h s rest n more :
  phy_type d = USE_NETWORK ->
  current_sock d = Active h ->
  List.length (sockets d) = 3%nat ->
  accepts e = Accepted s :: rest ->
  iio_step d e (n :: more) =
    Some (- ENOMEM,
          count_command (set_current Empty (set_sockets (sockets d ++ [h]) d)),
          set_accepts rest e).
Proof.
  intros Hphy Hcur Hlen Hacc. unfold iio_step. rewrite Hcur.
  rewrite push_room by (rewrite Hlen; unfold MAX_SOCKET_TO_HANDLE; lia).
  cbn [IS_ERR_VALUE SUCCESS Z.ltb Z.compare].
  unfold tinyiiod_read_command. cbn [read_requests].
  unfold iio_phy_read. cbn [phy_type count_command set_current set_sockets].
  rewrite Hphy. unfold network_read. cbn [current_sock].
  unfold _get_next_socket. rewrite Hacc. cbn [accept_loop].
  rewrite push_no_room
    by (cbn [sockets count_command set_current set_sockets];
        rewrite length_app, Hlen; cbn; unfold MAX_SOCKET_TO_HANDLE; lia).
  reflexivity.
Qed.

Lemma fifth_connection_fails_the_step_witness :
  iio_step four_clients fifth_waiting [1] =
    Some (- ENOMEM,
          {| phy_type := USE_NETWORK; sockets := [2; 3; 4; 1]%nat; current_sock := Empty;
             removed := []; commands := 1 |},
          set_accepts [would_block] fifth_waiting).
Proof.
  exact (fifth_connection_fails_the_step four_clients fifth_waiting 1%nat 5%nat
           [would_block] 1 [] eq_refl eq_refl eq_refl eq_refl).
Defined.

(** *** Reading a request in pieces *)

Lemma recv_loop_complete oks : forall data i last rest len,
  0 <= i -> i + total_length oks < len -> len <= i + total_length oks + zlength last ->
  len < 2 ^ 32 ->
  recv_loop (map Received oks ++ Received last :: rest) data len i =
    Some (len - (i + total_length oks), len,
          poke (received data i oks) (i + total_length oks)
            (firstn (Z.to_nat (len - (i + total_length oks))) last),
          rest).
Proof.
  induction oks as [|bs oks IH]; intros data i last rest len Hi Hlt Hle Hlen.
  - cbn [map app recv_loop total_length fold_right received] in *.
    rewrite Z.add_0_r in *.
    assert (Hgot : zlength (firstn (Z.to_nat (len - i)) last) = len - i).
    { unfold zlength in *. rewrite length_firstn. lia. }
    rewrite Hgot. unfold to_uint32, wrap_unsigned.
    replace (i + (len - i)) with len by lia. rewrite Z.mod_small by lia.
    now rewrite Z.ltb_irrefl.
  - cbn [map app recv_loop total_length fold_right received] in *.
    fold (total_length oks) in *.
    pose proof (total_length_nonneg oks) as Hnn.
    assert (Hbs : 0 <= zlength bs) by (unfold zlength; lia).
    rewrite firstn_all2 by (unfold zlength in *; lia).
    unfold to_uint32, wrap_unsigned. rewrite Z.mod_small by lia.
    replace (i + zlength bs <? len) with true by (symmetry; apply Z.ltb_lt; lia).
    rewrite IH by lia.
    replace (i + zlength bs + total_length oks) with (i + (zlength bs + total_length oks))
      by lia.
    reflexivity.
Qed.

(** X22.  [network_read] reads a request in as many pieces as the
    transport delivers it in.  On a connection being served, when the
    transport delivers pieces that together are shorter than [len] and
    then a piece that reaches [len], the read returns [len], the buffer
    holds the pieces one after the other, the last one cut at [len], and
    the descriptor is as before. *)
Theorem network_read_assembles_pieces d e data len h oks last rest :
  current_sock d = Active h ->
  recvs e = map Received oks ++ Received last :: rest ->
  0 <= len < 2 ^ 31 ->
  total_length oks < len <= total_length oks + zlength last ->
  network_read d e data len =
    Some (len,
          poke (received data 0 oks) (total_length oks)
            (firstn (Z.to_nat (len - total_length oks)) last),
          d, set_recvs rest e).
Proof.
  intros Hcur Hrecvs Hlen Hfit. unfold network_read. rewrite Hcur.
  cbn [IS_ERR_VALUE SUCCESS Z.ltb Z.compare]. rewrite Hrecvs.
  rewrite recv_loop_complete by lia. rewrite !Z.add_0_l.
  pose proof (total_length_nonneg oks) as Hnn.
  replace (len - total_length oks =? - ENOTCONN) with false
    by (symmetry; apply Z.eqb_neq; unfold ENOTCONN; lia).
  now rewrite to_int32_small_count by lia.
Qed.

Lemma network_read_assembles_pieces_witness :
  network_read two_clients in_pieces (repeat 0 8) 5 =
    Some (5, [80; 82; 73; 78; 84; 0; 0; 0], two_clients, set_recvs [Received [33]] in_pieces).
Proof.
  refine (network_read_assembles_pieces two_clients in_pieces (repeat 0 8) 5 1%nat
            [[80; 82]] [73; 78; 84; 10] [Received [33]] eq_refl eq_refl _ _).
  - lia.
  - cbn. lia.
Defined.

(** *** Turns among any number of connections *)

Lemma rotate_app {A} (l1 : list A) : forall l2,
  rotate (List.length l1) (l1 ++ l2) = l2 ++ l1.
Proof.
  induction l1 as [|x l1 IH]; intros l2; cbn [List.length rotate app rotate1].
  - now rewrite app_nil_r.
  - rewrite <- app_assoc, IH, <- app_assoc. reflexivity.
Qed.

Lemma quiet_step_turn a d e reads r d1 e1 hd tl :
  phy_type d = USE_NETWORK -> current_sock d = Active a ->
  (List.length (sockets d) < MAX_SOCKET_TO_HANDLE)%nat ->
  quiet (reads, e) ->
  sockets d ++ [a] = hd :: tl ->
  iio_step d e reads = Some (r, d1, e1) ->
  phy_type d1 = USE_NETWORK /\ current_sock d1 = Active hd /\ sockets d1 = tl.
Proof.
  intros Hphy Hcur Hroom (Hreads & (rest & Hacc) & Hno) Hq Hstep.
  cbn [fst snd] in Hreads, Hacc, Hno.
  destruct reads as [|n reads]; [congruence|].
  unfold iio_step in Hstep. rewrite Hcur, (push_room d a Hroom) in Hstep.
  cbn [IS_ERR_VALUE SUCCESS Z.ltb Z.compare] in Hstep.
  unfold tinyiiod_read_command in Hstep. cbn [read_requests] in Hstep.
  set (d' := count_command (set_current Empty (set_sockets (sockets d ++ [a]) d))) in *.
  set (d0 := set_current (Active hd) (set_sockets tl d')).
  assert (Hnext : _get_next_socket d' e = Some (SUCCESS, d0, set_accepts rest e)).
  { apply pop_after_loop. rewrite Hacc.
    assert (Hq' : sockets d' ++ [] = hd :: tl) by (rewrite app_nil_r; exact Hq).
    rewrite <- Hq'.
    apply (accept_loop_queues [] d' rest).
    - rewrite Hq', <- Hq, length_app. cbn [List.length].
      unfold MAX_SOCKET_TO_HANDLE in *. lia.
    - rewrite Hq'. discriminate. }
  unfold iio_phy_read in Hstep.
  replace (phy_type d') with USE_NETWORK in Hstep by (symmetry; exact Hphy).
  destruct (network_read_after_pop d' e (repeat 0 (Z.to_nat (Z.max n 1))) n SUCCESS d0
              (set_accepts rest e) eq_refl Hnext eq_refl) as [_ Hread].
  rewrite Hread in Hstep.
  destruct (network_read d0 _ _ n) as [[[[r0 buf1] d2] e2]|] eqn:Hrd; [|discriminate].
  destruct (serving_stays hd d0 (set_accepts rest e) _ _ _ _ _ _ eq_refl Hno Hrd)
    as [-> Hno2].
  destruct (r0 <? 0).
  - injection Hstep as _ <- _. repeat split; auto.
  - apply (serving_reads_stay hd) in Hstep; [subst d1; repeat split; auto | reflexivity |
      exact Hno2].
Qed.

Lemma answered_step_turn a d e reads :
  phy_type d = USE_NETWORK -> current_sock d = Active a ->
  (List.length (sockets d) < MAX_SOCKET_TO_HANDLE)%nat ->
  quiet (reads, e) -> answered (reads, e) ->
  exists r d1 e1, iio_step d e reads = Some (r, d1, e1).
Proof.
  intros Hphy Hcur Hroom (Hreads & (rest & Hacc) & Hno) Hans.
  cbn [fst snd] in Hreads, Hacc, Hno. unfold answered in Hans. cbn [fst snd] in Hans.
  destruct reads as [|n reads]; [congruence|].
  inversion Hans as [|n' r' ns rs (Hn & bs & -> & Hbs) Hrest Hns Hrs]; subst.
  destruct (sockets d ++ [a]) as [|hd tl] eqn:Hq;
    [apply app_eq_nil in Hq; destruct Hq; discriminate|].
  unfold iio_step. rewrite Hcur, (push_room d a Hroom).
  cbn [IS_ERR_VALUE SUCCESS Z.ltb Z.compare].
  unfold tinyiiod_read_command. cbn [read_requests].
  set (d' := count_command (set_current Empty (set_sockets (sockets d ++ [a]) d))).
  set (d0 := set_current (Active hd) (set_sockets tl d')).
  assert (Hnext : _get_next_socket d' e = Some (SUCCESS, d0, set_accepts rest e)).
  { apply pop_after_loop. rewrite Hacc.
    assert (Hq' : sockets d' ++ [] = hd :: tl) by (rewrite app_nil_r; exact Hq).
    rewrite <- Hq'.
    apply (accept_loop_queues [] d' rest).
    - rewrite Hq', <- Hq, length_app. cbn [List.length].
      unfold MAX_SOCKET_TO_HANDLE in *. lia.
    - rewrite Hq'. discriminate. }
  unfold iio_phy_read.
  replace (phy_type d') with USE_NETWORK by (symmetry; exact Hphy).
  destruct (network_read_after_pop d' e (repeat 0 (Z.to_nat (Z.max n 1))) n SUCCESS d0
              (set_accepts rest e) eq_refl Hnext eq_refl) as [_ Hread].
  rewrite Hread.
  destruct (answered_read hd d0 (set_accepts rest e) n bs rs
              (repeat 0 (Z.to_nat (Z.max n 1))) eq_refl (eq_sym Hrs) Hn Hbs)
    as (data1 & ->).
  replace (n <? 0) with false by (symmetry; apply Z.ltb_ge; lia).
  destruct (answered_reads hd d0 reads (set_recvs rs (set_accepts rest e)) Hphy eq_refl Hrest)
    as (r & e1 & ->).
  eauto.
Qed.

(** X23.  Turns among any number of connections.  From a descriptor
    with a connection in the slot and room for it in the queue, steps
    during which nobody connects or disconnects and whose commands read
    something serve the connections in turn.  When each read of these
    commands is answered by the bytes it asks for, all the steps
    complete.  Whenever [k] such steps complete, the connections held
    are those held at the start, rotated [k] times, with the first of
    them in the slot, and after as many steps as there are connections
    each has had one turn and the descriptor holds them as at the
    start. *)
Theorem quiet_steps_rotate steps : forall a d,
  phy_type d = USE_NETWORK -> current_sock d = Active a ->
  (List.length (sockets d) < MAX_SOCKET_TO_HANDLE)%nat ->
  Forall quiet steps ->
  (Forall answered steps -> exists d', iio_steps d steps = Some d') /\
  (forall d',
     iio_steps d steps = Some d' ->
     (exists h, current_sock d' = Active h) /\
     held d' = rotate (List.length steps) (held d) /\
     (List.length steps = List.length (held d) -> held d' = held d)).
Proof.
  assert (Hmain : forall steps a d d',
            phy_type d = USE_NETWORK -> current_sock d = Active a ->
            (List.length (sockets d) < MAX_SOCKET_TO_HANDLE)%nat ->
            Forall quiet steps ->
            iio_steps d steps = Some d' ->
            (exists h, current_sock d' = Active h) /\
            held d' = rotate (List.length steps) (held d)).
  { clear steps. induction steps as [|[reads e] steps IH];
      intros a d d' Hphy Hcur Hroom Hquiet H.
    - cbn in H. injection H as <-. split; [now exists a | reflexivity].
    - inversion Hquiet as [|st sts Hst Hrest]; subst.
      cbn [iio_steps] in H.
      destruct (iio_step d e reads) as [[[r d1] e1]|] eqn:Hstep; [|discriminate].
      destruct (sockets d ++ [a]) as [|hd tl] eqn:Hq;
        [apply app_eq_nil in Hq; destruct Hq; discriminate|].
      destruct (quiet_step_turn a d e reads r d1 e1 hd tl Hphy Hcur Hroom Hst Hq Hstep)
        as (Hp1 & Hc1 & Hq1).
      assert (Hroom1 : (List.length (sockets d1) < MAX_SOCKET_TO_HANDLE)%nat).
      { apply (f_equal (@List.length sock)) in Hq. rewrite length_app in Hq.
        cbn [List.length] in Hq. rewrite Hq1. lia. }
      destruct (IH hd d1 d' Hp1 Hc1 Hroom1 Hrest H) as [Hcur' Hheld].
      split; [exact Hcur'|]. rewrite Hheld. cbn [List.length rotate].
      f_equal. unfold held. rewrite Hc1, Hq1, Hcur. cbn [rotate1]. now rewrite Hq. }
  assert (Hdone : forall steps a d,
            phy_type d = USE_NETWORK -> current_sock d = Active a ->
            (List.length (sockets d) < MAX_SOCKET_TO_HANDLE)%nat ->
            Forall quiet steps -> Forall answered steps ->
            exists d', iio_steps d steps = Some d').
  { clear steps. induction steps as [|[reads e] steps IH];
      intros a d Hphy Hcur Hroom Hquiet Hans.
    - cbn. eauto.
    - inversion Hquiet as [|st sts Hst Hrest]; subst.
      inversion Hans as [|st sts Ha Harest]; subst.
      destruct (answered_step_turn a d e reads Hphy Hcur Hroom Hst Ha)
        as (r & d1 & e1 & Hstep).
      cbn [iio_steps]. rewrite Hstep.
      destruct (sockets d ++ [a]) as [|hd tl] eqn:Hq;
        [apply app_eq_nil in Hq; destruct Hq; discriminate|].
      destruct (quiet_step_turn a d e reads r d1 e1 hd tl Hphy Hcur Hroom Hst Hq Hstep)
        as (Hp1 & Hc1 & Hq1).
      apply (IH hd d1); auto.
      apply (f_equal (@List.length sock)) in Hq. rewrite length_app in Hq.
      cbn [List.length] in Hq. rewrite Hq1. lia. }
  intros a d Hphy Hcur Hroom Hquiet. split.
  - now apply (Hdone steps a d).
  - intros d' H.
    destruct (Hmain steps a d d' Hphy Hcur Hroom Hquiet H) as [Hc Hheld].
    split; [exact Hc|]. split; [exact Hheld|].
    intros Hlen. rewrite Hheld, Hlen.
    rewrite <- (app_nil_r (held d)) at 2. now rewrite rotate_app.
Qed.

Lemma three_quiet : Forall quiet [one_byte; one_byte; one_byte].
Proof. repeat constructor; apply one_byte_quiet. Qed.

Lemma three_answered : Forall answered [one_byte; one_byte; one_byte].
Proof.
  apply Forall_cons; [apply one_byte_answered|].
  apply Forall_cons; [apply one_byte_answered|].
  apply Forall_cons; [apply one_byte_answered | apply Forall_nil].
Qed.

Lemma quiet_steps_rotate_witness :
  (exists d', iio_steps three_clients [one_byte; one_byte; one_byte] = Some d') /\
  (exists h, current_sock three_clients_later = Active h) /\
  held three_clients_later = rotate 3 [1; 2; 3]%nat /\
  (3%nat = 3%nat -> held three_clients_later = [1; 2; 3]%nat).
Proof.
  destruct (quiet_steps_rotate [one_byte; one_byte; one_byte] 1%nat three_clients
              eq_refl eq_refl) as [Hdone Hturns];
    [cbn; unfold MAX_SOCKET_TO_HANDLE; lia | exact three_quiet |].
  split; [exact (Hdone three_answered) | exact (Hturns three_clients_later eq_refl)].
Defined.

End ServerFacts.

(* ------------------------------------------------------------------ *)
(** ** The context description *)

Module XmlFacts.
Import Xml.

Section Document.
Context {Dev : Type}.
Variable alloc : nat -> bool.

Lemma append_assoc (a b c : string) :
  String.append (String.append a b) c = String.append a (String.append b c).
Proof. induction a as [|x a IH]; cbn; [reflexivity | now rewrite IH]. Qed.

Lemma append_empty (a : string) : String.append a EmptyString = a.
Proof. induction a as [|x a IH]; cbn; [reflexivity | now rewrite IH]. Qed.

(** The loop over interfaces that have the callback, followed by
    others. *)
Lemma xml_loop_prefix (pre : list (iio_interface Dev)) : forall rest k xml,
  Forall (fun i => get_xml i <> None) pre ->
  xml_loop alloc (pre ++ rest) k xml =
    if forallb (fun i => 0 <=? fst (fragment i)) pre &&
       forallb alloc (seq k (List.length pre))
    then xml_loop alloc rest (k + List.length pre)
           (String.append xml
              (fold_right (fun i text => String.append (snd (fragment i)) text)
                 EmptyString pre))
    else Ret None.
Proof.
  induction pre as [|i pre IH]; intros rest k xml Hcb;
    cbn [app xml_loop forallb List.length seq fold_right].
  - cbn [andb]. now rewrite Nat.add_0_r, append_empty.
  - inversion Hcb as [|x xs Hi Hpre]; subst x xs.
    unfold fragment at 1 3. destruct (get_xml i) as [callback|]; [|congruence].
    cbn [deref bind]. destruct (callback (iio i)) as [ret tmp]. cbn [fst snd].
    rewrite (Z.leb_antisym ret 0), Z.ltb_antisym.
    destruct (0 <=? ret); cbn [negb andb]; [|reflexivity].
    destruct (alloc k); cbn [negb andb].
    + rewrite IH by exact Hpre. rewrite append_assoc.
      replace (S k + List.length pre)%nat with (k + S (List.length pre))%nat by lia.
      reflexivity.
    + now rewrite andb_false_r.
Qed.

(** X24.  The context description of a server with registered devices.
    Called with a place for the result on a registry whose interfaces all
    have the [get_xml] callback, [iio_get_xml] succeeds exactly when the
    callback of every interface returns a non-negative value and every
    allocation succeeds; the description is then the header, the texts of
    the interfaces in the order of their registration, and the closing
    tag; in every other case it returns [FAILURE] and the caller's
    pointer is as before: there is no partial description.  The callback
    is called without a test: at the first interface that lacks it the
    call goes through a NULL pointer, unless the function has failed
    before it gets there. *)
Theorem xml_is_header_devices_footer (l : list (iio_interface Dev)) (old : option string) :
  (Forall (fun i => get_xml i <> None) l ->
   iio_get_xml alloc (Some old) (RegLive l) =
     if forallb (fun i => 0 <=? fst (fragment i)) l &&
        forallb alloc (seq 0 (List.length l + 2))
     then Ret (SUCCESS,
               Some (Some (String.append header
                             (String.append
                                (fold_right
                                   (fun i text => String.append (snd (fragment i)) text)
                                   EmptyString l)
                                header_end))))
     else Ret (FAILURE, Some old)) /\
  (forall pre i post,
     l = pre ++ i :: post ->
     Forall (fun i => get_xml i <> None) pre ->
     get_xml i = None ->
     iio_get_xml alloc (Some old) (RegLive l) =
       if forallb (fun i => 0 <=? fst (fragment i)) pre &&
          forallb alloc (seq 0 (List.length pre + 1))
       then Undef NullDereference
       else Ret (FAILURE, Some old)).
Proof.
  split.
  - intros Hcb. unfold iio_get_xml.
    rewrite <- (app_nil_r l) at 1. rewrite xml_loop_prefix by exact Hcb.
    replace (List.length l + 2)%nat with (S (List.length l + 1)) by lia.
    cbn [seq forallb]. rewrite seq_app, forallb_app. cbn [seq forallb Nat.add].
    rewrite andb_true_r.
    destruct (alloc 0); cbn [negb andb]; [|now rewrite andb_false_r].
    destruct (forallb (fun i => 0 <=? fst (fragment i)) l); cbn [andb]; [|reflexivity].
    destruct (forallb alloc (seq 1 (List.length l))); cbn [andb]; [|reflexivity].
    cbn [xml_loop bind xml_end].
    replace (1 + List.length l)%nat with (S (List.length l)) by lia.
    destruct (alloc (S (List.length l))); cbn [negb]; [|reflexivity].
    now rewrite append_assoc.
  - intros pre i post -> Hcb Hi. unfold iio_get_xml.
    rewrite xml_loop_prefix by exact Hcb.
    replace (List.length pre + 1)%nat with (S (List.length pre)) by lia.
    cbn [seq forallb].
    destruct (alloc 0); cbn [negb andb]; [|now rewrite andb_false_r].
    destruct (forallb (fun i => 0 <=? fst (fragment i)) pre); cbn [andb]; [|reflexivity].
    destruct (forallb alloc (seq 1 (List.length pre))); cbn [andb]; [|reflexivity].
    cbn [xml_loop]. rewrite Hi. reflexivity.
Qed.

(** X25.  The context description of a server without any registered
    device.  As long as nothing was registered the registry pointer is
    NULL; [iio_get_xml] checks its argument and allocates the header,
    then reads the number of interfaces through that pointer.  After
    the first registration the function returns the header, the text of
    that interface and the closing tag when the interface has the
    [get_xml] callback, and calls through a NULL pointer when it has
    not. *)
Theorem xml_before_registration_is_undefined (w : world Dev) (old : option string) x
    callback :
  iio_interfaces w = RegNull ->
  iio_get_xml alloc None (iio_interfaces w) = Ret (FAILURE, None) /\
  (alloc 0%nat = false ->
   iio_get_xml alloc (Some old) (iio_interfaces w) = Ret (FAILURE, Some old)) /\
  (alloc 0%nat = true ->
   iio_get_xml alloc (Some old) (iio_interfaces w) = Undef NullDereference) /\
  (alloc 0%nat = true -> alloc 1%nat = true -> alloc 2%nat = true ->
   get_xml x = Some callback ->
   0 <= fst (callback (iio x)) ->
   exists w', iio_register true true x w = Ret (SUCCESS, w') /\
     iio_get_xml alloc (Some old) (iio_interfaces w') =
       Ret (SUCCESS,
            Some (Some (String.append header
                          (String.append (snd (callback (iio x))) header_end))))) /\
  (alloc 0%nat = true -> get_xml x = None ->
   exists w', iio_register true true x w = Ret (SUCCESS, w') /\
     iio_get_xml alloc (Some old) (iio_interfaces w') = Undef NullDereference).
Proof.
  intros Hw. rewrite Hw. split; [reflexivity|].
  split; [intros H; cbn; now rewrite H|].
  split; [intros H; cbn; now rewrite H|].
  split;
    [|intros H0 Hcb; unfold iio_register; rewrite Hw; cbn [negb];
      eexists; split; [reflexivity|]; cbn [iio_interfaces set_registry];
      unfold iio_get_xml; rewrite H0; cbn [negb xml_loop]; now rewrite Hcb].
  intros H0 H1 H2 Hcb Hx. unfold iio_register. rewrite Hw. cbn [negb].
  eexists. split; [reflexivity|]. cbn [iio_interfaces set_registry].
  unfold iio_get_xml. rewrite H0. cbn [negb xml_loop List.length]. rewrite Hcb.
  cbn [deref bind].
  destruct (callback (iio x)) as [ret tmp]. cbn [fst snd] in *.
  replace (ret <? 0) with false by (symmetry; apply Z.ltb_ge; lia).
  rewrite H1. cbn [negb bind xml_end]. rewrite H2. cbn [negb].
  now rewrite append_assoc.
Qed.

End Document.

Lemma xml_is_header_devices_footer_witness :
  iio_get_xml (fun _ => true) (Some None) (RegLive [Sample.A; Sample.B]) =
    Ret (SUCCESS,
         Some (Some (String.append header (String.append "AB" header_end)))) /\
  iio_get_xml (fun _ => true) (Some None) (RegLive [Sample.A; SampleBulk.W; Sample.B]) =
    Undef NullDereference.
Proof.
  split.
  - refine (proj1 (xml_is_header_devices_footer (fun _ => true) [Sample.A; Sample.B] None)
              _).
    repeat constructor; discriminate.
  - refine (proj2 (xml_is_header_devices_footer (fun _ => true)
                     [Sample.A; SampleBulk.W; Sample.B] None)
              [Sample.A] SampleBulk.W [Sample.B] eq_refl _ eq_refl).
    repeat constructor; discriminate.
Defined.

Lemma xml_before_registration_is_undefined_witness :
  let alloc := fun _ : nat => true in
  let w := Sample.world_of RegNull in
  iio_get_xml alloc None (iio_interfaces w) = Ret (FAILURE, None) /\
  (true = false ->
   iio_get_xml alloc (Some None) (iio_interfaces w) = Ret (FAILURE, Some None)) /\
  (true = true ->
   iio_get_xml alloc (Some None) (iio_interfaces w) = Undef NullDereference) /\
  (true = true -> true = true -> true = true ->
   get_xml Sample.A = Some (fun _ => (0, "A"%string)) ->
   0 <= 0 ->
   exists w', iio_register true true Sample.A w = Ret (SUCCESS, w') /\
     iio_get_xml alloc (Some None) (iio_interfaces w') =
       Ret (SUCCESS, Some (Some (String.append header (String.append "A" header_end))))) /\
  (true = true -> get_xml Sample.A = None ->
   exists w', iio_register true true Sample.A w = Ret (SUCCESS, w') /\
     iio_get_xml alloc (Some None) (iio_interfaces w') = Undef NullDereference).
Proof.
  exact (xml_before_registration_is_undefined (fun _ => true)
           (Sample.world_of RegNull) None Sample.A (fun _ => (0, "A"%string)) eq_refl).
Defined.

End XmlFacts.

(* ------------------------------------------------------------------ *)
(** ** Bringing the server up *)

Module InitFacts.
Import Multiplexer Init.

(** X26.  [iio_init] is all or nothing.  Without parameters it returns
    [-EINVAL].  Otherwise, when every allocation and every initialiser
    of the chosen link succeeds, it returns [SUCCESS] with a descriptor
    whose slot and queue are empty and holds what it acquired; when
    anything fails, or the link is of neither type, it returns
    [FAILURE], whatever code the failing call gave, hands out no
    descriptor, and has given back everything it had acquired, each
    resource once. *)
Theorem iio_init_is_all_or_nothing (init_param : option iio_init_param) (a : answers) :
  iio_init init_param a =
    match init_param with
    | None => (- EINVAL, None, Some [])
    | Some p =>
        match ip_phy_type p with
        | Some phy =>
            if all_succeed phy a
            then (SUCCESS, Some (iio_init_desc phy), Some (held_when_up phy))
            else (FAILURE, None, Some [])
        | None => (FAILURE, None, Some [])
        end
    end.
Proof.
  destruct init_param as [[[[|]|]]|]; [| | |reflexivity];
    unfold iio_init, finish, all_succeed; cbn [ip_phy_type];
    destruct (ops_calloc a); cbn [negb andb]; try reflexivity;
    destruct (desc_calloc a); cbn [negb andb]; try reflexivity.
  - destruct (IS_ERR_VALUE (uart_init a)); cbn [negb andb]; [reflexivity|].
    destruct (IS_ERR_VALUE (list_init a)); cbn [negb andb]; [reflexivity|].
    destruct (tinyiiod_create a); reflexivity.
  - destruct (IS_ERR_VALUE (socket_init a)); cbn [negb andb]; [reflexivity|].
    destruct (IS_ERR_VALUE (socket_bind a)); cbn [negb andb]; [reflexivity|].
    destruct (IS_ERR_VALUE (socket_listen a)); cbn [negb andb]; [reflexivity|].
    destruct (IS_ERR_VALUE (cb_init a)); cbn [negb andb]; [reflexivity|].
    destruct (IS_ERR_VALUE (list_init a)); cbn [negb andb]; [reflexivity|].
    destruct (tinyiiod_create a); reflexivity.
Qed.

End InitFacts.
